(** * tenth-man-rule: the debate engine, the consensus judge and the
      OpenRouter call layer, as a shallow embedding of the Go sources.

    Layout (one Rocq module per Go package):
    - [Go]          the fragments of the Go runtime the code relies on:
                    64-bit [int] arithmetic, [error] values, results of
                    calls that may fail or panic, and a state monad;
    - [openrouter]  internal/openrouter: wire types, [isRetryable],
                    [Client.doWithRetry], [Client.ChatCompletion];
    - [debate]      internal/debate: types, prompts, [Engine.Run] and
                    [Engine.runRound];
    - [tenthman]    internal/debate/tenthman: the activator;
    - [consensus]   internal/debate/consensus: [Judge.Evaluate] and
                    [parseConsensusJSON].

    Everything outside the process (the HTTP server, the clock, the
    cancellation signal, the model behind an interface) is an oracle on an
    abstract [World]; each model threads the world explicitly and keeps a
    log of the oracle calls it made, so that statements such as "at most
    four requests" or "no call after the cancellation" can be written
    down. *)

From Stdlib Require Import ZArith List String Ascii Bool Lia DecimalString.
Import ListNotations.

Set Implicit Arguments.

Local Open Scope string_scope.
Local Open Scope list_scope.
Local Open Scope Z_scope.

(* ===================================================================== *)
(** * Go runtime fragments *)
(* ===================================================================== *)

Module Go.

(** [int] is 64 bits wide on the platforms the tool is built for; a value
    is kept as a [Z] and every arithmetic result is wrapped. *)
Definition max_int : Z := 2 ^ 63 - 1.
Definition min_int : Z := - 2 ^ 63.

Definition wrap (z : Z) : Z := (z + 2 ^ 63) mod 2 ^ 64 - 2 ^ 63.

Definition is_int (z : Z) : Prop := min_int <= z <= max_int.

(** [%d] of the fmt verbs. *)
Definition itoa (z : Z) : string := NilZero.string_of_int (Z.to_int z).

(** Error values.  [errorString] stands for [errors.New] and for
    [fmt.Errorf] without [%w]; [wrapError] is what [fmt.Errorf] builds for
    a format ending in [%w]: the formatted message and the wrapped
    error. *)
Inductive error : Type :=
| errorString (s : string)
| wrapError (msg : string) (err : error).

Definition Error (e : error) : string :=
  match e with
  | errorString s => s
  | wrapError msg _ => msg
  end.

Definition Unwrap (e : error) : option error :=
  match e with
  | errorString _ => None
  | wrapError _ err => Some err
  end.

(** [fmt.Errorf(prefix + "%w", err)]. *)
Definition Errorf_w (prefix : string) (err : error) : error :=
  wrapError (prefix ++ Error err) err.

(** [errors.Is(e, target)] for errors compared structurally. *)
Fixpoint error_eqb (a b : error) : bool :=
  match a, b with
  | errorString s, errorString t => String.eqb s t
  | wrapError m e, wrapError n f => String.eqb m n && error_eqb e f
  | _, _ => false
  end.

Fixpoint Is (e target : error) : bool :=
  error_eqb e target ||
  match e with
  | errorString _ => false
  | wrapError _ inner => Is inner target
  end.

(** context.Canceled and context.DeadlineExceeded. *)
Definition Canceled : error := errorString "context canceled".
Definition DeadlineExceeded : error := errorString "context deadline exceeded".

(** The outcome of a call: a value, a non-nil error, a run-time panic, or
    [Diverge] when the iteration budget handed to a loop of the model is
    used up before the loop exits. *)
Inductive Res (A : Type) : Type :=
| Ok (a : A)
| Err (e : error)
| Panic (msg : string)
| Diverge.

Arguments Ok {A} a.
Arguments Err {A} e.
Arguments Panic {A} msg.
Arguments Diverge {A}.

(** State-and-failure monad: the state survives a failure, as the fields
    of a receiver survive a [return nil, err]. *)
Definition M (S A : Type) : Type := S -> Res A * S.

Definition ret {S A : Type} (a : A) : M S A := fun s => (Ok a, s).

Definition bind {S A B : Type} (m : M S A) (k : A -> M S B) : M S B :=
  fun s =>
    match m s with
    | (Ok a, s') => k a s'
    | (Err e, s') => (Err e, s')
    | (Panic msg, s') => (Panic msg, s')
    | (Diverge, s') => (Diverge, s')
    end.

Definition raise {S A : Type} (e : error) : M S A := fun s => (Err e, s).
Definition panic {S A : Type} (msg : string) : M S A := fun s => (Panic msg, s).
Definition diverge {S A : Type} : M S A := fun s => (Diverge, s).
Definition get {S : Type} : M S S := fun s => (Ok s, s).
Definition modify {S : Type} (f : S -> S) : M S unit := fun s => (Ok tt, f s).

(** time.Duration counts nanoseconds in an int64. *)
Definition Duration : Type := Z.
Definition Second : Duration := 1000000000.

(** What the code observes of a [context.Context], over a world [World]
    that the observation may advance: [ctx_Err] is [ctx.Err()], nil or the
    reason the context is done; [ctx_After ctx d] is the [select] between
    [ctx.Done()] and [time.After(d)], answering [None] when the timer fires
    and [Some (ctx.Err())] when the context is done first. *)
Record Context (World : Type) : Type := {
  ctx_Err : World -> option error * World;
  ctx_After : Duration -> World -> option error * World
}.

(** strconv.Atoi: an optional sign, then decimal digits only, and the value
    must fit an [int]. *)
Definition digit_of (c : ascii) : option Z :=
  let n := Z.of_nat (nat_of_ascii c) in
  if (48 <=? n) && (n <=? 57) then Some (n - 48) else None.

Fixpoint digits_value (acc : Z) (s : string) : option Z :=
  match s with
  | EmptyString => Some acc
  | String c rest =>
      match digit_of c with
      | Some d => digits_value (10 * acc + d) rest
      | None => None
      end
  end.

Definition Atoi (s : string) : option Z :=
  let unsigned (t : string) :=
    match t with
    | EmptyString => None
    | _ => digits_value 0 t
    end in
  let v :=
    match s with
    | String "-" t => option_map Z.opp (unsigned t)
    | String "+" t => unsigned t
    | _ => unsigned s
    end in
  match v with
  | Some z => if (min_int <=? z) && (z <=? max_int) then Some z else None
  | None => None
  end.

Lemma wrap_id (z : Z) : is_int z -> wrap z = z.
Proof.
  unfold is_int, wrap, min_int, max_int. intros H.
  rewrite Z.mod_small; lia.
Qed.

Lemma wrap_is_int (z : Z) : is_int (wrap z).
Proof.
  unfold is_int, wrap, min_int, max_int.
  pose proof (Z.mod_pos_bound (z + 2 ^ 63) (2 ^ 64)). lia.
Qed.

End Go.

Declare Scope go_scope.
Delimit Scope go_scope with go.
Notation "x <- m ;; k" := (Go.bind m (fun x => k))
  (at level 61, m at next level, right associativity) : go_scope.
Notation "m ;; k" := (Go.bind m (fun _ => k))
  (at level 61, right associativity) : go_scope.

Import Go.
Local Open Scope go_scope.

(* ===================================================================== *)
(** * internal/openrouter *)
(* ===================================================================== *)

Module openrouter.

(** ** types.go *)

Record Message : Type := { Role : string; Content : string }.

Record ChatRequest : Type := { Model : string; Messages : list Message }.

Record Choice : Type := { Message_ : Message }.

Record ChatResponse : Type := { Choices : list Choice }.

(** ** client.go *)

Definition maxRetries : Z := 3.

Definition StatusOK : Z := 200.
Definition StatusTooManyRequests : Z := 429.

(** What the code reads of an [*http.Response]: the status code,
    [Header.Get], and the bytes [io.ReadAll] delivers from the body. *)
Record Response : Type := {
  StatusCode : Z;
  Header_Get : string -> string;
  Body : string
}.

(** [time.Duration(1<<uint(attempt)) * time.Second]: a 64-bit shift (a
    count of 64 or more, which a negative [attempt] converts to, gives 0),
    then a wrapping multiplication. *)
Definition defaultBackoff (attempt : Z) : Duration :=
  let shifted :=
    if (0 <=? attempt) && (attempt <? 64) then wrap (Z.shiftl 1 attempt) else 0 in
  wrap (shifted * Second).

Definition isRetryable (statusCode : Z) : bool :=
  (statusCode =? StatusTooManyRequests) || (statusCode >=? 500).

Section Client.

(** The world outside the process. *)
Variable World : Type.

Record Client : Type := {
  httpClient_Do : ChatRequest -> World -> (Response + error) * World;
  apiKey : string;
  baseURL : string;
  backoffFunc : Z -> Duration
}.

(** One entry per oracle call. *)
Inductive Event : Type :=
| EvDo (r : Response + error)
| EvAfter (delay : Duration) (r : option error).

Record Sys : Type := { world : World; log : list Event }.

Definition emit (ev : Event) (w : World) : M Sys unit :=
  modify (fun s => {| world := w; log := log s ++ [ev] |}).

Definition call_do (do : World -> (Response + error) * World)
  : M Sys (Response + error) :=
  s <- get ;;
  let (r, w) := do (world s) in
  emit (EvDo r) w ;;
  ret r.

Definition select_after (ctx : Context World) (delay : Duration)
  : M Sys (option error) :=
  s <- get ;;
  let (r, w) := ctx_After ctx delay (world s) in
  emit (EvAfter delay r) w ;;
  ret r.

(** The body of [select { case <-ctx.Done(): return nil, ctx.Err();
    case <-time.After(delay): }]. *)
Definition wait (ctx : Context World) (delay : Duration) : M Sys unit :=
  r <- select_after ctx delay ;;
  match r with
  | Some err => raise err
  | None => ret tt
  end.

Definition status_error (resp : Response) : error :=
  errorString ("unexpected status " ++ itoa (StatusCode resp) ++ ": " ++ Body resp).

(** The Retry-After block of [doWithRetry]. *)
Definition retry_after_wait (c : Client) (ctx : Context World) (resp : Response)
  : M Sys unit :=
  if StatusCode resp =? StatusTooManyRequests then
    let ra := Header_Get resp "Retry-After" in
    if negb (String.eqb ra "") then
      match Atoi ra with
      | Some secs =>
          let raDelay := wrap (secs * Second) in
          if (0 <? raDelay) && (0 <? backoffFunc c 0) then wait ctx raDelay
          else ret tt
      | None => ret tt
      end
    else ret tt
  else ret tt.

(** [return nil, lastErr]: a nil [lastErr] would hand back a nil response
    and a nil error. *)
Definition exit_result_m (lastErr : option error) : M Sys (option Response) :=
  match lastErr with
  | Some e => raise e
  | None => ret None
  end.

(** [for attempt := 0; attempt <= maxRetries; attempt++ { ... }] followed by
    [return nil, lastErr].  [budget] bounds the iterations of the model;
    the result is an [*http.Response], [None] standing for nil. *)
Fixpoint doWithRetry_loop (c : Client) (ctx : Context World)
    (do : World -> (Response + error) * World)
    (budget : nat) (attempt : Z) (lastErr : option error)
  : M Sys (option Response) :=
  match budget with
  | O => diverge
  | S budget' =>
      if attempt <=? maxRetries then
        (if 0 <? attempt then wait ctx (backoffFunc c (wrap (attempt - 1)))
         else ret tt) ;;
        r <- call_do do ;;
        match r with
        | inr err => raise err
        | inl resp =>
            if StatusCode resp =? StatusOK then ret (Some resp)
            else
              if negb (isRetryable (StatusCode resp)) then
                raise (status_error resp)
              else
                retry_after_wait c ctx resp ;;
                doWithRetry_loop c ctx do budget' (wrap (attempt + 1))
                  (Some (status_error resp))
        end
      else exit_result_m lastErr
  end.

Definition doWithRetry (c : Client) (ctx : Context World)
    (do : World -> (Response + error) * World) : M Sys (option Response) :=
  doWithRetry_loop c ctx do 5 0 None.

(** encoding/json as used by [ChatCompletion]: the codec of the two wire
    types. *)
Variable json_Marshal : ChatRequest -> string + error.
Variable json_Decode : string -> ChatResponse + error.

Definition ChatCompletion (c : Client) (ctx : Context World) (model : string)
    (messages : list Message) : M Sys ChatResponse :=
  let reqBody := {| Model := model; Messages := messages |} in
  match json_Marshal reqBody with
  | inr err => raise (Errorf_w "openrouter: " err)
  | inl _ =>
      fun s =>
        match doWithRetry c ctx (httpClient_Do c reqBody) s with
        | (Err err, s') => (Err (Errorf_w "openrouter: " err), s')
        | (Ok None, s') => (Panic "invalid memory address or nil pointer dereference", s')
        | (Ok (Some resp), s') =>
            match json_Decode (Body resp) with
            | inr err => (Err (Errorf_w "openrouter: " err), s')
            | inl chatResp => (Ok chatResp, s')
            end
        | (Panic msg, s') => (Panic msg, s')
        | (Diverge, s') => (Diverge, s')
        end
  end.

(** ** Reading the log of one [doWithRetry] *)

Definition is_request (ev : Event) : bool :=
  match ev with
  | EvDo _ => true
  | EvAfter _ _ => false
  end.

(** Number of HTTP requests in a log. *)
Definition requests (evs : list Event) : nat :=
  List.length (List.filter is_request evs).

(** An event after which the loop goes on: a response with a retryable
    status, or a wait that ran to its end. *)
Definition continues (ev : Event) : Prop :=
  match ev with
  | EvDo (inl resp) =>
      StatusCode resp <> StatusOK /\ isRetryable (StatusCode resp) = true
  | EvDo (inr _) => False
  | EvAfter _ r => r = None
  end.

(** The response of the last request of a log. *)
Fixpoint last_response (evs : list Event) : option Response :=
  match evs with
  | [] => None
  | ev :: rest =>
      match last_response rest with
      | Some resp => Some resp
      | None =>
          match ev with
          | EvDo (inl resp) => Some resp
          | _ => None
          end
      end
  end.

(** How the last event of a log fixes the outcome; [n] is the number of
    requests the log holds when the retry budget is used up. *)
Definition final_ok (n : nat) (evs : list Event) (final : Event)
    (out : Res (option Response)) : Prop :=
  match final with
  | EvDo (inr err) => out = Err err
  | EvAfter _ (Some err) => out = Err err
  | EvDo (inl resp) =>
      if StatusCode resp =? StatusOK then out = Ok (Some resp)
      else out = Err (status_error resp) /\
           (isRetryable (StatusCode resp) = true -> requests evs = n)
  | EvAfter _ None =>
      requests evs = n /\
      exists resp, last_response evs = Some resp /\ out = Err (status_error resp)
  end.

(** ** Lemmas on the log *)

Lemma requests_app (l1 l2 : list Event) :
  requests (l1 ++ l2) = (requests l1 + requests l2)%nat.
Proof.
  unfold requests. rewrite List.filter_app, List.length_app. reflexivity.
Qed.

Lemma last_response_app (l1 l2 : list Event) :
  last_response (l1 ++ l2) =
  match last_response l2 with
  | Some resp => Some resp
  | None => last_response l1
  end.
Proof.
  induction l1 as [|ev l1 IH]; simpl.
  - destruct (last_response l2); reflexivity.
  - rewrite IH. destruct (last_response l2); reflexivity.
Qed.

Lemma select_after_inv (ctx : Context World) (d : Duration) (s s1 : Sys)
    (r : Res (option error)) :
  select_after ctx d s = (r, s1) ->
  exists o, r = Ok o /\ log s1 = log s ++ [EvAfter d o].
Proof.
  unfold select_after, bind, get, emit, modify, ret.
  destruct (ctx_After ctx d (world s)) as [o w]. simpl.
  intros H. inversion H; subst. exists o. split; reflexivity.
Qed.

Lemma wait_inv (ctx : Context World) (d : Duration) (s s1 : Sys) (r : Res unit) :
  wait ctx d s = (r, s1) ->
  exists o, log s1 = log s ++ [EvAfter d o] /\
            r = match o with Some e => Err e | None => Ok tt end.
Proof.
  unfold wait, bind. destruct (select_after ctx d s) as [r0 s0] eqn:E.
  apply select_after_inv in E. destruct E as [o [-> E]].
  destruct o as [e|]; unfold raise, ret; intros H; inversion H; subst;
    [exists (Some e) | exists None]; split; auto.
Qed.

Lemma call_do_inv (do : World -> (Response + error) * World) (s s1 : Sys)
    (r : Res (Response + error)) :
  call_do do s = (r, s1) ->
  exists x, r = Ok x /\ log s1 = log s ++ [EvDo x].
Proof.
  unfold call_do, bind, get, emit, modify, ret.
  destruct (do (world s)) as [x w]. simpl.
  intros H. inversion H; subst. exists x. split; reflexivity.
Qed.

Lemma retry_after_wait_inv (c : Client) (ctx : Context World) (resp : Response)
    (s s1 : Sys) (r : Res unit) :
  retry_after_wait c ctx resp s = (r, s1) ->
  (r = Ok tt /\ s1 = s) \/
  (exists d o, log s1 = log s ++ [EvAfter d o] /\
               r = match o with Some e => Err e | None => Ok tt end).
Proof.
  unfold retry_after_wait.
  destruct (StatusCode resp =? StatusTooManyRequests);
    [| unfold ret; intros H; inversion H; auto].
  destruct (negb (Header_Get resp "Retry-After" =? "")%string);
    [| unfold ret; intros H; inversion H; auto].
  destruct (Atoi (Header_Get resp "Retry-After")) as [secs|];
    [| unfold ret; intros H; inversion H; auto].
  destruct ((0 <? wrap (secs * Second)) && (0 <? backoffFunc c 0));
    [| unfold ret; intros H; inversion H; auto].
  intros H. apply wait_inv in H. destruct H as [o [H1 H2]].
  right. exists (wrap (secs * Second)), o. auto.
Qed.

(** A step that sends no request: either it adds nothing or one wait that
    ran to its end, or it is a wait cut short by the context. *)
Definition quiet_step (r : Res unit) (s s1 : Sys) : Prop :=
  (r = Ok tt /\ (log s1 = log s \/ exists d, log s1 = log s ++ [EvAfter d None])) \/
  (exists d e, r = Err e /\ log s1 = log s ++ [EvAfter d (Some e)]).

Lemma wait_quiet (ctx : Context World) (d : Duration) (s s1 : Sys) (r : Res unit) :
  wait ctx d s = (r, s1) -> quiet_step r s s1.
Proof.
  intros H. apply wait_inv in H. destruct H as [[e|] [H1 H2]]; subst.
  - right. exists d, e. auto.
  - left. split; auto. right. exists d. auto.
Qed.

Lemma retry_after_wait_quiet (c : Client) (ctx : Context World) (resp : Response)
    (s s1 : Sys) (r : Res unit) :
  retry_after_wait c ctx resp s = (r, s1) -> quiet_step r s s1.
Proof.
  intros H. apply retry_after_wait_inv in H.
  destruct H as [[-> ->] | [d [[e|] [H1 ->]]]].
  - left. auto.
  - right. exists d, e. auto.
  - left. split; auto. right. exists d. auto.
Qed.

Definition exit_result (lastErr : option error) : Res (option Response) :=
  match lastErr with
  | Some e => Err e
  | None => Ok None
  end.

(** What a run of the loop from [attempt] adds to the log. *)
Definition loop_post (attempt : Z) (lastErr : option error)
    (evs : list Event) (out : Res (option Response)) : Prop :=
  (evs = [] /\ attempt = 4 /\ out = exit_result lastErr) \/
  (exists body final,
      evs = body ++ [final] /\ Forall continues body /\
      (requests evs <= Z.to_nat (4 - attempt))%nat /\
      final_ok (Z.to_nat (4 - attempt)) evs final out).

Lemma doWithRetry_loop_spec (c : Client) (ctx : Context World)
    (do : World -> (Response + error) * World) :
  forall (budget : nat) (attempt : Z) (lastErr : option error) (s s' : Sys)
         (out : Res (option Response)),
    0 <= attempt <= 4 ->
    (Z.to_nat (4 - attempt) < budget)%nat ->
    doWithRetry_loop c ctx do budget attempt lastErr s = (out, s') ->
    exists evs, log s' = log s ++ evs /\ loop_post attempt lastErr evs out.
Proof.
  induction budget as [|budget IH]; intros attempt lastErr s s' out Hat Hb Hrun.
  { lia. }
  simpl in Hrun. unfold maxRetries in Hrun.
  destruct (attempt <=? 3) eqn:Hle.
  2:{ apply Z.leb_gt in Hle. assert (attempt = 4) by lia. subst attempt.
      exists []. rewrite app_nil_r. split.
      - destruct lastErr; unfold raise, ret in Hrun; inversion Hrun; auto.
      - left. repeat split.
        destruct lastErr; unfold raise, ret in Hrun; inversion Hrun; auto. }
  apply Z.leb_le in Hle.
  unfold bind at 1 in Hrun.
  (* the backoff wait *)
  assert (Hpre: exists r0 s0,
             (if 0 <? attempt then wait ctx (backoffFunc c (wrap (attempt - 1)))
              else ret tt) s = (r0, s0) /\ quiet_step r0 s s0).
  { destruct (0 <? attempt).
    - destruct (wait ctx (backoffFunc c (wrap (attempt - 1))) s) as [r0 s0] eqn:E.
      exists r0, s0. split; auto. eapply wait_quiet; eauto.
    - exists (Ok tt), s. split; auto. left. auto. }
  destruct Hpre as [r0 [s0 [E0 Q0]]]. rewrite E0 in Hrun.
  destruct Q0 as [[-> Hlog0] | [d [e [-> Hlog0]]]].
  2:{ inversion Hrun; subst. exists [EvAfter d (Some e)]. split; auto.
      right. exists [], (EvAfter d (Some e)).
      repeat split; auto.
      change (requests [EvAfter d (Some e)]) with 0%nat. lia. }
  assert (Hpre: exists pre, log s0 = log s ++ pre /\ Forall continues pre /\
                            requests pre = 0%nat /\ last_response pre = None).
  { destruct Hlog0 as [-> | [d ->]].
    - exists []. rewrite app_nil_r. auto.
    - exists [EvAfter d None]. repeat split; auto.
      constructor; simpl; auto. }
  clear Hlog0. destruct Hpre as [pre [Hlog0 [Cpre [Rpre Lpre]]]].
  (* the request *)
  unfold bind at 1 in Hrun.
  destruct (call_do do s0) as [r1 s1] eqn:E1.
  apply call_do_inv in E1. destruct E1 as [x [-> Hlog1]].
  assert (Hreq1: requests (pre ++ [EvDo x]) = 1%nat).
  { rewrite requests_app, Rpre. reflexivity. }
  destruct x as [resp | err].
  2:{ unfold raise in Hrun. inversion Hrun; subst.
      exists (pre ++ [EvDo (inr err)]). split.
      - rewrite Hlog1, Hlog0, <- app_assoc. reflexivity.
      - right. exists pre, (EvDo (inr err)). repeat split; auto.
        rewrite Hreq1. lia. }
  destruct (StatusCode resp =? StatusOK) eqn:H200.
  { unfold ret in Hrun. inversion Hrun; subst.
    exists (pre ++ [EvDo (inl resp)]). split.
    - rewrite Hlog1, Hlog0, <- app_assoc. reflexivity.
    - right. exists pre, (EvDo (inl resp)). repeat split; auto.
      + rewrite Hreq1. lia.
      + simpl. rewrite H200. reflexivity. }
  destruct (isRetryable (StatusCode resp)) eqn:Hretry; simpl in Hrun.
  2:{ unfold raise in Hrun. inversion Hrun; subst.
      exists (pre ++ [EvDo (inl resp)]). split.
      - rewrite Hlog1, Hlog0, <- app_assoc. reflexivity.
      - right. exists pre, (EvDo (inl resp)). repeat split; auto.
        + rewrite Hreq1. lia.
        + simpl. rewrite H200, Hretry. split; auto. discriminate. }
  assert (Cresp: continues (EvDo (inl resp))).
  { simpl. split; auto. apply Z.eqb_neq. exact H200. }
  (* the Retry-After wait *)
  unfold bind at 1 in Hrun.
  destruct (retry_after_wait c ctx resp s1) as [r2 s2] eqn:E2.
  apply retry_after_wait_quiet in E2.
  destruct E2 as [[-> Hlog2] | [d [e [-> Hlog2]]]].
  2:{ inversion Hrun; subst.
      exists ((pre ++ [EvDo (inl resp)]) ++ [EvAfter d (Some e)]). split.
      - rewrite Hlog2, Hlog1, Hlog0, <- !app_assoc. reflexivity.
      - right. exists (pre ++ [EvDo (inl resp)]), (EvAfter d (Some e)).
        repeat split; auto.
        + apply Forall_app. split; auto.
        + rewrite requests_app, Hreq1.
          change (requests [EvAfter d (Some e)]) with 0%nat. lia. }
  assert (Hra: exists ra, log s2 = log s1 ++ ra /\ Forall continues ra /\
                          requests ra = 0%nat /\
                          (ra = [] \/ exists d, ra = [EvAfter d None])).
  { destruct Hlog2 as [-> | [d ->]].
    - exists []. rewrite app_nil_r. auto.
    - exists [EvAfter d None]. repeat split; auto.
      + constructor; simpl; auto.
      + right. exists d. reflexivity. }
  clear Hlog2. destruct Hra as [ra [Hlog2 [Cra [Rra Sra]]]].
  (* the next iteration *)
  assert (Hw: wrap (attempt + 1) = attempt + 1).
  { apply wrap_id. unfold is_int, min_int, max_int. lia. }
  rewrite Hw in Hrun.
  apply IH in Hrun; [| lia | lia].
  destruct Hrun as [evs [Hlog3 Hpost]].
  set (mid := (pre ++ [EvDo (inl resp)]) ++ ra).
  assert (Hmid: log s2 = log s ++ mid).
  { unfold mid. rewrite Hlog2, Hlog1, Hlog0, <- !app_assoc. reflexivity. }
  assert (Cmid: Forall continues mid).
  { unfold mid. repeat (apply Forall_app; split); auto. }
  assert (Rmid: requests mid = 1%nat).
  { unfold mid. rewrite requests_app, Hreq1, Rra. reflexivity. }
  exists (mid ++ evs). split.
  { rewrite Hlog3, Hmid, <- app_assoc. reflexivity. }
  right. destruct Hpost as [[-> [Hat4 ->]] | [body [final [-> [Cb [Rb Fb]]]]]].
  - (* the budget is used up *)
    rewrite app_nil_r. assert (attempt = 3) by lia. subst attempt.
    change (Z.to_nat (4 - 3)) with 1%nat.
    destruct Sra as [-> | [d ->]].
    + exists pre, (EvDo (inl resp)). unfold mid. rewrite app_nil_r.
      repeat split; auto.
      * rewrite Hreq1. lia.
      * simpl. rewrite H200. split; auto.
    + exists (pre ++ [EvDo (inl resp)]), (EvAfter d None). unfold mid.
      repeat split; auto.
      * apply Forall_app; split; auto.
      * fold mid. rewrite Rmid. lia.
      * exists resp. split; auto.
        rewrite !last_response_app. simpl. reflexivity.
  - exists (mid ++ body), final. rewrite app_assoc.
    assert (Hn: Z.to_nat (4 - attempt) = S (Z.to_nat (4 - (attempt + 1)))) by lia.
    repeat split; auto.
    + apply Forall_app; split; auto.
    + rewrite <- app_assoc, requests_app, Rmid. lia.
    + rewrite <- app_assoc.
      destruct final as [[r|e] | d [e|]]; simpl in *; auto.
      * destruct (StatusCode r =? StatusOK); auto.
        destruct Fb as [-> Fb]. split; auto.
        intros Hr. rewrite requests_app, Rmid, (Fb Hr), Hn. reflexivity.
      * destruct Fb as [Fb [r [Lr ->]]]. split.
        -- rewrite requests_app, Rmid, Fb, Hn. reflexivity.
        -- exists r. split; auto. rewrite last_response_app, Lr. reflexivity.
Qed.

Lemma snoc_split (A : Type) (b body rest : list A) (x final : A) :
  b ++ x :: rest = body ++ [final] ->
  (rest = [] /\ b = body /\ x = final) \/ In x body.
Proof.
  destruct (exists_last (l := x :: rest)) as [l' [y Hl]]; [discriminate |].
  rewrite Hl, app_assoc. intros H.
  apply app_inj_tail in H. destruct H as [Hb Hy]. subst y.
  destruct rest as [|z rest].
  - left. change ([] ++ [x] = l' ++ [final]) in Hl.
    apply app_inj_tail in Hl. destruct Hl as [<- ->].
    rewrite app_nil_r in Hb. auto.
  - right. subst body. apply in_or_app. right.
    destruct l' as [|a l']; simpl in Hl; inversion Hl; subst.
    left. reflexivity.
Qed.

Lemma doWithRetry_loop_unfold (c : Client) (ctx : Context World)
    (do : World -> (Response + error) * World) (budget : nat) (attempt : Z)
    (lastErr : option error) :
  doWithRetry_loop c ctx do (S budget) attempt lastErr =
  if attempt <=? maxRetries then
    (if 0 <? attempt then wait ctx (backoffFunc c (wrap (attempt - 1)))
     else ret tt) ;;
    r <- call_do do ;;
    match r with
    | inr err => raise err
    | inl resp =>
        if StatusCode resp =? StatusOK then ret (Some resp)
        else
          if negb (isRetryable (StatusCode resp)) then raise (status_error resp)
          else
            retry_after_wait c ctx resp ;;
            doWithRetry_loop c ctx do budget (wrap (attempt + 1))
              (Some (status_error resp))
    end
  else exit_result_m lastErr.
Proof. reflexivity. Qed.

(** The first thing a call does is send a request. *)
Lemma doWithRetry_first (c : Client) (ctx : Context World)
    (do : World -> (Response + error) * World) (s s' : Sys)
    (out : Res (option Response)) (evs : list Event) :
  doWithRetry c ctx do s = (out, s') ->
  log s' = log s ++ evs ->
  exists rest, evs = EvDo (fst (do (world s))) :: rest.
Proof.
  unfold doWithRetry. rewrite doWithRetry_loop_unfold.
  change (0 <=? maxRetries) with true. change (0 <? 0) with false. cbv iota.
  unfold bind at 1. unfold ret at 1. unfold bind at 1.
  destruct (call_do do s) as [r1 s1] eqn:E1.
  unfold call_do, bind, get, emit, modify, ret in E1.
  destruct (do (world s)) as [x w] eqn:Edo. simpl in E1.
  inversion E1; subst r1 s1; clear E1. simpl fst.
  intros Hrun Hlog.
  assert (Hgrow: exists rest, log s' = (log s ++ [EvDo x]) ++ rest).
  { destruct x as [resp | err].
    2:{ unfold raise in Hrun. inversion Hrun; subst. exists [].
        rewrite app_nil_r. reflexivity. }
    destruct (StatusCode resp =? StatusOK).
    { unfold ret in Hrun. inversion Hrun; subst. exists [].
      rewrite app_nil_r. reflexivity. }
    destruct (negb (isRetryable (StatusCode resp))).
    { unfold raise in Hrun. inversion Hrun; subst. exists [].
      rewrite app_nil_r. reflexivity. }
    unfold bind at 1 in Hrun.
    destruct (retry_after_wait c ctx resp _) as [r2 s2] eqn:E2.
    apply retry_after_wait_inv in E2.
    assert (H2: exists ra, log s2 = (log s ++ [EvDo (inl resp)]) ++ ra).
    { destruct E2 as [[_ ->] | [d [o [-> _]]]].
      - exists []. rewrite app_nil_r. reflexivity.
      - exists [EvAfter d o]. reflexivity. }
    destruct H2 as [ra H2].
    assert (H3: exists evs3, log s' = log s2 ++ evs3).
    { destruct r2 as [[]|e|msg|].
      - apply doWithRetry_loop_spec in Hrun.
        + destruct Hrun as [evs3 [H _]]. exists evs3. exact H.
        + rewrite wrap_id; unfold is_int, min_int, max_int; lia.
        + rewrite wrap_id; unfold is_int, min_int, max_int; simpl; lia.
      - inversion Hrun; subst. exists []. rewrite app_nil_r. reflexivity.
      - inversion Hrun; subst. exists []. rewrite app_nil_r. reflexivity.
      - inversion Hrun; subst. exists []. rewrite app_nil_r. reflexivity. }
    destruct H3 as [evs3 H3]. exists (ra ++ evs3).
    rewrite H3, H2, <- !app_assoc. reflexivity. }
  destruct Hgrow as [rest Hgrow]. exists rest.
  rewrite Hlog, <- app_assoc in Hgrow. apply app_inv_head in Hgrow.
  exact Hgrow.
Qed.

Lemma isRetryable_4xx (code : Z) :
  400 <= code < 500 -> code <> StatusTooManyRequests ->
  code <> StatusOK /\ isRetryable code = false.
Proof.
  unfold isRetryable, StatusTooManyRequests, StatusOK. intros H1 H2. split.
  - lia.
  - apply orb_false_iff. split.
    + apply Z.eqb_neq. exact H2.
    + rewrite Z.geb_leb. apply Z.leb_gt. lia.
Qed.


End Client.

(** ** A scripted server, for running the model

    The world is the list of replies the server still has to give; every
    timer fires before the context is done. *)

Definition Script : Type := list (Response + error).

Definition script_Do (_ : ChatRequest) (w : Script) : (Response + error) * Script :=
  match w with
  | r :: rest => (r, rest)
  | [] => (inr (errorString "EOF"), [])
  end.

Definition patient : Context Script :=
  {| ctx_Err := fun w => (None, w); ctx_After := fun _ w => (None, w) |}.

(** A context that is done whenever it is consulted. *)
Definition cancelled : Context Script :=
  {| ctx_Err := fun w => (Some Canceled, w);
     ctx_After := fun _ w => (Some Canceled, w) |}.

Definition scripted_client (backoff : Z -> Duration) : Client Script :=
  {| httpClient_Do := script_Do;
     apiKey := "sk-test";
     baseURL := "http://127.0.0.1";
     backoffFunc := backoff |}.

Definition reply (code : Z) (retryAfter body : string) : Response :=
  {| StatusCode := code;
     Header_Get := fun k => if String.eqb k "Retry-After" then retryAfter else "";
     Body := body |}.

Definition start (w : Script) : Sys Script := {| world := w; log := [] |}.

Definition send (ctx : Context Script) (backoff : Z -> Duration) (w : Script)
  : Res (option Response) * Sys Script :=
  doWithRetry (scripted_client backoff) ctx
    (script_Do {| Model := "m"; Messages := [] |}) (start w).

(** Scenario 4 of the specification: 429 twice with a one-second hint, then
    200: three requests, the 200 is returned. *)
Example send_429_429_200 :
  let r := send patient defaultBackoff
             [inl (reply 429 "1" "slow down"); inl (reply 429 "1" "slow down");
              inl (reply 200 "" "{}")] in
  requests (log (snd r)) = 3%nat /\
  option_map StatusCode (match fst r with Ok o => o | _ => None end) = Some 200 /\
  List.map (fun ev => match ev with EvAfter d _ => d | EvDo _ => -1 end)
           (log (snd r))
  = [-1; 1000000000; 1000000000; -1; 1000000000; 2000000000; -1].
Proof. vm_compute. repeat split. Qed.

(** Scenario 5: a single 400 fails at once. *)
Example send_400 :
  let r := send patient defaultBackoff [inl (reply 400 "" "bad request")] in
  List.length (log (snd r)) = 1%nat /\
  match fst r with Err e => Error e | _ => "" end
  = "unexpected status 400: bad request".
Proof. vm_compute. split; reflexivity. Qed.

(** A context done during the first backoff wait: the cancellation is what
    the call returns. *)
Example send_503_cancelled :
  fst (send cancelled defaultBackoff [inl (reply 503 "" "busy")]) = Err Canceled.
Proof. vm_compute. reflexivity. Qed.


End openrouter.

(* ===================================================================== *)
(** * internal/debate *)
(* ===================================================================== *)

Module debate.

Import openrouter.

(** ** types.go *)

Inductive Phase : Type := FreeDebate | TenthManPhase.

Record Agent : Type := {
  ID : Z;
  Name : string;
  Model : string;
  Role : string
}.

Record Turn : Type := {
  Round : Z;
  Agent_ : Agent;
  Content : string
}.

Record Transcript : Type := {
  Topic : string;
  Turns : list Turn;
  Phase_ : Phase;
  Rounds : Z
}.

Record ConsensusResult : Type := {
  Detected : bool;
  Position : string;
  Score : Z;
  Dissenters : list string
}.

Record Result : Type := {
  Transcript_ : Transcript;
  Consensus : option ConsensusResult
}.

(** The zero value [ConsensusResult{}]. *)
Definition zero_ConsensusResult : ConsensusResult :=
  {| Detected := false; Position := ""; Score := 0; Dissenters := [] |}.

(** The three interfaces.  A method is an oracle on the world; it may
    return, fail, or panic. *)
Record LLMClient (World : Type) : Type := {
  ChatCompletion :
    Context World -> string -> list Message -> World -> Res ChatResponse * World
}.

Record ConsensusJudge (World : Type) : Type := {
  Evaluate : Context World -> Transcript -> World -> Res ConsensusResult * World
}.

Record TenthManActivator : Type := {
  BuildAgent : string -> Z -> string -> Agent;
  SystemPrompt : string -> string
}.

(** ** prompts.go *)

Definition agentSystemPrompt (agent : Agent) (topic : string) : string :=
  ("You are " ++ Name agent ++ ", a debate participant. The topic is: " ++ topic
   ++ ". Provide your analysis and perspective. Be concise but thorough.")%string.

Definition phase2SystemPrompt (agent : Agent) (topic : string) : string :=
  ("You are " ++ Name agent ++ ", a debate participant. The topic is: " ++ topic
   ++ ". The Tenth Man has been activated and is arguing against the group consensus. You MUST directly engage with the Tenth Man's arguments — address them specifically, refute or acknowledge them. Be concise but thorough.")%string.

Definition is_TenthManPhase (p : Phase) : bool :=
  match p with
  | TenthManPhase => true
  | FreeDebate => false
  end.

Definition buildMessages (agent : Agent) (topic : string)
    (transcript : Transcript) (tenthMan : option TenthManActivator)
    (consensusPosition : string) : list Message :=
  let systemPrompt :=
    match String.eqb (Role agent) "tenth-man", tenthMan with
    | true, Some tm => SystemPrompt tm consensusPosition
    | _, _ =>
        if is_TenthManPhase (Phase_ transcript)
           && negb (String.eqb (Role agent) "tenth-man")
        then phase2SystemPrompt agent topic
        else agentSystemPrompt agent topic
    end in
  [ {| openrouter.Role := "system"; openrouter.Content := systemPrompt |} ]
  ++ List.map
       (fun turn =>
          {| openrouter.Role := "user";
             openrouter.Content := (Name (Agent_ turn) ++ ": " ++ Content turn)%string |})
       (Turns transcript)
  ++ [ {| openrouter.Role := "user";
          openrouter.Content :=
            "It's your turn to speak. Provide your perspective on the topic." |} ].

(** ** engine.go *)

Definition tenthManRounds : Z := 3.

Section Engine.

Variable World : Type.

Record Engine : Type := {
  topic : string;
  agents : list Agent;
  llm : LLMClient World;
  judge : ConsensusJudge World;
  tenthMan : option TenthManActivator;
  transcript : Transcript;
  minRounds : Z;
  maxRounds : Z;
  tenthManModel : string;
  consensusPosition : string;
  OnTurn : option (Turn -> World -> World);
  OnPhase : option (Phase -> World -> World)
}.

Definition NewEngine (topic : string) (agents : list Agent)
    (llm : LLMClient World) (judge : ConsensusJudge World)
    (tenthMan : option TenthManActivator) (minRounds maxRounds : Z) : Engine :=
  {| topic := topic;
     agents := agents;
     llm := llm;
     judge := judge;
     tenthMan := tenthMan;
     transcript := {| Topic := topic; Turns := []; Phase_ := FreeDebate; Rounds := 0 |};
     minRounds := minRounds;
     maxRounds := maxRounds;
     tenthManModel := "";
     consensusPosition := "";
     OnTurn := None;
     OnPhase := None |}.

(** Field updates of the receiver. *)
Definition with_agents (v : list Agent) (e : Engine) : Engine :=
  {| topic := topic e; agents := v; llm := llm e; judge := judge e;
     tenthMan := tenthMan e; transcript := transcript e;
     minRounds := minRounds e; maxRounds := maxRounds e;
     tenthManModel := tenthManModel e; consensusPosition := consensusPosition e;
     OnTurn := OnTurn e; OnPhase := OnPhase e |}.

Definition with_transcript (v : Transcript) (e : Engine) : Engine :=
  {| topic := topic e; agents := agents e; llm := llm e; judge := judge e;
     tenthMan := tenthMan e; transcript := v;
     minRounds := minRounds e; maxRounds := maxRounds e;
     tenthManModel := tenthManModel e; consensusPosition := consensusPosition e;
     OnTurn := OnTurn e; OnPhase := OnPhase e |}.

Definition with_tenthManModel (v : string) (e : Engine) : Engine :=
  {| topic := topic e; agents := agents e; llm := llm e; judge := judge e;
     tenthMan := tenthMan e; transcript := transcript e;
     minRounds := minRounds e; maxRounds := maxRounds e;
     tenthManModel := v; consensusPosition := consensusPosition e;
     OnTurn := OnTurn e; OnPhase := OnPhase e |}.

Definition with_consensusPosition (v : string) (e : Engine) : Engine :=
  {| topic := topic e; agents := agents e; llm := llm e; judge := judge e;
     tenthMan := tenthMan e; transcript := transcript e;
     minRounds := minRounds e; maxRounds := maxRounds e;
     tenthManModel := tenthManModel e; consensusPosition := v;
     OnTurn := OnTurn e; OnPhase := OnPhase e |}.

Definition with_callbacks (onTurn : option (Turn -> World -> World))
    (onPhase : option (Phase -> World -> World)) (e : Engine) : Engine :=
  {| topic := topic e; agents := agents e; llm := llm e; judge := judge e;
     tenthMan := tenthMan e; transcript := transcript e;
     minRounds := minRounds e; maxRounds := maxRounds e;
     tenthManModel := tenthManModel e; consensusPosition := consensusPosition e;
     OnTurn := onTurn; OnPhase := onPhase |}.

Definition SetTenthManModel (model : string) (e : Engine) : Engine :=
  with_tenthManModel model e.

(** Updates of [*e.transcript]. *)
Definition append_turn (turn : Turn) (t : Transcript) : Transcript :=
  {| Topic := Topic t; Turns := Turns t ++ [turn]; Phase_ := Phase_ t;
     Rounds := Rounds t |}.

Definition set_Rounds (round : Z) (t : Transcript) : Transcript :=
  {| Topic := Topic t; Turns := Turns t; Phase_ := Phase_ t; Rounds := round |}.

Definition set_Phase (p : Phase) (t : Transcript) : Transcript :=
  {| Topic := Topic t; Turns := Turns t; Phase_ := p; Rounds := Rounds t |}.

(** One entry per oracle call, with what it was given and what it
    answered; [EvBuildAgent] marks the construction of the contrarian and
    [EvTurn] the append of a turn to the transcript. *)
Inductive Event : Type :=
| EvErr (r : option error)
| EvChat (model : string) (msgs : list Message) (r : Res ChatResponse)
| EvEvaluate (t : Transcript) (r : Res ConsensusResult)
| EvBuildAgent (a : Agent)
| EvTurn (turn : Turn).

(** The state a run threads: the receiver, the world, the log. *)
Record St : Type := { self : Engine; world : World; log : list Event }.

Definition get_self : M St Engine := fun s => (Ok (self s), s).

Definition update_self (f : Engine -> Engine) : M St unit :=
  modify (fun s => {| self := f (self s); world := world s; log := log s |}).

Definition update_world (f : World -> World) : M St unit :=
  modify (fun s => {| self := self s; world := f (world s); log := log s |}).

Definition emit (ev : Event) (w : World) : M St unit :=
  modify (fun s => {| self := self s; world := w; log := log s ++ [ev] |}).

Definition note (ev : Event) : M St unit :=
  modify (fun s => {| self := self s; world := world s; log := log s ++ [ev] |}).

(** Lift the outcome of an oracle into the monad. *)
Definition lift (A : Type) (r : Res A) : M St A := fun s => (r, s).

Definition ctx_err (ctx : Context World) : M St (option error) :=
  s <- get ;;
  let (r, w) := ctx_Err ctx (world s) in
  emit (EvErr r) w ;;
  ret r.

Definition chat (ctx : Context World) (model : string) (msgs : list Message)
  : M St ChatResponse :=
  s <- get ;;
  let (r, w) := ChatCompletion (llm (self s)) ctx model msgs (world s) in
  emit (EvChat model msgs r) w ;;
  lift r.

Definition evaluate (ctx : Context World) : M St ConsensusResult :=
  s <- get ;;
  let t := transcript (self s) in
  let (r, w) := Evaluate (judge (self s)) ctx t (world s) in
  emit (EvEvaluate t r) w ;;
  lift r.

(** [if e.OnTurn != nil { e.OnTurn(turn) }] and its sibling. *)
Definition on_turn (turn : Turn) : M St unit :=
  e <- get_self ;;
  match OnTurn e with
  | Some f => update_world (f turn)
  | None => ret tt
  end.

Definition on_phase (p : Phase) : M St unit :=
  e <- get_self ;;
  match OnPhase e with
  | Some f => update_world (f p)
  | None => ret tt
  end.

(** Re-raise an error under a prefix: [fmt.Errorf(prefix + "%w", err)]. *)
Definition wrapping (A : Type) (prefix : string) (m : M St A) : M St A :=
  fun s =>
    match m s with
    | (Err err, s') => (Err (Errorf_w prefix err), s')
    | other => other
    end.

(** [content := ""; if len(resp.Choices) > 0 { content =
    resp.Choices[0].Message.Content }], and the turn built from it. *)
Definition first_content (resp : ChatResponse) : string :=
  match Choices resp with
  | c :: _ => openrouter.Content (Message_ c)
  | [] => ""
  end.

Definition turn_of (round : Z) (agent : Agent) (resp : ChatResponse) : Turn :=
  {| Round := round; Agent_ := agent; Content := first_content resp |}.

(** The body of the [range e.agents] loop of [runRound], for one agent. *)
Definition runTurn (ctx : Context World) (round : Z) (agent : Agent) : M St unit :=
  r <- ctx_err ctx ;;
  match r with
  | Some err => raise (Errorf_w "debate: " err)
  | None =>
      e <- get_self ;;
      let msgs :=
        buildMessages agent (topic e) (transcript e) (tenthMan e)
          (consensusPosition e) in
      resp <- wrapping ("debate: agent " ++ Name agent ++ ": ")
                (chat ctx (Model agent) msgs) ;;
      let turn := turn_of round agent resp in
      update_self (fun e => with_transcript (append_turn turn (transcript e)) e) ;;
      note (EvTurn turn) ;;
      on_turn turn
  end.

Fixpoint runRound_agents (ctx : Context World) (round : Z) (ags : list Agent)
  : M St unit :=
  match ags with
  | [] => ret tt
  | agent :: rest => runTurn ctx round agent ;; runRound_agents ctx round rest
  end.

Definition runRound (ctx : Context World) (round : Z) : M St unit :=
  e <- get_self ;;
  runRound_agents ctx round (agents e) ;;
  update_self (fun e => with_transcript (set_Rounds round (transcript e)) e).

Definition triggers (c : ConsensusResult) : bool :=
  Detected c && (Score c >=? 7).

(** Phase 1: [for round := 1; round <= e.maxRounds; round++ { ... }], the
    value of [consensus] when the loop is left. *)
Fixpoint freeDebate (ctx : Context World) (fuel : nat) (round : Z)
    (consensus : option ConsensusResult) : M St (option ConsensusResult) :=
  match fuel with
  | O => diverge
  | S fuel' =>
      e <- get_self ;;
      if round <=? maxRounds e then
        runRound ctx round ;;
        e <- get_self ;;
        if round >=? minRounds e then
          c <- wrapping "debate: consensus evaluation: " (evaluate ctx) ;;
          if triggers c then ret (Some c)
          else freeDebate ctx fuel' (wrap (round + 1)) (Some c)
        else freeDebate ctx fuel' (wrap (round + 1)) consensus
      else ret consensus
  end.

(** [for round := startRound; round < startRound+tenthManRounds; round++]. *)
Fixpoint tenthManLoop (ctx : Context World) (budget : nat) (startRound round : Z)
  : M St unit :=
  match budget with
  | O => diverge
  | S budget' =>
      if round <? wrap (startRound + tenthManRounds) then
        runRound ctx round ;;
        tenthManLoop ctx budget' startRound (wrap (round + 1))
      else ret tt
  end.

(** The body of [if consensus != nil && consensus.Detected &&
    consensus.Score >= 7 { ... }]; it yields the new value of
    [consensus]. *)
Definition tenthManPhase (ctx : Context World) (consensus : ConsensusResult)
  : M St ConsensusResult :=
  update_self (fun e => with_transcript (set_Phase TenthManPhase (transcript e)) e) ;;
  on_phase TenthManPhase ;;
  e <- get_self ;;
  model <- (if String.eqb (tenthManModel e) "" then
              match agents e with
              | a :: _ => ret (Model a)
              | [] => panic "index out of range [0] with length 0"
              end
            else ret (tenthManModel e)) ;;
  tmAgent <- match tenthMan e with
             | Some tm =>
                 let a := BuildAgent tm (Position consensus)
                            (wrap (Z.of_nat (List.length (agents e)) + 1)) model in
                 note (EvBuildAgent a) ;;
                 ret a
             | None => panic "invalid memory address or nil pointer dereference"
             end ;;
  update_self (fun e => with_agents (agents e ++ [tmAgent]) e) ;;
  update_self (with_consensusPosition (Position consensus)) ;;
  e <- get_self ;;
  let startRound := wrap (Rounds (transcript e) + 1) in
  tenthManLoop ctx 4 startRound startRound ;;
  wrapping "debate: final consensus evaluation: " (evaluate ctx).

Definition Run (ctx : Context World) (fuel : nat) : M St Result :=
  on_phase FreeDebate ;;
  consensus <- freeDebate ctx fuel 1 None ;;
  consensus <- match consensus with
               | Some c =>
                   if triggers c then
                     c' <- tenthManPhase ctx c ;; ret (Some c')
                   else ret (Some c)
               | None => ret None
               end ;;
  e <- get_self ;;
  ret {| Transcript_ := transcript e; Consensus := consensus |}.

End Engine.

End debate.

(* ===================================================================== *)
(** * internal/debate/tenthman *)
(* ===================================================================== *)

Module tenthman.

Import debate.

Definition Activator_BuildAgent (consensusPosition : string) (agentID : Z)
    (model : string) : Agent :=
  {| ID := agentID; Name := "The Tenth Man"; Model := model; Role := "tenth-man" |}.

Definition Activator_SystemPrompt (consensusPosition : string) : string :=
  ("You are The Tenth Man. The group has reached consensus on the following position: "
   ++ consensusPosition ++ ". "
   ++ "You are OBLIGATED to argue the contrary position — not as token opposition, but with genuine analytical rigor. "
   ++ "Build the strongest possible case AGAINST the consensus. "
   ++ "Investigate, find evidence, construct scenarios where the majority is wrong. "
   ++ "Be thorough but concise.")%string.

(** [*Activator] as a [debate.TenthManActivator]. *)
Definition NewActivator : TenthManActivator :=
  {| BuildAgent := Activator_BuildAgent; SystemPrompt := Activator_SystemPrompt |}.

End tenthman.

(* ===================================================================== *)
(** * The [strings] and [regexp] calls of the judge *)
(* ===================================================================== *)

Module strings.

Fixpoint drop (n : nat) (s : string) : string :=
  match n, s with
  | O, _ => s
  | S n', String _ rest => drop n' rest
  | S _, EmptyString => EmptyString
  end.

Fixpoint take (n : nat) (s : string) : string :=
  match n, s with
  | O, _ => EmptyString
  | S n', String c rest => String c (take n' rest)
  | S _, EmptyString => EmptyString
  end.

(** [s[lo:hi]] for [0 <= lo <= hi <= len(s)]. *)
Definition slice (s : string) (lo hi : Z) : string :=
  take (Z.to_nat (hi - lo)) (drop (Z.to_nat lo) s).

Definition head (s : string) : option ascii :=
  match s with
  | EmptyString => None
  | String c _ => Some c
  end.

Fixpoint last (s : string) : option ascii :=
  match s with
  | EmptyString => None
  | String c EmptyString => Some c
  | String _ rest => last rest
  end.

(** strings.Index: the index of the first instance of [sub], or -1. *)
Fixpoint Index (sub s : string) : Z :=
  if prefix sub s then 0
  else
    match s with
    | EmptyString => -1
    | String _ rest =>
        let i := Index sub rest in
        if i <? 0 then -1 else i + 1
    end.

(** strings.LastIndex: the index of the last instance of [sub], or -1. *)
Fixpoint LastIndex (sub s : string) : Z :=
  match s with
  | EmptyString => if prefix sub s then 0 else -1
  | String _ rest =>
      let i := LastIndex sub rest in
      if 0 <=? i then i + 1
      else if prefix sub s then 0 else -1
  end.

Definition byte_in (c : ascii) (codes : list nat) : bool :=
  List.existsb (Nat.eqb (nat_of_ascii c)) codes.

(** The table [asciiSpace] of package strings: tab, newline, vertical tab,
    form feed, carriage return, space. *)
Definition asciiSpace (c : ascii) : bool := byte_in c [9; 10; 11; 12; 13; 32]%nat.

(** A byte that [TrimSpace] may remove: an ASCII space, or a byte of a
    multi-byte rune (every Unicode space outside ASCII is encoded with
    bytes of 128 and above). *)
Definition spaceish (c : ascii) : bool :=
  asciiSpace c || (128 <=? nat_of_ascii c)%nat.

Fixpoint all_bytes (p : ascii -> bool) (s : string) : bool :=
  match s with
  | EmptyString => true
  | String c rest => p c && all_bytes p rest
  end.

(** The white space of the JSON grammar: space, tab, carriage return,
    newline. *)
Definition jsonSpace (c : ascii) : bool := byte_in c [32; 9; 13; 10]%nat.

Fixpoint trim_left (p : ascii -> bool) (s : string) : string :=
  match s with
  | String c rest => if p c then trim_left p rest else s
  | EmptyString => EmptyString
  end.

Fixpoint trim_right (p : ascii -> bool) (s : string) : string :=
  match s with
  | EmptyString => EmptyString
  | String c rest =>
      match trim_right p rest with
      | EmptyString => if p c then EmptyString else String c EmptyString
      | kept => String c kept
      end
  end.

Definition trim (p : ascii -> bool) (s : string) : string :=
  trim_right p (trim_left p s).

(** A text that opens with a left brace and closes with a right brace. *)
Definition braced (s : string) : bool :=
  match head s, last s with
  | Some a, Some b => Ascii.eqb a "{" && Ascii.eqb b "}"
  | _, _ => false
  end.

(** ** Lemmas on byte strings *)

Lemma append_nil_r (s : string) : (s ++ "")%string = s.
Proof. induction s as [|c s IH]; simpl; [reflexivity | rewrite IH; reflexivity]. Qed.

Lemma append_assoc (a b c : string) :
  ((a ++ b) ++ c)%string = (a ++ (b ++ c))%string.
Proof. induction a as [|x a IH]; simpl; [reflexivity | rewrite IH; reflexivity]. Qed.

Lemma length_append (a b : string) :
  String.length (a ++ b) = (String.length a + String.length b)%nat.
Proof. induction a as [|x a IH]; simpl; [reflexivity | rewrite IH; reflexivity]. Qed.

Lemma drop_append (a b : string) : drop (String.length a) (a ++ b) = b.
Proof. induction a as [|x a IH]; simpl; [reflexivity | exact IH]. Qed.

Lemma take_append (a b : string) : take (String.length a) (a ++ b) = a.
Proof. induction a as [|x a IH]; simpl; [reflexivity | rewrite IH; reflexivity]. Qed.

Lemma take_S_append (a b : string) (x : ascii) :
  take (S (String.length a)) (a ++ String x b) = (a ++ String x EmptyString)%string.
Proof.
  induction a as [|y a IH]; [reflexivity |].
  simpl String.length. simpl append.
  change (take (S (S (String.length a))) (String y (a ++ String x b)))
    with (String y (take (S (String.length a)) (a ++ String x b))).
  rewrite IH. reflexivity.
Qed.

Lemma slice_append (a b c : string) :
  slice (a ++ b ++ c) (Z.of_nat (String.length a))
        (Z.of_nat (String.length a) + Z.of_nat (String.length b)) = b.
Proof.
  unfold slice. rewrite Nat2Z.id, drop_append.
  replace (Z.to_nat (Z.of_nat (String.length a) + Z.of_nat (String.length b)
                     - Z.of_nat (String.length a)))
    with (String.length b) by lia.
  apply take_append.
Qed.

(** Two splits of one text at the same length are the same split. *)
Lemma append_inj_length (a b a' b' : string) :
  (a ++ b)%string = (a' ++ b')%string -> String.length a = String.length a' ->
  a = a' /\ b = b'.
Proof.
  revert a'. induction a as [|x a IH]; intros [|x' a'] H Hl; simpl in *;
    try discriminate.
  - auto.
  - inversion H; subst. inversion Hl as [Hl'].
    destruct (IH a' H2 Hl') as [-> ->]. auto.
Qed.

Lemma append_inj_length_r (a b a' b' : string) :
  (a ++ b)%string = (a' ++ b')%string -> String.length b = String.length b' ->
  a = a' /\ b = b'.
Proof.
  intros H Hl. apply append_inj_length; [exact H |].
  apply (f_equal String.length) in H. rewrite !length_append in H. lia.
Qed.

Lemma head_append (a b : string) :
  head (a ++ b) = match head a with Some c => Some c | None => head b end.
Proof. destruct a; reflexivity. Qed.

Lemma last_cons (x : ascii) (s : string) :
  last (String x s) = match last s with Some c => Some c | None => Some x end.
Proof.
  destruct s as [|y s]; [reflexivity |].
  change (last (String x (String y s))) with (last (String y s)).
  destruct (last (String y s)) eqn:E; [reflexivity |].
  exfalso. revert y E. induction s as [|z s IH]; intros y E.
  - discriminate.
  - apply (IH z). exact E.
Qed.

Lemma last_append (a b : string) :
  last (a ++ b) = match last b with Some c => Some c | None => last a end.
Proof.
  induction a as [|x a IH].
  - simpl. destruct (last b); reflexivity.
  - simpl append. rewrite !last_cons, IH.
    destruct (last b); [reflexivity |]. reflexivity.
Qed.

Lemma last_nonempty (s : string) : s <> EmptyString -> last s <> None.
Proof.
  destruct s as [|c s]; intros H; [contradiction |].
  rewrite last_cons. destruct (last s); discriminate.
Qed.

(** *** Searching for one byte *)

Definition one (c : ascii) : string := String c EmptyString.

Lemma prefix_one (c : ascii) (s : string) :
  prefix (one c) s = match head s with Some d => Ascii.eqb c d | None => false end.
Proof.
  destruct s as [|d s]; simpl; [reflexivity |].
  destruct (ascii_dec c d) as [->|Hne].
  - rewrite Ascii.eqb_refl. destruct s; reflexivity.
  - apply Ascii.eqb_neq in Hne. rewrite Hne. reflexivity.
Qed.

Lemma Index_nil (sub : string) :
  Index sub EmptyString = if prefix sub EmptyString then 0 else -1.
Proof. reflexivity. Qed.

Lemma Index_cons (sub : string) (c : ascii) (s : string) :
  Index sub (String c s) =
  if prefix sub (String c s) then 0
  else if Index sub s <? 0 then -1 else Index sub s + 1.
Proof. reflexivity. Qed.

Lemma LastIndex_nil (sub : string) :
  LastIndex sub EmptyString = if prefix sub EmptyString then 0 else -1.
Proof. reflexivity. Qed.

Lemma LastIndex_cons (sub : string) (c : ascii) (s : string) :
  LastIndex sub (String c s) =
  if 0 <=? LastIndex sub s then LastIndex sub s + 1
  else if prefix sub (String c s) then 0 else -1.
Proof. reflexivity. Qed.

Lemma Index_bounds (sub s : string) : -1 <= Index sub s.
Proof.
  induction s as [|c s IH].
  - rewrite Index_nil. destruct (prefix sub ""); lia.
  - rewrite Index_cons. destruct (prefix sub (String c s)); [lia |].
    destruct (Index sub s <? 0) eqn:E; [lia |]. apply Z.ltb_ge in E. lia.
Qed.

Lemma LastIndex_bounds (sub s : string) : -1 <= LastIndex sub s.
Proof.
  induction s as [|c s IH].
  - rewrite LastIndex_nil. destruct (prefix sub ""); lia.
  - rewrite LastIndex_cons. destruct (0 <=? LastIndex sub s) eqn:E.
    + apply Z.leb_le in E. lia.
    + destruct (prefix sub (String c s)); lia.
Qed.

(** A text made of bytes that [p] accepts holds no byte that [p] rejects. *)
Lemma Index_one_all_bytes (p : ascii -> bool) (c : ascii) (s : string) :
  p c = false -> all_bytes p s = true -> Index (one c) s = -1.
Proof.
  intros Hc. induction s as [|d s IH]; intros H.
  - reflexivity.
  - simpl in H. apply andb_true_iff in H. destruct H as [Hd Hs].
    rewrite Index_cons, prefix_one. unfold head.
    destruct (Ascii.eqb c d) eqn:E.
    + apply Ascii.eqb_eq in E. subst d. congruence.
    + rewrite (IH Hs). reflexivity.
Qed.

Lemma LastIndex_one_all_bytes (p : ascii -> bool) (c : ascii) (s : string) :
  p c = false -> all_bytes p s = true -> LastIndex (one c) s = -1.
Proof.
  intros Hc. induction s as [|d s IH]; intros H.
  - reflexivity.
  - simpl in H. apply andb_true_iff in H. destruct H as [Hd Hs].
    rewrite LastIndex_cons, (IH Hs), prefix_one. simpl.
    destruct (Ascii.eqb c d) eqn:E; [| reflexivity].
    apply Ascii.eqb_eq in E. subst d. congruence.
Qed.

(** The first [c] of [a ++ b] when [a] has none and [b] starts with one. *)
Lemma Index_one_append (c : ascii) (a b : string) :
  Index (one c) a = -1 -> head b = Some c ->
  Index (one c) (a ++ b) = Z.of_nat (String.length a).
Proof.
  intros Ha Hb. induction a as [|d a IH].
  - simpl append. destruct b as [|e b]; [discriminate |].
    simpl in Hb. inversion Hb; subst e.
    rewrite Index_cons, prefix_one. simpl. rewrite Ascii.eqb_refl. reflexivity.
  - rewrite Index_cons, prefix_one in Ha. unfold head in Ha.
    simpl append. rewrite Index_cons, prefix_one. unfold head.
    destruct (Ascii.eqb c d); [discriminate |].
    destruct (Index (one c) a <? 0) eqn:E.
    + apply Z.ltb_lt in E. pose proof (Index_bounds (one c) a).
      assert (Ha': Index (one c) a = -1) by lia.
      rewrite (IH Ha').
      destruct (Z.of_nat (String.length a) <? 0) eqn:E2.
      * apply Z.ltb_lt in E2. lia.
      * simpl String.length. lia.
    + apply Z.ltb_ge in E. lia.
Qed.

(** The last [c] of [a ++ b] when [b] has none and [a] ends with one. *)
Lemma LastIndex_one_append (c : ascii) (a b : string) :
  LastIndex (one c) b = -1 -> last a = Some c ->
  LastIndex (one c) (a ++ b) = Z.of_nat (String.length a) - 1.
Proof.
  intros Hb Ha. induction a as [|d a IH]; [discriminate |].
  simpl append. rewrite LastIndex_cons.
  destruct a as [|e a].
  - simpl in Ha. inversion Ha; subst d. simpl append. rewrite Hb.
    rewrite prefix_one. simpl. rewrite Ascii.eqb_refl. reflexivity.
  - assert (Ha': last (String e a) = Some c) by exact Ha.
    rewrite (IH Ha').
    destruct (0 <=? Z.of_nat (String.length (String e a)) - 1) eqn:E.
    + simpl String.length. lia.
    + apply Z.leb_gt in E. simpl String.length in E. lia.
Qed.

Lemma Index_one_absent_append (c : ascii) (a b : string) :
  Index (one c) a = -1 -> Index (one c) b = -1 -> Index (one c) (a ++ b) = -1.
Proof.
  intros Ha Hb. induction a as [|d a IH]; [exact Hb |].
  rewrite Index_cons, prefix_one in Ha. unfold head in Ha.
  simpl append. rewrite Index_cons, prefix_one. unfold head.
  destruct (Ascii.eqb c d); [discriminate |].
  pose proof (Index_bounds (one c) a).
  destruct (Index (one c) a <? 0) eqn:E.
  - apply Z.ltb_lt in E. rewrite IH by lia. reflexivity.
  - apply Z.ltb_ge in E. lia.
Qed.

Lemma all_bytes_head (p : ascii -> bool) (s : string) (c : ascii) :
  all_bytes p s = true -> head s = Some c -> p c = true.
Proof.
  destruct s as [|d s]; simpl; [discriminate |].
  intros H E. inversion E; subst. apply andb_true_iff in H. tauto.
Qed.

Lemma all_bytes_last (p : ascii -> bool) (s : string) (c : ascii) :
  all_bytes p s = true -> last s = Some c -> p c = true.
Proof.
  induction s as [|d s IH]; [discriminate |].
  simpl all_bytes. rewrite last_cons. intros H E.
  apply andb_true_iff in H. destruct H as [Hd Hs].
  destruct (last s) as [e|] eqn:El.
  - apply IH; [exact Hs | exact E].
  - inversion E; subst. exact Hd.
Qed.

(** *** Trimming *)

Lemma trim_left_head (p : ascii -> bool) (s : string) :
  match head s with Some c => p c = false | None => True end ->
  trim_left p s = s.
Proof. destruct s as [|c s]; simpl; [auto | intros ->; reflexivity]. Qed.

Lemma trim_right_last (p : ascii -> bool) (s : string) :
  match last s with Some c => p c = false | None => True end ->
  trim_right p s = s.
Proof.
  induction s as [|c s IH]; [reflexivity |].
  intros H. simpl trim_right. destruct s as [|d s].
  - simpl in *. rewrite H. reflexivity.
  - rewrite IH; [reflexivity | exact H].
Qed.

Lemma trim_id (p : ascii -> bool) (s : string) :
  match head s with Some c => p c = false | None => True end ->
  match last s with Some c => p c = false | None => True end ->
  trim p s = s.
Proof.
  intros Hh Hl. unfold trim. rewrite trim_left_head by exact Hh.
  apply trim_right_last. exact Hl.
Qed.

Lemma jsonSpace_asciiSpace (c : ascii) : asciiSpace c = false -> jsonSpace c = false.
Proof.
  unfold asciiSpace, jsonSpace, byte_in. simpl.
  destruct (nat_of_ascii c =? 32)%nat, (nat_of_ascii c =? 9)%nat,
           (nat_of_ascii c =? 13)%nat, (nat_of_ascii c =? 10)%nat,
           (nat_of_ascii c =? 11)%nat, (nat_of_ascii c =? 12)%nat;
    simpl; congruence.
Qed.

End strings.

Module regexp.

Import strings.

(** The class [\s] of the regexp syntax: tab, newline, form feed, carriage
    return, space. *)
Definition perl_space (c : ascii) : bool := byte_in c [9; 10; 12; 13; 32]%nat.

Definition fence : string := "```".

Definition newline : string := String (ascii_of_nat 10) EmptyString.

Definition ends_with_newline (s : string) : bool :=
  match last s with
  | Some c => Nat.eqb (nat_of_ascii c) 10
  | None => false
  end.

(** [codeBlockRe.FindStringSubmatch(raw)] for
    [codeBlockRe = (?s)```(?:json)?\s*\n?(.*?)\n?```]: nil when nothing
    matches, else the matched text and the text of group 1.

    The leftmost match starts at the first fence.  After it the optional
    [json] and the greedy [\s*] take all they can (what follows can match
    exactly when a later fence exists, and neither removes one), so the
    first [\n?] is left with nothing; the lazy group stops at the first
    position where [\n?```] matches, which is the first later fence, or the
    newline just before it. *)
Definition codeBlockRe_FindStringSubmatch (raw : string) : list string :=
  let i := Index fence raw in
  if i <? 0 then []
  else
    let after_fence := drop (Z.to_nat i + 3) raw in
    let after_tag :=
      if prefix "json" after_fence then drop 4 after_fence else after_fence in
    let body := trim_left perl_space after_tag in
    let j := Index fence body in
    if j <? 0 then []
    else
      let upto := take (Z.to_nat j) body in
      let group1 :=
        if ends_with_newline upto then take (Nat.pred (Z.to_nat j)) body else upto in
      let matched :=
        take (String.length raw - Z.to_nat i - String.length body + Z.to_nat j + 3)
             (drop (Z.to_nat i) raw) in
      [matched; group1].

(** ** Lemmas on the fence search *)

Definition nl : ascii := ascii_of_nat 10.

Definition not_nl (c : ascii) : bool := negb (Ascii.eqb c nl).

(** A pattern without a newline cannot match across one. *)
Lemma prefix_append_newline (pat a b : string) :
  all_bytes not_nl pat = true -> pat <> EmptyString ->
  prefix pat (a ++ String nl b) = prefix pat a.
Proof.
  revert a. induction pat as [|p pat IH]; intros a Hp Hne; [contradiction |].
  simpl in Hp. apply andb_true_iff in Hp. destruct Hp as [Hp Hpat].
  destruct a as [|x a].
  - simpl. destruct (ascii_dec p nl) as [->|_]; [discriminate | reflexivity].
  - simpl. destruct (ascii_dec p x); [| reflexivity].
    destruct pat as [|q pat].
    + destruct (a ++ String nl b)%string, a; reflexivity.
    + apply IH; [exact Hpat | discriminate].
Qed.

Lemma Index_absent_prefix (sub : string) (c : ascii) (s : string) :
  Index sub (String c s) = -1 ->
  prefix sub (String c s) = false /\ Index sub s = -1.
Proof.
  rewrite Index_cons. destruct (prefix sub (String c s)); [discriminate |].
  intros H. split; [reflexivity |].
  pose proof (Index_bounds sub s).
  destruct (Index sub s <? 0) eqn:E.
  - apply Z.ltb_lt in E. lia.
  - apply Z.ltb_ge in E. lia.
Qed.

(** In [a ++ "\n```"], with no fence in [a], the first fence is the one
    after the newline. *)
Lemma Index_fence_closing (a : string) :
  Index fence a = -1 ->
  Index fence (a ++ String nl fence) = Z.of_nat (String.length a) + 1.
Proof.
  induction a as [|x a IH]; intros Ha.
  - reflexivity.
  - apply Index_absent_prefix in Ha. destruct Ha as [Hp Ha].
    simpl append. rewrite Index_cons.
    change (String x (a ++ String nl fence)) with (String x a ++ String nl fence)%string.
    rewrite prefix_append_newline, Hp; [| reflexivity | discriminate].
    rewrite (IH Ha).
    destruct (Z.of_nat (String.length a) + 1 <? 0) eqn:E.
    + apply Z.ltb_lt in E. lia.
    + simpl String.length. lia.
Qed.

Lemma ends_with_newline_snoc (a : string) :
  ends_with_newline (a ++ String nl EmptyString) = true.
Proof. unfold ends_with_newline. rewrite last_append. reflexivity. Qed.

(** The inner text of a fenced block: what follows the opening fence and
    its optional tag is a newline, then [inner], a newline and the closing
    fence; [inner] starts with a byte that is not white space and holds no
    fence. *)
Lemma fenced_group (inner : string) (c : ascii) :
  head inner = Some c -> perl_space c = false -> Index fence inner = -1 ->
  let body := (inner ++ String nl fence)%string in
  trim_left perl_space (String nl body) = body /\
  Index fence body = Z.of_nat (String.length inner) + 1 /\
  (let j := Index fence body in
   let upto := take (Z.to_nat j) body in
   (if ends_with_newline upto then take (Nat.pred (Z.to_nat j)) body else upto)
   = inner).
Proof.
  intros Hh Hc Hf body. split; [| split].
  - change (trim_left perl_space (String nl body))
      with (trim_left perl_space body).
    apply trim_left_head. unfold body. rewrite head_append, Hh. exact Hc.
  - apply Index_fence_closing. exact Hf.
  - cbv zeta. subst body. rewrite (@Index_fence_closing inner Hf).
    replace (Z.to_nat (Z.of_nat (String.length inner) + 1))
      with (S (String.length inner)) by lia.
    rewrite take_S_append, ends_with_newline_snoc. simpl Nat.pred.
    apply take_append.
Qed.

End regexp.

(* ===================================================================== *)
(** * internal/debate/consensus *)
(* ===================================================================== *)

Module consensus.

Import openrouter debate strings regexp.

Definition maxJudgeRetries : nat := 3.

(** Text with a double quote wherever the argument has an apostrophe; the
    literals below are written with apostrophes. *)
Fixpoint dq (s : string) : string :=
  match s with
  | EmptyString => EmptyString
  | String c rest =>
      String (if Nat.eqb (nat_of_ascii c) 39 then ascii_of_nat 34 else c) (dq rest)
  end.

Definition system_prompt : string :=
  ("You are a consensus judge. Analyze the debate transcript and return ONLY valid JSON in this exact format:"
   ++ newline
   ++ dq "{'consensus_detected': bool, 'consensus_position': '...', 'agreement_score': 1-10, 'dissenting_agents': ['...']}"
   ++ newline
   ++ "Do NOT include any other text, explanation, or markdown formatting. Return ONLY the JSON object.")%string.

Definition retry_prompt : string :=
  "Your previous response was not valid JSON. Return ONLY a JSON object, no markdown, no explanation.".

Section Judge.

Variable World : Type.

(** The two library calls of [parseConsensusJSON].  [Unmarshal s r] is
    [json.Unmarshal([]byte(s), &result)] with [r] the value of [result]
    before the call: it gives the value of [result] after the call and
    whether the error is nil. *)
Variable TrimSpace : string -> string.
Variable Unmarshal : string -> ConsensusResult -> ConsensusResult * bool.

Record Judge : Type := {
  llm : LLMClient World;
  model : string
}.

Definition NewJudge (llm : LLMClient World) (model : string) : Judge :=
  {| llm := llm; model := model |}.

(** [(nil, false)] is [None]; [(&result, true)] is [Some result]. *)
Definition parseConsensusJSON (raw : string) : option ConsensusResult :=
  let result := zero_ConsensusResult in
  (* Try direct parse first *)
  let (result, ok) := Unmarshal (TrimSpace raw) result in
  if ok then Some result
  else
    (* Try extracting from markdown code block *)
    let (result, ok) :=
      match codeBlockRe_FindStringSubmatch raw with
      | _ :: group1 :: _ => Unmarshal (TrimSpace group1) result
      | _ => (result, false)
      end in
    if ok then Some result
    else
      (* Try finding JSON object in text (first { to last }) *)
      let start := Index "{" raw in
      let end_ := LastIndex "}" raw in
      if (start >=? 0) && (end_ >? start) then
        let (result, ok) := Unmarshal (slice raw start (end_ + 1)) result in
        if ok then Some result else None
      else None.

Record Sys : Type := { world : World; log : list Event }.

Definition emit (ev : Event) (w : World) : M Sys unit :=
  modify (fun s => {| world := w; log := log s ++ [ev] |}).

Definition ctx_err (ctx : Context World) : M Sys (option error) :=
  s <- get ;;
  let (r, w) := ctx_Err ctx (world s) in
  emit (EvErr r) w ;;
  ret r.

Definition chat (j : Judge) (ctx : Context World) (msgs : list Message)
  : M Sys ChatResponse :=
  s <- get ;;
  let (r, w) := ChatCompletion (llm j) ctx (model j) msgs (world s) in
  emit (EvChat (model j) msgs r) w ;;
  fun s' => (r, s').

Definition wrapping (A : Type) (prefix : string) (m : M Sys A) : M Sys A :=
  fun s =>
    match m s with
    | (Err err, s') => (Err (Errorf_w prefix err), s')
    | other => other
    end.

(** The transcript as one line per turn. *)
Fixpoint transcript_lines (turns : list Turn) : string :=
  match turns with
  | [] => EmptyString
  | turn :: rest =>
      (Name (Agent_ turn) ++ ": " ++ debate.Content turn ++ newline
       ++ transcript_lines rest)%string
  end.

(** [for attempt := range maxJudgeRetries { ... }], then the zero value. *)
Fixpoint Evaluate_attempts (j : Judge) (ctx : Context World)
    (system user : Message) (left : nat) (attempt : Z) : M Sys ConsensusResult :=
  match left with
  | O => ret zero_ConsensusResult
  | S left' =>
      r <- ctx_err ctx ;;
      match r with
      | Some err => raise (Errorf_w "consensus: " err)
      | None =>
          let msgs :=
            [system; user]
            ++ (if attempt >? 0
                then [ {| openrouter.Role := "user"; openrouter.Content := retry_prompt |} ]
                else []) in
          resp <- wrapping "consensus: " (chat j ctx msgs) ;;
          match Choices resp with
          | [] => panic "index out of range [0] with length 0"
          | c :: _ =>
              let raw := openrouter.Content (Message_ c) in
              match parseConsensusJSON raw with
              | Some result => ret result
              | None => Evaluate_attempts j ctx system user left' (attempt + 1)
              end
          end
      end
  end.

Definition Evaluate (j : Judge) (ctx : Context World) (transcript : Transcript)
  : M Sys ConsensusResult :=
  let system := {| openrouter.Role := "system"; openrouter.Content := system_prompt |} in
  let user := {| openrouter.Role := "user";
                 openrouter.Content := transcript_lines (Turns transcript) |} in
  Evaluate_attempts j ctx system user maxJudgeRetries 0.

(** [*Judge] as a [debate.ConsensusJudge]. *)
Definition as_ConsensusJudge (j : Judge) : ConsensusJudge World :=
  {| debate.Evaluate := fun ctx t w =>
       let (r, s) := Evaluate j ctx t {| world := w; log := [] |} in
       (r, world s) |}.

(** ** Reading the log of one evaluation *)

Definition is_chat (ev : Event) : bool :=
  match ev with
  | EvChat _ _ _ => true
  | _ => false
  end.

(** Number of model calls in a log. *)
Definition chats (evs : list Event) : nat := List.length (List.filter is_chat evs).

(** The reply of a model call that returned: its first choice, parsed. *)
Definition parsed_reply (resp : ChatResponse) : option (option ConsensusResult) :=
  match Choices resp with
  | [] => None
  | c :: _ => Some (parseConsensusJSON (openrouter.Content (Message_ c)))
  end.

(** An event after which the judge goes on: a cancellation check that saw
    nothing, or a reply with a first choice that does not parse. *)
Definition goes_on (ev : Event) : Prop :=
  match ev with
  | EvErr r => r = None
  | EvChat _ _ (Ok resp) => parsed_reply resp = Some None
  | _ => False
  end.

(** How the last event fixes the outcome; [n] is the number of model calls
    the log holds when the attempts are used up. *)
Definition verdict_ok (n : nat) (evs : list Event) (final : Event)
    (out : Res ConsensusResult) : Prop :=
  match final with
  | EvErr (Some err) => out = Err (Errorf_w "consensus: " err)
  | EvChat _ _ (Err err) => out = Err (Errorf_w "consensus: " err)
  | EvChat _ _ (Panic msg) => out = Panic msg
  | EvChat _ _ Diverge => out = Diverge
  | EvChat _ _ (Ok resp) =>
      match parsed_reply resp with
      | None => out = Panic "index out of range [0] with length 0"
      | Some (Some result) => out = Ok result
      | Some None => out = Ok zero_ConsensusResult /\ chats evs = n
      end
  | _ => False
  end.

Definition attempts_post (left : nat) (evs : list Event)
    (out : Res ConsensusResult) : Prop :=
  (left = O /\ evs = [] /\ out = Ok zero_ConsensusResult) \/
  (exists body final,
      evs = body ++ [final] /\ Forall goes_on body /\
      (chats evs <= left)%nat /\ verdict_ok left evs final out).

Lemma chats_app (l1 l2 : list Event) :
  chats (l1 ++ l2) = (chats l1 + chats l2)%nat.
Proof.
  unfold chats. rewrite List.filter_app, List.length_app. reflexivity.
Qed.

Lemma ctx_err_inv (ctx : Context World) (s s1 : Sys) (r : Res (option error)) :
  ctx_err ctx s = (r, s1) ->
  exists o, r = Ok o /\ log s1 = log s ++ [EvErr o] /\
            (o, world s1) = ctx_Err ctx (world s).
Proof.
  unfold ctx_err, bind, get, emit, modify, ret.
  destruct (ctx_Err ctx (world s)) as [o w]. simpl.
  intros H. inversion H; subst. exists o. auto.
Qed.

Lemma chat_inv (j : Judge) (ctx : Context World) (msgs : list Message)
    (s s1 : Sys) (r : Res ChatResponse) :
  chat j ctx msgs s = (r, s1) ->
  log s1 = log s ++ [EvChat (model j) msgs r] /\
  (r, world s1) = ChatCompletion (llm j) ctx (model j) msgs (world s).
Proof.
  unfold chat, bind, get, emit, modify.
  destruct (ChatCompletion (llm j) ctx (model j) msgs (world s)) as [r0 w]. simpl.
  intros H. inversion H; subst. auto.
Qed.

Lemma Evaluate_attempts_spec (j : Judge) (ctx : Context World)
    (system user : Message) :
  forall (left : nat) (attempt : Z) (s s' : Sys) (out : Res ConsensusResult),
    Evaluate_attempts j ctx system user left attempt s = (out, s') ->
    exists evs, log s' = log s ++ evs /\ attempts_post left evs out.
Proof.
  induction left as [|left IH]; intros attempt s s' out Hrun.
  { simpl in Hrun. unfold ret in Hrun. inversion Hrun; subst.
    exists []. rewrite app_nil_r. split; auto. left. auto. }
  simpl in Hrun. unfold bind at 1 in Hrun.
  destruct (ctx_err ctx s) as [r0 s0] eqn:E0.
  apply ctx_err_inv in E0. destruct E0 as [o [-> [Hlog0 _]]].
  destruct o as [err|].
  { unfold raise in Hrun. inversion Hrun; subst.
    exists [EvErr (Some err)]. split; auto.
    right. exists [], (EvErr (Some err)). repeat split; auto.
    change (chats [EvErr (Some err)]) with O. lia. }
  unfold bind at 1 in Hrun. unfold wrapping in Hrun.
  match type of Hrun with
  | context [chat j ctx ?m s0] => set (msgs := m) in *
  end.
  destruct (chat j ctx msgs s0) as [r1 s1] eqn:E1.
  apply chat_inv in E1. destruct E1 as [Hlog1 _].
  set (pre := [EvErr None; EvChat (model j) msgs r1]).
  assert (Hpre: log s1 = log s ++ pre).
  { rewrite Hlog1, Hlog0, <- app_assoc. reflexivity. }
  assert (Hchat1: chats pre = 1%nat) by reflexivity.
  assert (Hfinal: forall o', verdict_ok (S left) pre (EvChat (model j) msgs r1) o' ->
            out = o' -> s' = s1 ->
            exists evs, log s' = log s ++ evs /\ attempts_post (S left) evs out).
  { intros o' Hv -> ->. exists pre. split; auto. right.
    exists [EvErr None], (EvChat (model j) msgs r1).
    repeat split; auto.
    - constructor; simpl; auto.
    - rewrite Hchat1. lia. }
  destruct r1 as [resp|err|msg|].
  2:{ inversion Hrun; subst. eapply Hfinal; eauto. simpl. reflexivity. }
  2:{ inversion Hrun; subst. eapply Hfinal; eauto. simpl. reflexivity. }
  2:{ inversion Hrun; subst. eapply Hfinal; eauto. simpl. reflexivity. }
  destruct (Choices resp) as [|c cs] eqn:Hch.
  { unfold panic in Hrun. inversion Hrun; subst. eapply Hfinal; eauto.
    simpl. unfold parsed_reply. rewrite Hch. reflexivity. }
  destruct (parseConsensusJSON (openrouter.Content (Message_ c))) as [result|] eqn:Hp.
  { unfold ret in Hrun. inversion Hrun; subst. eapply Hfinal; eauto.
    simpl. unfold parsed_reply. rewrite Hch, Hp. reflexivity. }
  assert (Hgo: goes_on (EvChat (model j) msgs (Ok resp))).
  { simpl. unfold parsed_reply. rewrite Hch, Hp. reflexivity. }
  apply IH in Hrun. destruct Hrun as [evs [Hlog2 Hpost]].
  exists (pre ++ evs). split.
  { rewrite Hlog2, Hpre, <- app_assoc. reflexivity. }
  right. destruct Hpost as [[-> [-> ->]] | [body [final [-> [Cb [Rb Fb]]]]]].
  - rewrite app_nil_r. exists [EvErr None], (EvChat (model j) msgs (Ok resp)).
    repeat split; auto.
    + constructor; simpl; auto.
    + simpl. unfold parsed_reply. rewrite Hch, Hp. split; reflexivity.
  - exists (pre ++ body), final. rewrite app_assoc.
    repeat split; auto.
    + apply Forall_app; split; auto.
      repeat constructor; auto.
    + rewrite <- app_assoc, chats_app, Hchat1. lia.
    + rewrite <- app_assoc.
      assert (Hc: chats (pre ++ body ++ [final]) = S (chats (body ++ [final]))).
      { rewrite chats_app, Hchat1. reflexivity. }
      destruct final as [[e|] | m ms [resp'|e|msg|] | t r | a | tn];
        unfold verdict_ok in Fb |- *; auto.
      destruct (parsed_reply resp') as [[result|]|]; auto.
      destruct Fb as [-> Fb]. split; auto.
      rewrite Hc, Fb. reflexivity.
Qed.

(** Every model call of an evaluation comes right after a cancellation
    check that saw nothing. *)
Lemma Evaluate_attempts_checked (j : Judge) (ctx : Context World)
    (system user : Message) :
  forall (left : nat) (attempt : Z) (s s' : Sys) (out : Res ConsensusResult)
         (evs b rest : list Event) (m : string) (msgs : list Message)
         (r : Res ChatResponse),
    Evaluate_attempts j ctx system user left attempt s = (out, s') ->
    log s' = log s ++ evs ->
    evs = b ++ EvChat m msgs r :: rest ->
    exists b', b = b' ++ [EvErr None].
Proof.
  induction left as [|left IH]; intros attempt s s' out evs b rest m msgs r Hrun Hlog Hevs.
  { simpl in Hrun. unfold ret in Hrun. inversion Hrun; subst.
    rewrite <- (app_nil_r (log s')) in Hlog at 1.
    apply app_inv_head in Hlog. destruct b; discriminate. }
  simpl in Hrun. unfold bind at 1 in Hrun.
  destruct (ctx_err ctx s) as [r0 s0] eqn:E0.
  apply ctx_err_inv in E0. destruct E0 as [o [-> [Hlog0 _]]].
  destruct o as [err|].
  { unfold raise in Hrun. inversion Hrun; subst.
    rewrite Hlog0 in Hlog. apply app_inv_head in Hlog.
    destruct b as [|x [|y b]]; inversion Hlog. }
  unfold bind at 1 in Hrun. unfold wrapping in Hrun.
  match type of Hrun with
  | context [chat j ctx ?ms s0] => set (msgs0 := ms) in *
  end.
  destruct (chat j ctx msgs0 s0) as [r1 s1] eqn:E1.
  apply chat_inv in E1. destruct E1 as [Hlog1 _].
  assert (Hpre: log s1 = log s ++ [EvErr None; EvChat (model j) msgs0 r1]).
  { rewrite Hlog1, Hlog0, <- app_assoc. reflexivity. }
  assert (Hstop: s' = s1 -> exists b', b = b' ++ [EvErr None]).
  { intros ->. rewrite Hpre in Hlog. apply app_inv_head in Hlog. subst evs.
    destruct b as [|x [|y b]]; inversion Hevs; subst.
    - exists []. reflexivity.
    - destruct b; discriminate. }
  destruct r1 as [resp|err|msg|];
    try (inversion Hrun; subst; apply Hstop; reflexivity).
  destruct (Choices resp) as [|c cs].
  { unfold panic in Hrun. inversion Hrun; subst. apply Hstop; reflexivity. }
  destruct (parseConsensusJSON (openrouter.Content (Message_ c))) as [result|].
  { unfold ret in Hrun. inversion Hrun; subst. apply Hstop; reflexivity. }
  pose proof Hrun as Hrun'.
  apply Evaluate_attempts_spec in Hrun'. destruct Hrun' as [evs2 [Hlog2 _]].
  rewrite Hlog2, Hpre, <- app_assoc in Hlog. apply app_inv_head in Hlog.
  subst evs. simpl in Hevs.
  destruct b as [|x [|y b]]; simpl in Hevs.
  - discriminate.
  - inversion Hevs; subst. exists []. reflexivity.
  - injection Hevs as Hx Hy Hrest. subst x y.
    destruct (IH _ _ _ _ _ _ _ _ _ _ Hrun Hlog2 Hrest) as [b' ->].
    exists (EvErr None :: EvChat (model j) msgs0 (Ok resp) :: b'). reflexivity.
Qed.

(** C5, as the code has it.  An evaluation makes at most three model
    calls.  It returns an error exactly when its last event is a
    cancellation check that saw the context done, or a model call that
    failed; the error wraps the observed one under [consensus: ].  When
    every event lets the judge go on (no cancellation seen, every reply has
    a first choice and that choice does not parse), three calls are made
    and the zero value is returned without error. *)
Theorem Evaluate_attempts_and_errors (j : Judge) (ctx : Context World)
    (transcript : Transcript) (s s' : Sys) (out : Res ConsensusResult) :
  Evaluate j ctx transcript s = (out, s') ->
  exists evs,
    log s' = log s ++ evs /\
    (chats evs <= 3)%nat /\
    (forall e, out = Err e <->
       exists body err,
         e = Errorf_w "consensus: " err /\
         (evs = body ++ [EvErr (Some err)] \/
          exists m msgs, evs = body ++ [EvChat m msgs (Err err)])) /\
    (Forall goes_on evs ->
       chats evs = 3%nat /\ out = Ok zero_ConsensusResult).
Proof.
  unfold Evaluate. intros Hrun.
  apply Evaluate_attempts_spec in Hrun. destruct Hrun as [evs [Hlog Hpost]].
  exists evs. split; [exact Hlog |].
  destruct Hpost as [[Habs _] | [body [final [Hevs [Cb [Rb Fb]]]]]];
    [discriminate |].
  split; [exact Rb |]. split.
  - intros e. split.
    + intros ->.
      destruct final as [[err|] | m ms [resp|err|msg|] | t r | a | tn];
        simpl in Fb; try contradiction; try discriminate.
      * inversion Fb; subst. exists body, err. auto.
      * destruct (parsed_reply resp) as [[result|]|]; try discriminate.
        destruct Fb as [Fb _]. discriminate.
      * inversion Fb; subst. exists body, err. split; auto.
        right. exists m, ms. reflexivity.
    + intros [body' [err [-> [E | [m [ms E]]]]]]; rewrite Hevs in E;
        apply app_inj_tail in E; destruct E as [_ ->]; simpl in Fb; exact Fb.
  - intros Hall. rewrite Hevs in Hall. apply Forall_app in Hall.
    destruct Hall as [_ Hall]. inversion Hall as [|? ? Hf _]; subst.
    destruct final as [[err|] | m ms [resp|err|msg|] | t r | a | tn];
      simpl in Hf, Fb; try contradiction; try discriminate.
    rewrite Hf in Fb. destruct Fb as [-> Fb]. auto.
Qed.

End Judge.

(** ** The four forms of a reply *)

Definition fenced_tagged (payload : string) : string :=
  ("```json" ++ newline ++ payload ++ newline ++ "```")%string.

Definition fenced_plain (payload : string) : string :=
  ("```" ++ newline ++ payload ++ newline ++ "```")%string.

Definition in_prose (before payload after : string) : string :=
  (before ++ payload ++ after)%string.

(** A text that neither starts nor ends with an ASCII space. *)
Definition ends_clear (t : string) : Prop :=
  match head t with Some c => asciiSpace c = false | None => True end /\
  match last t with Some c => asciiSpace c = false | None => True end.

Section Forms.

Variable TrimSpace : string -> string.
Variable Unmarshal : string -> ConsensusResult -> ConsensusResult * bool.

(** What the proofs use of strings.TrimSpace: it cuts a prefix and a suffix
    made of white space (ASCII spaces, or bytes of multi-byte runes), and
    what it leaves has no ASCII space at either end. *)
Hypothesis TrimSpace_split :
  forall s, exists pre post,
    s = (pre ++ TrimSpace s ++ post)%string /\
    all_bytes spaceish pre = true /\ all_bytes spaceish post = true.

Hypothesis TrimSpace_ends : forall s, ends_clear (TrimSpace s).

(** What the proofs use of json.Unmarshal into a struct: a text that, JSON
    white space apart, is not enclosed in braces is no object; decoding it
    leaves the target as it was and succeeds only on [null]. *)
Hypothesis Unmarshal_untouched :
  forall s r,
    braced (trim jsonSpace s) = false ->
    Unmarshal s r = (r, String.eqb (trim jsonSpace s) "null").

Let parse : string -> option ConsensusResult :=
  parseConsensusJSON TrimSpace Unmarshal.

Lemma TrimSpace_fixed (s : string) (a b : ascii) :
  head s = Some a -> spaceish a = false ->
  last s = Some b -> spaceish b = false ->
  TrimSpace s = s.
Proof.
  intros Hh Ha Hl Hb.
  destruct (TrimSpace_split s) as [pre [post [E [Hpre Hpost]]]].
  assert (pre = EmptyString).
  { destruct pre as [|c pre]; [reflexivity |].
    rewrite E in Hh. simpl in Hh. inversion Hh; subst c.
    simpl in Hpre. apply andb_true_iff in Hpre. destruct Hpre. congruence. }
  subst pre. simpl in E.
  assert (post = EmptyString).
  { destruct post as [|c post]; [reflexivity |].
    rewrite E, last_append in Hl.
    destruct (last (String c post)) as [d|] eqn:El.
    - inversion Hl; subst d.
      rewrite (all_bytes_last _ _ Hpost El) in Hb. discriminate.
    - exfalso. revert El. apply last_nonempty. discriminate. }
  subst post. rewrite append_nil_r in E. symmetry. exact E.
Qed.

(** A text left by [TrimSpace] that is not enclosed in braces and is not
    [null] fails to decode and leaves the target as it was. *)
Lemma Unmarshal_rejects (raw : string) (r : ConsensusResult) :
  braced (TrimSpace raw) = false -> TrimSpace raw <> "null"%string ->
  Unmarshal (TrimSpace raw) r = (r, false).
Proof.
  intros Hb Hn.
  assert (Ht: trim jsonSpace (TrimSpace raw) = TrimSpace raw).
  { destruct (TrimSpace_ends raw) as [Hh Hl]. apply trim_id.
    - destruct (head (TrimSpace raw)); [apply jsonSpace_asciiSpace; exact Hh | exact I].
    - destruct (last (TrimSpace raw)); [apply jsonSpace_asciiSpace; exact Hl | exact I]. }
  rewrite Unmarshal_untouched; rewrite Ht; [| exact Hb].
  f_equal. apply String.eqb_neq. exact Hn.
Qed.

Lemma payload_length (payload : string) :
  head payload = Some "{"%char -> last payload = Some "}"%char ->
  (2 <= String.length payload)%nat.
Proof.
  destruct payload as [|c [|d rest]]; simpl; try discriminate.
  - intros H1 H2. inversion H1; subst. discriminate.
  - intros. lia.
Qed.

Lemma parse_bare (payload : string) (v : ConsensusResult) :
  head payload = Some "{"%char -> last payload = Some "}"%char ->
  Unmarshal payload zero_ConsensusResult = (v, true) ->
  parse payload = Some v.
Proof.
  intros Hh Hl Hu. unfold parse, parseConsensusJSON.
  rewrite (TrimSpace_fixed payload Hh eq_refl Hl eq_refl), Hu. reflexivity.
Qed.

(** A reply that opens with a fence and closes with one, around a newline,
    the payload and a newline. *)
Lemma parse_fenced (opening payload : string) (v : ConsensusResult) :
  opening = "```json"%string \/ opening = "```"%string ->
  head payload = Some "{"%char -> last payload = Some "}"%char ->
  Index fence payload = -1 ->
  Unmarshal payload zero_ConsensusResult = (v, true) ->
  parse (opening ++ newline ++ payload ++ newline ++ "```") = Some v.
Proof.
  intros Hop Hh Hl Hf Hu.
  set (raw := (opening ++ newline ++ payload ++ newline ++ "```")%string).
  assert (Hhead: head raw = Some "`"%char).
  { unfold raw. destruct Hop as [-> | ->]; reflexivity. }
  assert (Hlast: last raw = Some "`"%char).
  { unfold raw. rewrite !last_append. reflexivity. }
  assert (Htrim: TrimSpace raw = raw).
  { apply (TrimSpace_fixed raw Hhead eq_refl Hlast eq_refl). }
  assert (Hrej: Unmarshal (TrimSpace raw) zero_ConsensusResult
                = (zero_ConsensusResult, false)).
  { apply Unmarshal_rejects.
    - rewrite Htrim. unfold braced. rewrite Hhead, Hlast. reflexivity.
    - rewrite Htrim. intros E. rewrite E in Hhead. discriminate. }
  assert (Hgroup: exists whole,
             codeBlockRe_FindStringSubmatch raw = [whole; payload]).
  { destruct (@fenced_group payload "{"%char Hh eq_refl Hf) as [G1 [G2 G3]].
    cbv zeta in G3.
    unfold codeBlockRe_FindStringSubmatch.
    assert (Hi: Index fence raw = 0).
    { unfold raw. destruct Hop as [-> | ->]; reflexivity. }
    rewrite Hi. change (0 <? 0) with false. cbv iota.
    change (Z.to_nat 0 + 3)%nat with 3%nat.
    assert (Hbody: trim_left perl_space
                     (if prefix "json" (drop 3 raw) then drop 4 (drop 3 raw)
                      else drop 3 raw)
                   = (payload ++ String nl fence)%string).
    { unfold raw. destruct Hop as [-> | ->]; exact G1. }
    cbv zeta. rewrite Hbody, G2.
    destruct (Z.of_nat (String.length payload) + 1 <? 0) eqn:E.
    { apply Z.ltb_lt in E. lia. }
    rewrite <- G2, G3. eexists. reflexivity. }
  destruct Hgroup as [whole Hgroup].
  unfold parse, parseConsensusJSON. fold raw. rewrite Hrej, Hgroup.
  rewrite (TrimSpace_fixed payload Hh eq_refl Hl eq_refl), Hu. reflexivity.
Qed.

Lemma parse_in_prose (before payload after : string) (v : ConsensusResult) :
  head payload = Some "{"%char -> last payload = Some "}"%char ->
  Unmarshal payload zero_ConsensusResult = (v, true) ->
  Index "{" before = -1 -> LastIndex "}" after = -1 ->
  Index fence (in_prose before payload after) = -1 ->
  parse (in_prose before payload after) = Some v.
Proof.
  intros Hh Hl Hu Hbefore Hafter Hfence.
  set (raw := in_prose before payload after) in *.
  assert (F1: Index "{" raw = Z.of_nat (String.length before)).
  { unfold raw, in_prose. apply (@Index_one_append "{"%char before (payload ++ after)); [exact Hbefore |].
    rewrite head_append, Hh. reflexivity. }
  assert (F2: LastIndex "}" (payload ++ after)
              = Z.of_nat (String.length payload) - 1).
  { apply (@LastIndex_one_append "}"%char payload after); assumption. }
  assert (F3: LastIndex "}" raw
              = Z.of_nat (String.length before) + Z.of_nat (String.length payload) - 1).
  { unfold raw, in_prose. rewrite <- append_assoc.
    pose proof (@LastIndex_one_append "}"%char (before ++ payload) after Hafter) as H.
    unfold one in H. rewrite H.
    - rewrite length_append. lia.
    - rewrite last_append, Hl. reflexivity. }
  pose proof (payload_length payload Hh Hl) as Hlen.
  assert (Hstep3: forall r1,
            r1 = zero_ConsensusResult ->
            (let start := Index "{" raw in
             let end_ := LastIndex "}" raw in
             if (start >=? 0) && (end_ >? start)
             then let (result, ok) := Unmarshal (slice raw start (end_ + 1)) r1 in
                  if ok then Some result else None
             else None) = Some v).
  { intros r1 ->. cbv zeta. rewrite F1, F3.
    replace (Z.of_nat (String.length before) >=? 0) with true
      by (symmetry; rewrite Z.geb_leb; apply Z.leb_le; lia).
    replace (Z.of_nat (String.length before) + Z.of_nat (String.length payload) - 1
             >? Z.of_nat (String.length before)) with true
      by (symmetry; rewrite Z.gtb_ltb; apply Z.ltb_lt; lia).
    cbv iota. simpl andb. cbv iota.
    replace (Z.of_nat (String.length before) + Z.of_nat (String.length payload) - 1 + 1)
      with (Z.of_nat (String.length before) + Z.of_nat (String.length payload)) by lia.
    unfold raw, in_prose. rewrite slice_append, Hu. reflexivity. }
  destruct (TrimSpace_split raw) as [pre [post [E [Hpre Hpost]]]].
  assert (Npre: Index "{" pre = -1).
  { apply (@Index_one_all_bytes spaceish "{"%char pre); [reflexivity | exact Hpre]. }
  assert (Npost: Index "{" post = -1).
  { apply (@Index_one_all_bytes spaceish "{"%char post); [reflexivity | exact Hpost]. }
  destruct (braced (TrimSpace raw)) eqn:Hb.
  - (* the trimmed reply is enclosed in braces: it is the payload *)
    unfold braced in Hb.
    destruct (head (TrimSpace raw)) as [a|] eqn:Ha; [| discriminate].
    destruct (last (TrimSpace raw)) as [b|] eqn:Hbl; [| discriminate].
    apply andb_true_iff in Hb. destruct Hb as [Ea Eb].
    apply Ascii.eqb_eq in Ea. apply Ascii.eqb_eq in Eb. subst a b.
    assert (G1: Index "{" raw = Z.of_nat (String.length pre)).
    { rewrite E at 1. apply (@Index_one_append "{"%char pre (TrimSpace raw ++ post)); [exact Npre |].
      rewrite head_append, Ha. reflexivity. }
    assert (Lpre: String.length before = String.length pre) by lia.
    assert (Esplit: (before ++ (payload ++ after))%string
                    = (pre ++ (TrimSpace raw ++ post))%string).
    { rewrite <- E. reflexivity. }
    destruct (@append_inj_length before (payload ++ after) pre (TrimSpace raw ++ post) Esplit Lpre) as [_ Etail].
    assert (G2: LastIndex "}" (TrimSpace raw ++ post)
                = Z.of_nat (String.length (TrimSpace raw)) - 1).
    { apply (@LastIndex_one_append "}"%char (TrimSpace raw) post); [| exact Hbl].
      apply (@LastIndex_one_all_bytes spaceish "}"%char post); [reflexivity | exact Hpost]. }
    rewrite <- Etail, F2 in G2.
    assert (Lp: String.length payload = String.length (TrimSpace raw)) by lia.
    destruct (@append_inj_length payload after (TrimSpace raw) post Etail Lp) as [Ep _].
    unfold parse, parseConsensusJSON. fold raw. rewrite <- Ep, Hu. reflexivity.
  - (* otherwise the direct parse fails and the brace scan finds the payload *)
    assert (Hn: TrimSpace raw <> "null"%string).
    { intros En. rewrite En in E.
      assert (Index "{" raw = -1).
      { rewrite E. apply Index_one_absent_append; [exact Npre |].
        apply Index_one_absent_append; [reflexivity | exact Npost]. }
      lia. }
    unfold parse, parseConsensusJSON. fold raw.
    rewrite (@Unmarshal_rejects raw zero_ConsensusResult Hb Hn).
    unfold codeBlockRe_FindStringSubmatch. rewrite Hfence.
    change (-1 <? 0) with true. cbv iota.
    apply Hstep3. reflexivity.
Qed.

(** The extraction as the specification words it: candidate texts tried
    in order, the first that decodes wins.  [first_success] carries the
    decoding target from one candidate to the next, as the code reuses one
    [result] variable. *)
Definition extraction_candidates (raw : string) : list (option string) :=
  [ Some (TrimSpace raw);
    match codeBlockRe_FindStringSubmatch raw with
    | _ :: group1 :: _ => Some (TrimSpace group1)
    | _ => None
    end;
    if (Index "{" raw >=? 0) && (LastIndex "}" raw >? Index "{" raw)
    then Some (slice raw (Index "{" raw) (LastIndex "}" raw + 1))
    else None ].

Fixpoint first_success (candidates : list (option string))
    (result : ConsensusResult) : option ConsensusResult :=
  match candidates with
  | [] => None
  | None :: rest => first_success rest result
  | Some text :: rest =>
      let (result', ok) := Unmarshal text result in
      if ok then Some result' else first_success rest result'
  end.

Lemma parse_in_order (raw : string) :
  parse raw = first_success (extraction_candidates raw) zero_ConsensusResult.
Proof.
  unfold parse, parseConsensusJSON, extraction_candidates. simpl.
  destruct (Unmarshal (TrimSpace raw) zero_ConsensusResult) as [r1 [|]];
    [reflexivity |].
  destruct (codeBlockRe_FindStringSubmatch raw) as [|whole [|group1 more]].
  - destruct ((Index "{" raw >=? 0) && (LastIndex "}" raw >? Index "{" raw));
      [| reflexivity].
    destruct (Unmarshal _ r1) as [r3 [|]]; reflexivity.
  - destruct ((Index "{" raw >=? 0) && (LastIndex "}" raw >? Index "{" raw));
      [| reflexivity].
    destruct (Unmarshal _ r1) as [r3 [|]]; reflexivity.
  - destruct (Unmarshal (TrimSpace group1) r1) as [r2 [|]]; [reflexivity |].
    destruct ((Index "{" raw >=? 0) && (LastIndex "}" raw >? Index "{" raw));
      [| reflexivity].
    destruct (Unmarshal _ r2) as [r3 [|]]; reflexivity.
Qed.


End Forms.

End consensus.

(* ===================================================================== *)
(** * Models of the two library calls of the judge

    [TrimSpace] removes ASCII white space only: it is strings.TrimSpace on
    every text whose leading and trailing white space is ASCII (the library
    also removes the Unicode spaces outside ASCII).  [Unmarshal] is
    json.Unmarshal into a [ConsensusResult]: the JSON grammar, field names
    matched without regard to ASCII case, a type mismatch recorded while
    the other fields are still decoded.  It passes the bytes of a string
    through as they are, and pairs no surrogate escapes. *)
(* ===================================================================== *)

Module golib.

Import debate strings.

(** ** strings.TrimSpace *)

Definition TrimSpace (s : string) : string := trim asciiSpace s.

Lemma trim_left_split (p : ascii -> bool) (s : string) :
  exists pre, s = (pre ++ trim_left p s)%string /\ all_bytes p pre = true.
Proof.
  induction s as [|c s IH].
  - exists EmptyString. auto.
  - simpl trim_left. destruct (p c) eqn:E.
    + destruct IH as [pre [E1 E2]]. exists (String c pre). simpl.
      rewrite <- E1, E, E2. auto.
    + exists EmptyString. auto.
Qed.

Lemma trim_right_split (p : ascii -> bool) (s : string) :
  exists post, s = (trim_right p s ++ post)%string /\ all_bytes p post = true.
Proof.
  induction s as [|c s IH].
  - exists EmptyString. auto.
  - simpl trim_right. destruct IH as [post [E1 E2]].
    destruct (trim_right p s) as [|d kept] eqn:Et.
    + simpl in E1. subst post. destruct (p c) eqn:E.
      * exists (String c s). simpl. rewrite E, E2. auto.
      * exists s. auto.
    + exists post. simpl. rewrite E1 at 1. auto.
Qed.

Lemma all_bytes_weaken (p q : ascii -> bool) (s : string) :
  (forall c, p c = true -> q c = true) ->
  all_bytes p s = true -> all_bytes q s = true.
Proof.
  intros Hpq. induction s as [|c s IH]; simpl; [auto |].
  intros H. apply andb_true_iff in H. destruct H as [H1 H2].
  rewrite (Hpq c H1), (IH H2). reflexivity.
Qed.

Lemma asciiSpace_spaceish (c : ascii) : asciiSpace c = true -> spaceish c = true.
Proof. unfold spaceish. intros ->. reflexivity. Qed.

Lemma TrimSpace_split (s : string) :
  exists pre post,
    s = (pre ++ TrimSpace s ++ post)%string /\
    all_bytes spaceish pre = true /\ all_bytes spaceish post = true.
Proof.
  destruct (trim_left_split asciiSpace s) as [pre [E1 H1]].
  destruct (trim_right_split asciiSpace (trim_left asciiSpace s)) as [post [E2 H2]].
  exists pre, post. unfold TrimSpace, trim. rewrite <- E2, <- E1.
  split; [reflexivity |].
  split.
  - apply (@all_bytes_weaken asciiSpace spaceish pre asciiSpace_spaceish H1).
  - apply (@all_bytes_weaken asciiSpace spaceish post asciiSpace_spaceish H2).
Qed.

Lemma trim_left_clear (p : ascii -> bool) (s : string) :
  match head (trim_left p s) with Some c => p c = false | None => True end.
Proof.
  induction s as [|c s IH]; simpl; [exact I |].
  destruct (p c) eqn:E; [exact IH | exact E].
Qed.

Lemma trim_right_clear (p : ascii -> bool) (s : string) :
  match last (trim_right p s) with Some c => p c = false | None => True end.
Proof.
  induction s as [|c s IH]; simpl trim_right; [exact I |].
  destruct (trim_right p s) as [|d kept] eqn:Et.
  - destruct (p c) eqn:E; simpl; [exact I | exact E].
  - change (last (String c (String d kept))) with (last (String d kept)).
    exact IH.
Qed.

Lemma trim_right_head (p : ascii -> bool) (s : string) :
  trim_right p s = EmptyString \/ head (trim_right p s) = head s.
Proof.
  destruct s as [|c s]; [left; reflexivity |].
  simpl trim_right. destruct (trim_right p s); [destruct (p c) |]; auto.
Qed.

Lemma TrimSpace_ends (s : string) : consensus.ends_clear (TrimSpace s).
Proof.
  unfold consensus.ends_clear, TrimSpace, trim. split.
  - destruct (trim_right_head asciiSpace (trim_left asciiSpace s)) as [-> | ->].
    + exact I.
    + apply trim_left_clear.
  - apply trim_right_clear.
Qed.

(** ** encoding/json *)

Inductive value : Type :=
| Null
| Bool (b : bool)
| Number (literal : string)
| Str (s : string)
| Arr (elements : list value)
| Obj (members : list (string * value)).

Definition code (c : ascii) : nat := nat_of_ascii c.

Definition is_digit (c : ascii) : bool :=
  ((48 <=? code c) && (code c <=? 57))%nat.

Fixpoint digits (s : string) : string * string :=
  match s with
  | String c rest =>
      if is_digit c then let (d, tail) := digits rest in (String c d, tail)
      else (EmptyString, s)
  | EmptyString => (EmptyString, EmptyString)
  end.

(** A number of the JSON grammar at the head of [s]: its literal and what
    follows. *)
Definition scan_number (s : string) : option (string * string) :=
  let (sign, s1) :=
    match s with
    | String c rest => if (code c =? 45)%nat then (String c EmptyString, rest)
                       else (EmptyString, s)
    | EmptyString => (EmptyString, s)
    end in
  let int_part :=
    match s1 with
    | String c rest =>
        if (code c =? 48)%nat then Some (String c EmptyString, rest)
        else if is_digit c then Some (digits s1)
        else None
    | EmptyString => None
    end in
  match int_part with
  | None => None
  | Some (i, s2) =>
      let frac_part :=
        match s2 with
        | String c rest =>
            if (code c =? 46)%nat then
              match digits rest with
              | (EmptyString, _) => None
              | (d, tail) => Some (String c d, tail)
              end
            else Some (EmptyString, s2)
        | EmptyString => Some (EmptyString, s2)
        end in
      match frac_part with
      | None => None
      | Some (f, s3) =>
          let exp_part :=
            match s3 with
            | String c rest =>
                if ((code c =? 101) || (code c =? 69))%nat then
                  let (sg, rest') :=
                    match rest with
                    | String g tail =>
                        if ((code g =? 43) || (code g =? 45))%nat
                        then (String g EmptyString, tail)
                        else (EmptyString, rest)
                    | EmptyString => (EmptyString, rest)
                    end in
                  match digits rest' with
                  | (EmptyString, _) => None
                  | (d, tail) => Some (String c (sg ++ d), tail)
                  end
                else Some (EmptyString, s3)
            | EmptyString => Some (EmptyString, s3)
            end in
          match exp_part with
          | None => None
          | Some (e, s4) => Some ((sign ++ i ++ f ++ e)%string, s4)
          end
      end
  end.

Definition hex_value (c : ascii) : option Z :=
  let n := Z.of_nat (code c) in
  if (48 <=? n) && (n <=? 57) then Some (n - 48)
  else if (97 <=? n) && (n <=? 102) then Some (n - 87)
  else if (65 <=? n) && (n <=? 70) then Some (n - 55)
  else None.

Definition hex4 (s : string) : option (Z * string) :=
  match s with
  | String a (String b (String c (String d rest))) =>
      match hex_value a, hex_value b, hex_value c, hex_value d with
      | Some x, Some y, Some z, Some w =>
          Some (((x * 16 + y) * 16 + z) * 16 + w, rest)
      | _, _, _, _ => None
      end
  | _ => None
  end.

Definition bytes (l : list Z) : string :=
  List.fold_right (fun n acc => String (ascii_of_nat (Z.to_nat n)) acc) EmptyString l.

(** The UTF-8 encoding of a code point of the basic plane; a surrogate
    becomes U+FFFD. *)
Definition utf8 (n : Z) : string :=
  if n <? 128 then bytes [n]
  else if n <? 2048 then bytes [192 + n / 64; 128 + n mod 64]
  else if (55296 <=? n) && (n <=? 57343) then bytes [239; 191; 189]
  else bytes [224 + n / 4096; 128 + (n / 64) mod 64; 128 + n mod 64].

Definition escape (c : ascii) : option nat :=
  let n := code c in
  if (n =? 34)%nat then Some 34%nat
  else if (n =? 92)%nat then Some 92%nat
  else if (n =? 47)%nat then Some 47%nat
  else if (n =? 98)%nat then Some 8%nat
  else if (n =? 102)%nat then Some 12%nat
  else if (n =? 110)%nat then Some 10%nat
  else if (n =? 114)%nat then Some 13%nat
  else if (n =? 116)%nat then Some 9%nat
  else None.

(** The rest of a string literal, after its opening quote: the decoded
    text and what follows the closing quote. *)
Fixpoint parse_string (fuel : nat) (s : string) : option (string * string) :=
  match fuel with
  | O => None
  | S fuel' =>
      match s with
      | EmptyString => None
      | String c rest =>
          if (code c =? 34)%nat then Some (EmptyString, rest)
          else if (code c =? 92)%nat then
            match rest with
            | EmptyString => None
            | String e rest' =>
                if (code e =? 117)%nat then
                  match hex4 rest' with
                  | Some (n, tail) =>
                      match parse_string fuel' tail with
                      | Some (str, after) => Some ((utf8 n ++ str)%string, after)
                      | None => None
                      end
                  | None => None
                  end
                else
                  match escape e with
                  | Some n =>
                      match parse_string fuel' rest' with
                      | Some (str, after) => Some (String (ascii_of_nat n) str, after)
                      | None => None
                      end
                  | None => None
                  end
            end
          else if (code c <? 32)%nat then None
          else
            match parse_string fuel' rest with
            | Some (str, after) => Some (String c str, after)
            | None => None
            end
      end
  end.

Definition skip (s : string) : string := trim_left jsonSpace s.

Definition literal (word : string) (v : value) (s : string) : option (value * string) :=
  if prefix word s then Some (v, drop (String.length word) s) else None.

Fixpoint parse_value (fuel : nat) (s : string) : option (value * string) :=
  match fuel with
  | O => None
  | S fuel' =>
      match skip s with
      | EmptyString => None
      | String c rest =>
          if (code c =? 123)%nat then parse_members fuel' (skip rest) true []
          else if (code c =? 91)%nat then parse_elements fuel' (skip rest) true []
          else if (code c =? 34)%nat then
            match parse_string fuel' rest with
            | Some (str, after) => Some (Str str, after)
            | None => None
            end
          else if (code c =? 116)%nat then literal "true" (Bool true) (String c rest)
          else if (code c =? 102)%nat then literal "false" (Bool false) (String c rest)
          else if (code c =? 110)%nat then literal "null" Null (String c rest)
          else
            match scan_number (String c rest) with
            | Some (lit, after) => Some (Number lit, after)
            | None => None
            end
      end
  end
with parse_members (fuel : nat) (s : string) (first : bool)
    (acc : list (string * value)) : option (value * string) :=
  match fuel with
  | O => None
  | S fuel' =>
      match s with
      | EmptyString => None
      | String c rest =>
          if (code c =? 125)%nat && first then Some (Obj (List.rev acc), rest)
          else if (code c =? 34)%nat then
            match parse_string fuel' rest with
            | None => None
            | Some (key, s1) =>
                match skip s1 with
                | EmptyString => None
                | String colon s2 =>
                    if (code colon =? 58)%nat then
                      match parse_value fuel' s2 with
                      | None => None
                      | Some (v, s3) =>
                          match skip s3 with
                          | EmptyString => None
                          | String d s4 =>
                              if (code d =? 44)%nat then
                                parse_members fuel' (skip s4) false ((key, v) :: acc)
                              else if (code d =? 125)%nat then
                                Some (Obj (List.rev ((key, v) :: acc)), s4)
                              else None
                          end
                      end
                    else None
                end
            end
          else None
      end
  end
with parse_elements (fuel : nat) (s : string) (first : bool)
    (acc : list value) : option (value * string) :=
  match fuel with
  | O => None
  | S fuel' =>
      match s with
      | EmptyString => None
      | String c rest =>
          if (code c =? 93)%nat && first then Some (Arr (List.rev acc), rest)
          else
            match parse_value fuel' s with
            | None => None
            | Some (v, s1) =>
                match skip s1 with
                | EmptyString => None
                | String d s2 =>
                    if (code d =? 44)%nat then
                      parse_elements fuel' (skip s2) false (v :: acc)
                    else if (code d =? 93)%nat then Some (Arr (List.rev (v :: acc)), s2)
                    else None
                end
            end
      end
  end.

(** A whole text as one JSON value. *)
Definition parse_text (s : string) : option value :=
  match parse_value (S (String.length s)) s with
  | Some (v, rest) =>
      match skip rest with
      | EmptyString => Some v
      | _ => None
      end
  | None => None
  end.

Definition lower (c : ascii) : ascii :=
  if ((65 <=? code c) && (code c <=? 90))%nat then ascii_of_nat (code c + 32) else c.

Fixpoint fold_case (s : string) : string :=
  match s with
  | EmptyString => EmptyString
  | String c rest => String (lower c) (fold_case rest)
  end.

(** The elements of an array decoded into a [[]string] that held [old]. *)
Fixpoint decode_strings (elements : list value) (old : list string)
  : list string * bool :=
  match elements with
  | [] => ([], true)
  | e :: rest =>
      let (kept, old') :=
        match old with
        | x :: xs => (x, xs)
        | [] => (EmptyString, [])
        end in
      let (l, good) := decode_strings rest old' in
      match e with
      | Str s => (s :: l, good)
      | Null => (kept :: l, good)
      | _ => (kept :: l, false)
      end
  end.

(** One member of the object decoded into the struct; the flag falls when
    the value does not fit the field. *)
Definition decode_member (st : ConsensusResult * bool) (member : string * value)
  : ConsensusResult * bool :=
  let (r, ok) := st in
  let (key, v) := member in
  let name := fold_case key in
  if String.eqb name "consensus_detected" then
    match v with
    | Bool b => ({| Detected := b; Position := Position r; Score := Score r;
                    Dissenters := Dissenters r |}, ok)
    | Null => (r, ok)
    | _ => (r, false)
    end
  else if String.eqb name "consensus_position" then
    match v with
    | Str s => ({| Detected := Detected r; Position := s; Score := Score r;
                   Dissenters := Dissenters r |}, ok)
    | Null => (r, ok)
    | _ => (r, false)
    end
  else if String.eqb name "agreement_score" then
    match v with
    | Number lit =>
        match Atoi lit with
        | Some n => ({| Detected := Detected r; Position := Position r; Score := n;
                        Dissenters := Dissenters r |}, ok)
        | None => (r, false)
        end
    | Null => (r, ok)
    | _ => (r, false)
    end
  else if String.eqb name "dissenting_agents" then
    match v with
    | Arr elements =>
        let (l, good) := decode_strings elements (Dissenters r) in
        ({| Detected := Detected r; Position := Position r; Score := Score r;
            Dissenters := l |}, ok && good)
    | Null => ({| Detected := Detected r; Position := Position r; Score := Score r;
                  Dissenters := [] |}, ok)
    | _ => (r, false)
    end
  else (r, ok).

(** [json.Unmarshal([]byte(s), &result)]: the new value of [result], and
    whether the error is nil.  A text that is not an object either is
    [null], and nothing happens, or is refused, by its syntax or by its
    type, with the target untouched. *)
Definition Unmarshal (s : string) (r : ConsensusResult) : ConsensusResult * bool :=
  let t := trim jsonSpace s in
  if String.eqb t "null" then (r, true)
  else if braced t then
    match parse_text t with
    | Some (Obj members) => List.fold_left decode_member members (r, true)
    | _ => (r, false)
    end
  else (r, false).

Lemma Unmarshal_untouched (s : string) (r : ConsensusResult) :
  braced (trim jsonSpace s) = false ->
  Unmarshal s r = (r, String.eqb (trim jsonSpace s) "null").
Proof.
  intros Hb. unfold Unmarshal. rewrite Hb.
  destruct (String.eqb (trim jsonSpace s) "null"); reflexivity.
Qed.

(** The judge's extraction over these models. *)
Definition parseConsensusJSON (raw : string) : option ConsensusResult :=
  consensus.parseConsensusJSON TrimSpace Unmarshal raw.

End golib.

(* ===================================================================== *)
(** * A scripted world, for running the judge and the engine *)
(* ===================================================================== *)

Module sim.

Import openrouter debate.

(** The model answers from [script], then with [fallback]; the context is
    done from the [deadline]-th look at it on ([ticks] counts the looks). *)
Record World : Type := {
  script : list (Res ChatResponse);
  fallback : Res ChatResponse;
  ticks : nat;
  deadline : option nat
}.

Definition done (w : World) : option error :=
  match deadline w with
  | Some d => if (d <=? ticks w)%nat then Some Canceled else None
  | None => None
  end.

Definition tick (w : World) : World :=
  {| script := script w; fallback := fallback w; ticks := S (ticks w);
     deadline := deadline w |}.

Definition ctx : Context World :=
  {| ctx_Err := fun w => (done w, tick w);
     ctx_After := fun _ w => (done w, tick w) |}.

Definition llm : LLMClient World :=
  {| ChatCompletion := fun _ _ _ w =>
       match script w with
       | r :: rest =>
           (r, {| script := rest; fallback := fallback w; ticks := ticks w;
                  deadline := deadline w |})
       | [] => (fallback w, w)
       end |}.

(** A reply with one choice, and a reply with none. *)
Definition says (content : string) : Res ChatResponse :=
  Ok {| Choices := [ {| Message_ := {| openrouter.Role := "assistant";
                                       openrouter.Content := content |} |} ] |}.

Definition no_choice : Res ChatResponse := Ok {| Choices := [] |}.

Definition world (script : list (Res ChatResponse)) (deadline : option nat) : World :=
  {| script := script; fallback := says "I think X"; ticks := 0;
     deadline := deadline |}.

(** The judge of the test suite: consensus, with score 8, once the
    transcript has [consensusAtRound] rounds. *)
Definition mockJudge (consensusAtRound : Z) : ConsensusJudge World :=
  {| Evaluate := fun _ t w =>
       (Ok (if Rounds t >=? consensusAtRound
            then {| Detected := true; Position := "the consensus position";
                    Score := 8; Dissenters := [] |}
            else {| Detected := false; Position := ""; Score := 3;
                    Dissenters := [] |}), w) |}.

Definition sampleTranscript : Transcript :=
  {| Topic := "test topic";
     Turns := [ {| Round := 1;
                   Agent_ := {| ID := 1; Name := "Alice"; Model := ""; Role := "" |};
                   debate.Content := "I agree" |};
                {| Round := 1;
                   Agent_ := {| ID := 2; Name := "Bob"; Model := ""; Role := "" |};
                   debate.Content := "I also agree" |} ];
     Phase_ := FreeDebate;
     Rounds := 0 |}.

(** The judge over the library models, on the scripted model. *)
Definition judge : consensus.Judge World := consensus.NewJudge llm "test-model".

Definition judge_run (w : World) : Res ConsensusResult * consensus.Sys World :=
  consensus.Evaluate golib.TrimSpace golib.Unmarshal judge ctx sampleTranscript
    {| consensus.world := w; consensus.log := [] |}.

End sim.

(* ===================================================================== *)
(** * The judge on concrete replies *)
(* ===================================================================== *)

Module judge_runs.

Import openrouter debate strings regexp consensus.

Definition payload : string :=
  dq "{'consensus_detected': true, 'consensus_position': 'regulation needed', 'agreement_score': 7, 'dissenting_agents': ['Charlie']}".

Definition verdict : ConsensusResult :=
  {| Detected := true; Position := "regulation needed"; Score := 7;
     Dissenters := ["Charlie"] |}.

(** The replies of the test suite. *)
Example parse_direct : golib.parseConsensusJSON payload = Some verdict.
Proof. vm_compute. reflexivity. Qed.

Example parse_not_json : golib.parseConsensusJSON "this is not json at all" = None.
Proof. vm_compute. reflexivity. Qed.

Example parse_broken : golib.parseConsensusJSON "Still not valid {broken" = None.
Proof. vm_compute. reflexivity. Qed.

Example parse_markdown_block :
  golib.parseConsensusJSON
    ("Here is my analysis:" ++ newline ++ "```json" ++ newline ++ payload
     ++ newline ++ "```" ++ newline ++ "That's my evaluation.")
  = Some verdict.
Proof. vm_compute. reflexivity. Qed.

(** A failed attempt can leave its mark: the direct parse of this reply
    stores the score 9 before it meets a string where a boolean belongs,
    and the empty object of the fenced text then succeeds on top of it. *)
Example parse_keeps_partial_result :
  golib.parseConsensusJSON
    (dq "{'agreement_score': 9, 'consensus_detected': 'yes', 'note': '```{}```'}")
  = Some {| Detected := false; Position := ""; Score := 9; Dissenters := [] |}.
Proof. vm_compute. reflexivity. Qed.



(** Scenario 3: two unparseable replies, then a valid one: three calls,
    the parsed verdict. *)
Example judge_third_attempt :
  let r := sim.judge_run
             (sim.world [sim.says "not json"; sim.says "{broken"; sim.says payload]
                        None) in
  fst r = Ok verdict /\ chats (log (snd r)) = 3%nat.
Proof. vm_compute. split; reflexivity. Qed.

(** The third message of a retry is the reminder. *)
Example judge_retry_messages :
  let r := sim.judge_run
             (sim.world [sim.says "not json"; sim.says payload] None) in
  List.map (fun ev => match ev with
                      | EvChat _ msgs _ => List.length msgs
                      | _ => O
                      end) (log (snd r))
  = [0; 2; 0; 3]%nat.
Proof. vm_compute. reflexivity. Qed.

(** Three unparseable replies: the instance of
    [Evaluate_attempts_and_errors] at this run. *)
Lemma Evaluate_attempts_and_errors_witness :
  let r := sim.judge_run
             (sim.world [sim.says "not json 1"; sim.says "not json 2";
                         sim.says "not json 3"] None) in
  chats (log (snd r)) = 3%nat /\ fst r = Ok zero_ConsensusResult.
Proof.
  intros r.
  destruct (@Evaluate_attempts_and_errors sim.World golib.TrimSpace golib.Unmarshal
              sim.judge sim.ctx sim.sampleTranscript _ (snd r) (fst r)
              (surjective_pairing r))
    as [evs [Hlog [_ [_ Hall]]]].
  assert (Hevs: evs = log (snd r)) by (symmetry; exact Hlog).
  rewrite <- Hevs. apply Hall. rewrite Hevs.
  match goal with
  | |- Forall _ ?l => let v := eval vm_compute in l in change l with v
  end.
  repeat (apply Forall_cons; [vm_compute; reflexivity |]). apply Forall_nil.
Defined.

(** C5 as stated fails: with the context already done the judge returns an
    error, and no model call was made, let alone failed. *)
Lemma Evaluate_error_without_call :
  let r := sim.judge_run (sim.world [sim.says payload] (Some O)) in
  fst r = Err (Errorf_w "consensus: " Canceled) /\ chats (log (snd r)) = O.
Proof. vm_compute. split; reflexivity. Qed.

(** C7: a reply that carries no choice makes the judge panic, where the
    engine, on the same reply, records an empty turn. *)
Theorem Evaluate_empty_choices_panics :
  fst (sim.judge_run (sim.world [sim.no_choice] None))
  = Panic "index out of range [0] with length 0".
Proof. vm_compute. reflexivity. Qed.

End judge_runs.

(* ===================================================================== *)
(** * The engine: what a run does to the transcript and to the log *)
(* ===================================================================== *)

Module engine.

Import openrouter debate.

(** ** The course of a run, as relations

    Each relation ties the transcript before, the events added to the log,
    the outcome, and the transcript after.  They are shown below to hold of
    the functions of the model, whatever the world does. *)

Definition not_ok (A : Type) (r : Res A) : Prop :=
  match r with
  | Ok _ => False
  | _ => True
  end.

(** An outcome that is not a value, seen at another type, its error passed
    through [wrapper]. *)
Definition failed (A B : Type) (wrapper : error -> error) (r : Res A) : Res B :=
  match r with
  | Err e => Err (wrapper e)
  | Panic msg => Panic msg
  | _ => Diverge
  end.

Arguments failed {A B} wrapper r.

Definition same (e : error) : error := e.

(** One turn of [agent] in round [round]. *)
Inductive turn_run (round : Z) (agent : Agent) (tr : Transcript)
  : list Event -> Res unit -> Transcript -> Prop :=
| turn_cancelled (err : error) :
    turn_run round agent tr [EvErr (Some err)]
             (Err (Errorf_w "debate: " err)) tr
| turn_failed (msgs : list Message) (r : Res ChatResponse) :
    not_ok r ->
    turn_run round agent tr [EvErr None; EvChat (Model agent) msgs r]
             (failed (Errorf_w ("debate: agent " ++ Name agent ++ ": ")) r) tr
| turn_done (msgs : list Message) (resp : ChatResponse) :
    turn_run round agent tr
             [EvErr None; EvChat (Model agent) msgs (Ok resp);
              EvTurn (turn_of round agent resp)]
             (Ok tt) (append_turn (turn_of round agent resp) tr).

(** The turns of the agents [ags], in order, up to the first failure. *)
Inductive agents_run (round : Z)
  : list Agent -> Transcript -> list Event -> Res unit -> Transcript -> Prop :=
| agents_nil (tr : Transcript) : agents_run round [] tr [] (Ok tt) tr
| agents_stop (a : Agent) (ags : list Agent) (tr tr' : Transcript)
    (evs : list Event) (out : Res unit) :
    turn_run round a tr evs out tr' -> not_ok out ->
    agents_run round (a :: ags) tr evs out tr'
| agents_next (a : Agent) (ags : list Agent) (tr tr1 tr2 : Transcript)
    (evs1 evs2 : list Event) (out : Res unit) :
    turn_run round a tr evs1 (Ok tt) tr1 ->
    agents_run round ags tr1 evs2 out tr2 ->
    agents_run round (a :: ags) tr (evs1 ++ evs2) out tr2.

(** One round: the turns, then the counter when all of them were made. *)
Definition round_run (ags : list Agent) (round : Z) (tr : Transcript)
    (evs : list Event) (out : Res unit) (tr' : Transcript) : Prop :=
  exists tr1,
    agents_run round ags tr evs out tr1 /\
    tr' = match out with
          | Ok _ => set_Rounds round tr1
          | _ => tr1
          end.

(** The rounds [rounds], in order, up to the first failure. *)
Inductive rounds_run (ags : list Agent)
  : list Z -> Transcript -> list Event -> Res unit -> Transcript -> Prop :=
| rounds_nil (tr : Transcript) : rounds_run ags [] tr [] (Ok tt) tr
| rounds_stop (r : Z) (rs : list Z) (tr tr' : Transcript) (evs : list Event)
    (out : Res unit) :
    round_run ags r tr evs out tr' -> not_ok out ->
    rounds_run ags (r :: rs) tr evs out tr'
| rounds_next (r : Z) (rs : list Z) (tr tr1 tr2 : Transcript)
    (evs1 evs2 : list Event) (out : Res unit) :
    round_run ags r tr evs1 (Ok tt) tr1 ->
    rounds_run ags rs tr1 evs2 out tr2 ->
    rounds_run ags (r :: rs) tr (evs1 ++ evs2) out tr2.

(** Phase 1 from round [round] on, [consensus] being the last verdict so
    far. *)
Inductive free_run (ags : list Agent) (minR maxR : Z)
  : Z -> option ConsensusResult -> Transcript -> list Event ->
    Res (option ConsensusResult) -> Transcript -> Prop :=
| free_exit (round : Z) (consensus : option ConsensusResult) (tr : Transcript) :
    maxR < round ->
    free_run ags minR maxR round consensus tr [] (Ok consensus) tr
| free_diverge (round : Z) (consensus : option ConsensusResult) (tr : Transcript) :
    free_run ags minR maxR round consensus tr [] Diverge tr
| free_round_failed (round : Z) (consensus : option ConsensusResult)
    (tr tr' : Transcript) (evs : list Event) (out : Res unit) :
    round <= maxR -> round_run ags round tr evs out tr' -> not_ok out ->
    free_run ags minR maxR round consensus tr evs (failed same out) tr'
| free_skip (round : Z) (consensus : option ConsensusResult)
    (tr tr1 tr2 : Transcript) (evs1 evs2 : list Event)
    (out : Res (option ConsensusResult)) :
    round <= maxR -> round < minR ->
    round_run ags round tr evs1 (Ok tt) tr1 ->
    free_run ags minR maxR (wrap (round + 1)) consensus tr1 evs2 out tr2 ->
    free_run ags minR maxR round consensus tr (evs1 ++ evs2) out tr2
| free_judge_failed (round : Z) (consensus : option ConsensusResult)
    (tr tr1 : Transcript) (evs1 : list Event) (r : Res ConsensusResult) :
    round <= maxR -> minR <= round ->
    round_run ags round tr evs1 (Ok tt) tr1 -> not_ok r ->
    free_run ags minR maxR round consensus tr (evs1 ++ [EvEvaluate tr1 r])
             (failed (Errorf_w "debate: consensus evaluation: ") r) tr1
| free_trigger (round : Z) (consensus : option ConsensusResult)
    (tr tr1 : Transcript) (evs1 : list Event) (c : ConsensusResult) :
    round <= maxR -> minR <= round ->
    round_run ags round tr evs1 (Ok tt) tr1 -> triggers c = true ->
    free_run ags minR maxR round consensus tr (evs1 ++ [EvEvaluate tr1 (Ok c)])
             (Ok (Some c)) tr1
| free_continue (round : Z) (consensus : option ConsensusResult)
    (tr tr1 tr2 : Transcript) (evs1 evs2 : list Event) (c : ConsensusResult)
    (out : Res (option ConsensusResult)) :
    round <= maxR -> minR <= round ->
    round_run ags round tr evs1 (Ok tt) tr1 -> triggers c = false ->
    free_run ags minR maxR (wrap (round + 1)) (Some c) tr1 evs2 out tr2 ->
    free_run ags minR maxR round consensus tr
             (evs1 ++ EvEvaluate tr1 (Ok c) :: evs2) out tr2.

(** The rounds of phase 2 from [start]: three of them, or none when
    [start + 3] overflows. *)
Definition tenth_rounds (start : Z) : list Z :=
  if start + tenthManRounds <=? max_int then [start; start + 1; start + 2] else [].

(** ** Reading a log *)

(** The turns a log records. *)
Fixpoint turns_of (evs : list Event) : list Turn :=
  match evs with
  | [] => []
  | EvTurn t :: rest => t :: turns_of rest
  | _ :: rest => turns_of rest
  end.

(** Who spoke, and in which round. *)
Definition key (t : Turn) : Z * Agent := (Round t, Agent_ t).

(** The events of a turn: no verdict, no contrarian. *)
Definition turn_event (ev : Event) : Prop :=
  match ev with
  | EvErr _ | EvChat _ _ _ | EvTurn _ => True
  | _ => False
  end.

(** An event of phase 1 that does not end it. *)
Definition quiet (ev : Event) : Prop :=
  match ev with
  | EvEvaluate _ (Ok c) => triggers c = false
  | EvBuildAgent _ => False
  | _ => True
  end.

(** Anything but a cancellation check that saw the context done. *)
Definition calm (ev : Event) : Prop :=
  match ev with
  | EvErr (Some _) => False
  | _ => True
  end.

Definition is_clear (ev : Event) : bool :=
  match ev with
  | EvErr None => true
  | _ => false
  end.

(** Every model call comes right after a cancellation check that saw
    nothing; [prev] tells whether the event before the list was one. *)
Fixpoint checked_from (prev : bool) (evs : list Event) : bool :=
  match evs with
  | [] => true
  | ev :: rest =>
      match ev with
      | EvChat _ _ _ => prev
      | _ => true
      end && checked_from (is_clear ev) rest
  end.

Definition checked (evs : list Event) : Prop := checked_from false evs = true.

(** A log with no cancellation seen, or one that ends with it, the outcome
    being that cancellation under the prefix of the engine. *)
Definition cancel_shape (A : Type) (evs : list Event) (out : Res A) : Prop :=
  Forall calm evs \/
  exists b err, evs = b ++ [EvErr (Some err)] /\ Forall calm b /\
                out = Err (Errorf_w "debate: " err).

Lemma turns_of_app (l1 l2 : list Event) :
  turns_of (l1 ++ l2) = turns_of l1 ++ turns_of l2.
Proof.
  induction l1 as [|ev l1 IH]; [reflexivity |].
  destruct ev; simpl; rewrite IH; reflexivity.
Qed.

Lemma turn_event_no_turns_change (evs : list Event) :
  Forall turn_event evs -> Forall quiet evs.
Proof.
  intros H. eapply Forall_impl; [| exact H].
  intros [] Ht; simpl in *; auto; contradiction.
Qed.

Lemma checked_from_weaken (prev : bool) (evs : list Event) :
  checked_from false evs = true -> checked_from prev evs = true.
Proof.
  destruct evs as [|ev rest]; [reflexivity |].
  simpl. destruct ev; simpl; try (intros H; exact H). discriminate.
Qed.

Lemma checked_from_app (prev : bool) (l1 l2 : list Event) :
  checked_from prev l1 = true -> checked l2 ->
  checked_from prev (l1 ++ l2) = true.
Proof.
  revert prev. induction l1 as [|ev l1 IH]; intros prev H1 H2.
  - apply checked_from_weaken. exact H2.
  - simpl in *. apply andb_true_iff in H1. destruct H1 as [Ha Hb].
    rewrite Ha. simpl. apply IH; assumption.
Qed.

Lemma checked_app (l1 l2 : list Event) :
  checked l1 -> checked l2 -> checked (l1 ++ l2).
Proof. apply checked_from_app. Qed.

(** The reading of [checked] on a split of the log. *)
Lemma checked_split (evs : list Event) :
  checked evs ->
  forall b m msgs r rest,
    evs = b ++ EvChat m msgs r :: rest -> exists b', b = b' ++ [EvErr None].
Proof.
  unfold checked.
  assert (G: forall evs prev,
             checked_from prev evs = true ->
             forall b m msgs r rest,
               evs = b ++ EvChat m msgs r :: rest ->
               (b = [] /\ prev = true) \/ exists b', b = b' ++ [EvErr None]).
  { induction evs0 as [|ev evs0 IH]; intros prev H b m msgs r rest E.
    - destruct b; discriminate.
    - simpl in H. apply andb_true_iff in H. destruct H as [Ha Hb].
      destruct b as [|x b]; simpl in E; inversion E; subst.
      + left. auto.
      + right. destruct (IH _ Hb b m msgs r rest eq_refl) as [[-> Hc] | [b' ->]].
        * exists []. destruct x as [[e|] | | | |]; simpl in Hc; try discriminate.
          reflexivity.
        * exists (x :: b'). reflexivity. }
  intros H b m msgs r rest E.
  destruct (G evs false H b m msgs r rest E) as [[_ Habs] | Hb];
    [discriminate | exact Hb].
Qed.

Lemma cancel_shape_calm (A : Type) (evs : list Event) (a : A) :
  cancel_shape evs (Ok a) -> Forall calm evs.
Proof.
  intros [H | [b [err [_ [_ H]]]]]; [exact H | discriminate].
Qed.

Lemma cancel_shape_app (A : Type) (l1 l2 : list Event) (out : Res A) :
  Forall calm l1 -> cancel_shape l2 out -> cancel_shape (l1 ++ l2) out.
Proof.
  intros H1 [H2 | [b [err [-> [Hb ->]]]]].
  - left. apply Forall_app. auto.
  - right. exists (l1 ++ b), err. rewrite app_assoc.
    repeat split; auto. apply Forall_app. auto.
Qed.

(** The reading of [cancel_shape] on a split of the log. *)
Lemma cancel_shape_split (A : Type) (evs : list Event) (out : Res A) :
  cancel_shape evs out ->
  forall b err rest,
    evs = b ++ EvErr (Some err) :: rest ->
    rest = [] /\ out = Err (Errorf_w "debate: " err).
Proof.
  intros [H | [b0 [err0 [E0 [Hb ->]]]]] b err rest E.
  - rewrite E in H. apply Forall_app in H. destruct H as [_ H].
    inversion H as [|? ? Hc _]. contradiction.
  - rewrite E0 in E. symmetry in E.
    destruct rest as [|x rest].
    + apply app_inj_tail in E. destruct E as [_ E]. inversion E. auto.
    + exfalso.
      assert (Hin: In (EvErr (Some err)) b0).
      { destruct (exists_last (l := x :: rest)) as [l' [y Hl]]; [discriminate |].
        rewrite Hl in E.
        change (b ++ EvErr (Some err) :: l' ++ [y])
          with (b ++ (EvErr (Some err) :: l') ++ [y]) in E.
        rewrite app_assoc in E. apply app_inj_tail in E.
        destruct E as [E _]. rewrite <- E. apply in_or_app. right. left.
        reflexivity. }
      rewrite Forall_forall in Hb. apply (Hb _ Hin).
Qed.

(** ** Facts on the relations *)

(** What never changes but by appending: the topic, the phase, the turns. *)
Definition kept (tr tr' : Transcript) (evs : list Event) : Prop :=
  Topic tr' = Topic tr /\ Phase_ tr' = Phase_ tr /\
  Turns tr' = Turns tr ++ turns_of evs.

Lemma kept_refl (tr : Transcript) : kept tr tr [].
Proof. unfold kept. simpl. rewrite app_nil_r. auto. Qed.

Lemma kept_trans (tr tr1 tr2 : Transcript) (evs1 evs2 : list Event) :
  kept tr tr1 evs1 -> kept tr1 tr2 evs2 -> kept tr tr2 (evs1 ++ evs2).
Proof.
  intros [T1 [P1 U1]] [T2 [P2 U2]]. unfold kept.
  rewrite T2, T1, P2, P1, U2, U1, turns_of_app, app_assoc. auto.
Qed.

Lemma turn_run_facts (round : Z) (a : Agent) (tr tr' : Transcript)
    (evs : list Event) (out : Res unit) :
  turn_run round a tr evs out tr' ->
  kept tr tr' evs /\ Rounds tr' = Rounds tr /\
  Forall turn_event evs /\ checked evs /\ cancel_shape evs out /\
  match out with
  | Ok _ => map key (turns_of evs) = [(round, a)]
  | _ => turns_of evs = []
  end.
Proof.
  intros H. destruct H as [err | msgs r Hn | msgs resp].
  - split; [apply kept_refl |]. split; [reflexivity |].
    split; [repeat constructor |]. split; [reflexivity |].
    split; [| reflexivity].
    right. exists [], err. repeat split; auto.
  - split; [apply kept_refl |]. split; [reflexivity |].
    split; [repeat constructor |].
    split; [reflexivity |].
    split; [left; repeat constructor |].
    destruct r; simpl in *; try reflexivity; contradiction.
  - split; [unfold kept; simpl; auto |]. split; [reflexivity |].
    split; [repeat constructor |]. split; [reflexivity |].
    split; [left; repeat constructor | reflexivity].
Qed.

Lemma agents_run_facts (round : Z) (ags : list Agent) (tr tr' : Transcript)
    (evs : list Event) (out : Res unit) :
  agents_run round ags tr evs out tr' ->
  kept tr tr' evs /\ Rounds tr' = Rounds tr /\
  Forall turn_event evs /\ checked evs /\ cancel_shape evs out /\
  exists k,
    map key (turns_of evs) = map (pair round) (firstn k ags) /\
    match out with
    | Ok _ => k = List.length ags
    | _ => (k < List.length ags)%nat
    end.
Proof.
  induction 1 as [tr | a ags tr tr' evs out Ht Hn
                 | a ags tr tr1 tr2 evs1 evs2 out Ht Hrest IH].
  - split; [apply kept_refl |]. split; [reflexivity |].
    split; [constructor |]. split; [reflexivity |].
    split; [left; constructor |]. exists O. auto.
  - destruct (turn_run_facts Ht) as [K [R [E [C [S T]]]]].
    repeat (split; [assumption |]).
    exists O. destruct out; try contradiction; rewrite T; simpl; split; auto; lia.
  - destruct (turn_run_facts Ht) as [K1 [R1 [E1 [C1 [S1 T1]]]]].
    destruct IH as [K2 [R2 [E2 [C2 [S2 [k [T2 Hk]]]]]]].
    split; [eapply kept_trans; eauto |].
    split; [rewrite R2; exact R1 |].
    split; [apply Forall_app; auto |].
    split; [apply checked_app; auto |].
    split; [apply cancel_shape_app; [eapply cancel_shape_calm; eauto | exact S2] |].
    exists (S k). rewrite turns_of_app, map_app, T1, T2. simpl.
    split; [reflexivity |]. destruct out; lia.
Qed.

Lemma round_run_facts (ags : list Agent) (round : Z) (tr tr' : Transcript)
    (evs : list Event) (out : Res unit) :
  round_run ags round tr evs out tr' ->
  kept tr tr' evs /\ Forall turn_event evs /\ checked evs /\
  cancel_shape evs out /\
  exists k,
    map key (turns_of evs) = map (pair round) (firstn k ags) /\
    match out with
    | Ok _ => k = List.length ags /\ Rounds tr' = round
    | _ => (k < List.length ags)%nat /\ Rounds tr' = Rounds tr
    end.
Proof.
  intros [tr1 [H ->]].
  destruct (agents_run_facts H) as [K [R [E [C [S [k [T Hk]]]]]]].
  split.
  { destruct out; [destruct K as [K1 [K2 K3]]; unfold kept; simpl; auto
                  | exact K | exact K | exact K]. }
  repeat (split; [assumption |]).
  exists k. split; [exact T |].
  destruct out; auto.
Qed.

(** A round that went through recorded one turn per agent, in order. *)
Lemma round_run_ok (ags : list Agent) (round : Z) (tr tr' : Transcript)
    (evs : list Event) :
  round_run ags round tr evs (Ok tt) tr' ->
  map key (turns_of evs) = map (pair round) ags /\ Rounds tr' = round.
Proof.
  intros H. destruct (round_run_facts H) as [_ [_ [_ [_ [k [T [-> R]]]]]]].
  rewrite firstn_all in T. auto.
Qed.

(** [count] round numbers from [start] on. *)
Fixpoint Zseq (start : Z) (count : nat) : list Z :=
  match count with
  | O => []
  | S n => start :: Zseq (start + 1) n
  end.

(** Each agent of [ags] once in every round of [rounds], round by round and,
    within a round, in the order of [ags]. *)
Definition schedule (ags : list Agent) (rounds : list Z) : list (Z * Agent) :=
  flat_map (fun r => map (pair r) ags) rounds.

Lemma Zseq_length (start : Z) (count : nat) : List.length (Zseq start count) = count.
Proof.
  revert start. induction count as [|n IH]; intros start; simpl; [| rewrite IH];
    reflexivity.
Qed.

Lemma schedule_length (ags : list Agent) (rounds : list Z) :
  List.length (schedule ags rounds) = (List.length rounds * List.length ags)%nat.
Proof.
  unfold schedule. induction rounds as [|r rs IH]; [reflexivity |].
  simpl. rewrite length_app, length_map, IH. reflexivity.
Qed.

Lemma last_from_head (A : Type) (l : list A) (x d : A) :
  last (x :: l) d = last l x.
Proof.
  revert x d. induction l as [|a l IH]; intros x d; [reflexivity |].
  change (last (a :: l) d = last (a :: l) x).
  rewrite (IH a d), (IH a x). reflexivity.
Qed.

Lemma wrap_below (z : Z) : min_int <= z -> wrap z <= z.
Proof.
  unfold wrap, min_int. intros H.
  assert (G: (z + 2 ^ 63) mod 2 ^ 64 <= z + 2 ^ 63) by (apply Z.mod_le; lia).
  lia.
Qed.

Lemma wrap_succ (z : Z) : is_int z -> z < max_int -> wrap (z + 1) = z + 1.
Proof.
  intros H1 H2. apply wrap_id. unfold is_int, min_int, max_int in *. lia.
Qed.

Lemma rounds_run_facts (ags : list Agent) (rs : list Z) (tr tr' : Transcript)
    (evs : list Event) (out : Res unit) :
  rounds_run ags rs tr evs out tr' ->
  kept tr tr' evs /\ Forall turn_event evs /\ checked evs /\
  cancel_shape evs out /\
  match out with
  | Ok _ => map key (turns_of evs) = schedule ags rs /\
            Rounds tr' = last rs (Rounds tr)
  | _ => True
  end.
Proof.
  induction 1 as [tr | r rs tr tr' evs out Hr Hn
                 | r rs tr tr1 tr2 evs1 evs2 out Hr Hrest IH].
  - split; [apply kept_refl |]. split; [constructor |].
    split; [reflexivity |]. split; [left; constructor |]. auto.
  - destruct (round_run_facts Hr) as [K [E [C [S _]]]].
    repeat (split; [assumption |]).
    destruct out; auto; contradiction.
  - destruct (round_run_facts Hr) as [K1 [E1 [C1 [S1 _]]]].
    destruct (round_run_ok Hr) as [T1 R1].
    destruct IH as [K2 [E2 [C2 [S2 T2]]]].
    split; [eapply kept_trans; eauto |].
    split; [apply Forall_app; auto |].
    split; [apply checked_app; auto |].
    split; [apply cancel_shape_app; [eapply cancel_shape_calm; eauto | exact S2] |].
    destruct out; auto. destruct T2 as [T2 R2].
    split.
    + rewrite turns_of_app, map_app, T1, T2. reflexivity.
    + rewrite last_from_head, R2, R1. reflexivity.
Qed.

(** Whether a verdict, if any, sends the debate into phase 2. *)
Definition triggered (o : option ConsensusResult) : bool :=
  match o with
  | Some c => triggers c
  | None => false
  end.

(** The contrarians a log records. *)
Fixpoint builds (evs : list Event) : list Agent :=
  match evs with
  | [] => []
  | EvBuildAgent a :: rest => a :: builds rest
  | _ :: rest => builds rest
  end.

Lemma builds_app (l1 l2 : list Event) : builds (l1 ++ l2) = builds l1 ++ builds l2.
Proof.
  induction l1 as [|ev l1 IH]; [reflexivity |].
  destruct ev; simpl; rewrite IH; reflexivity.
Qed.

Lemma quiet_no_builds (evs : list Event) : Forall quiet evs -> builds evs = [].
Proof.
  induction 1 as [|ev evs Hq _ IH]; [reflexivity |].
  destruct ev; simpl in *; auto; contradiction.
Qed.

Lemma cancel_shape_failed (A B : Type) (evs : list Event) (out : Res A) :
  cancel_shape evs out -> cancel_shape evs (failed (B := B) same out).
Proof.
  intros [H | [b [err [E [Hb ->]]]]]; [left; exact H |].
  right. exists b, err. auto.
Qed.

Lemma free_run_facts (ags : list Agent) (minR maxR round : Z)
    (cons : option ConsensusResult) (tr tr' : Transcript) (evs : list Event)
    (out : Res (option ConsensusResult)) :
  free_run ags minR maxR round cons tr evs out tr' ->
  kept tr tr' evs /\ checked evs /\ cancel_shape evs out.
Proof.
  induction 1 as [round cons tr Hx
                 | round cons tr
                 | round cons tr tr' evs out Hle Hr Hn
                 | round cons tr tr1 tr2 evs1 evs2 out Hle Hlt Hr Hrest IH
                 | round cons tr tr1 evs1 r Hle Hge Hr Hn
                 | round cons tr tr1 evs1 c Hle Hge Hr Ht
                 | round cons tr tr1 tr2 evs1 evs2 c out Hle Hge Hr Ht Hrest IH].
  - split; [apply kept_refl |]. split; [reflexivity | left; constructor].
  - split; [apply kept_refl |]. split; [reflexivity | left; constructor].
  - destruct (round_run_facts Hr) as [K [E [C [S _]]]].
    split; [exact K |]. split; [exact C |]. apply cancel_shape_failed. exact S.
  - destruct (round_run_facts Hr) as [K1 [E1 [C1 [S1 _]]]].
    destruct IH as [K2 [C2 S2]].
    split; [eapply kept_trans; eauto |].
    split; [apply checked_app; auto |].
    apply cancel_shape_app; [eapply cancel_shape_calm; eauto | exact S2].
  - destruct (round_run_facts Hr) as [K1 [E1 [C1 [S1 _]]]].
    split; [eapply kept_trans; [exact K1 | apply kept_refl] |].
    split; [apply checked_app; [exact C1 | reflexivity] |].
    left. apply Forall_app. split; [eapply cancel_shape_calm; eauto |].
    repeat constructor.
  - destruct (round_run_facts Hr) as [K1 [E1 [C1 [S1 _]]]].
    split; [eapply kept_trans; [exact K1 | apply kept_refl] |].
    split; [apply checked_app; [exact C1 | reflexivity] |].
    left. apply Forall_app. split; [eapply cancel_shape_calm; eauto |].
    repeat constructor.
  - destruct (round_run_facts Hr) as [K1 [E1 [C1 [S1 _]]]].
    destruct IH as [K2 [C2 S2]].
    change (evs1 ++ EvEvaluate tr1 (Ok c) :: evs2)
      with (evs1 ++ [EvEvaluate tr1 (Ok c)] ++ evs2).
    split; [eapply kept_trans; [exact K1 |];
            eapply kept_trans; [apply kept_refl | exact K2] |].
    split; [apply checked_app; [exact C1 |];
            apply checked_app; [reflexivity | exact C2] |].
    apply cancel_shape_app; [eapply cancel_shape_calm; eauto |].
    apply cancel_shape_app; [repeat constructor | exact S2].
Qed.

(** The verdicts of phase 1: none of them triggers, but the last one when
    the outcome is a triggering verdict, and that one was given on a
    transcript of at least [minR] rounds. *)
Lemma free_run_verdicts (ags : list Agent) (minR maxR round : Z)
    (cons : option ConsensusResult) (tr tr' : Transcript) (evs : list Event)
    (out : Res (option ConsensusResult)) :
  free_run ags minR maxR round cons tr evs out tr' ->
  triggered cons = false ->
  match out with
  | Ok o =>
      if triggered o then
        exists evs1 c,
          o = Some c /\ evs = evs1 ++ [EvEvaluate tr' (Ok c)] /\
          Forall quiet evs1 /\ minR <= Rounds tr'
      else Forall quiet evs
  | _ => Forall quiet evs
  end.
Proof.
  induction 1 as [round cons tr Hx
                 | round cons tr
                 | round cons tr tr' evs out Hle Hr Hn
                 | round cons tr tr1 tr2 evs1 evs2 out Hle Hlt Hr Hrest IH
                 | round cons tr tr1 evs1 r Hle Hge Hr Hn
                 | round cons tr tr1 evs1 c Hle Hge Hr Ht
                 | round cons tr tr1 tr2 evs1 evs2 c out Hle Hge Hr Ht Hrest IH];
    intros Hc.
  - rewrite Hc. constructor.
  - constructor.
  - destruct (round_run_facts Hr) as [_ [E _]].
    apply turn_event_no_turns_change in E.
    destruct out; simpl; auto; contradiction.
  - destruct (round_run_facts Hr) as [_ [E _]].
    apply turn_event_no_turns_change in E.
    specialize (IH Hc).
    destruct out as [o | | |]; try (apply Forall_app; auto).
    destruct (triggered o); [| apply Forall_app; auto].
    destruct IH as [l [c [Ho [El [Hq Hm]]]]].
    exists (evs1 ++ l), c. rewrite El, app_assoc.
    repeat split; auto. apply Forall_app; auto.
  - destruct (round_run_facts Hr) as [_ [E _]].
    apply turn_event_no_turns_change in E.
    assert (Forall quiet (evs1 ++ [EvEvaluate tr1 r])).
    { apply Forall_app. split; [exact E |].
      constructor; [| constructor]. destruct r; simpl; auto; contradiction. }
    destruct r; simpl; auto; contradiction.
  - destruct (round_run_facts Hr) as [_ [E _]].
    apply turn_event_no_turns_change in E.
    destruct (round_run_ok Hr) as [_ R].
    simpl. rewrite Ht. exists evs1, c. repeat split; auto. lia.
  - destruct (round_run_facts Hr) as [_ [E _]].
    apply turn_event_no_turns_change in E.
    specialize (IH Ht).
    change (evs1 ++ EvEvaluate tr1 (Ok c) :: evs2)
      with (evs1 ++ [EvEvaluate tr1 (Ok c)] ++ evs2).
    assert (Q: Forall quiet (evs1 ++ [EvEvaluate tr1 (Ok c)])).
    { apply Forall_app. split; [exact E |]. repeat constructor. exact Ht. }
    rewrite app_assoc.
    destruct out as [o | | |]; try (apply Forall_app; auto).
    destruct (triggered o); [| apply Forall_app; auto].
    destruct IH as [l [c0 [Ho [El [Hq Hm]]]]].
    exists ((evs1 ++ [EvEvaluate tr1 (Ok c)]) ++ l), c0. rewrite El, app_assoc.
    repeat split; auto. apply Forall_app; auto.
Qed.

(** With [maxR] at the top of the integers the loop of phase 1 is left by
    a trigger only. *)
Lemma free_run_no_exit (ags : list Agent) (minR maxR round : Z)
    (cons : option ConsensusResult) (tr tr' : Transcript) (evs : list Event)
    (out : Res (option ConsensusResult)) :
  free_run ags minR maxR round cons tr evs out tr' ->
  forall o, out = Ok o -> is_int round -> max_int <= maxR ->
  Forall quiet evs -> False.
Proof.
  induction 1 as [round cons tr Hx
                 | round cons tr
                 | round cons tr tr' evs out Hle Hr Hn
                 | round cons tr tr1 tr2 evs1 evs2 out Hle Hlt Hr Hrest IH
                 | round cons tr tr1 evs1 r Hle Hge Hr Hn
                 | round cons tr tr1 evs1 c Hle Hge Hr Ht
                 | round cons tr tr1 tr2 evs1 evs2 c out Hle Hge Hr Ht Hrest IH];
    intros o Eo Hi Hm Hq.
  - unfold is_int in Hi. lia.
  - discriminate.
  - destruct out; simpl in *; try discriminate; contradiction.
  - apply Forall_app in Hq. destruct Hq as [_ Hq].
    apply (IH o Eo (wrap_is_int _) Hm Hq).
  - destruct r; simpl in *; try discriminate; contradiction.
  - apply Forall_app in Hq. destruct Hq as [_ Hq].
    inversion Hq as [|? ? Hq1 _]. simpl in Hq1. congruence.
  - apply Forall_app in Hq. destruct Hq as [_ Hq].
    inversion Hq as [|? ? _ Hq2].
    apply (IH o Eo (wrap_is_int _) Hm Hq2).
Qed.

(** The turns of a phase 1 that ran to its end without a trigger: every
    round from [round] to [maxR], each agent once per round. *)
Lemma free_run_schedule (ags : list Agent) (minR maxR round : Z)
    (cons : option ConsensusResult) (tr tr' : Transcript) (evs : list Event)
    (out : Res (option ConsensusResult)) :
  free_run ags minR maxR round cons tr evs out tr' ->
  forall o, out = Ok o -> is_int round -> Forall quiet evs ->
  map key (turns_of evs) = schedule ags (Zseq round (Z.to_nat (maxR - round + 1))).
Proof.
  induction 1 as [round cons tr Hx
                 | round cons tr
                 | round cons tr tr' evs out Hle Hr Hn
                 | round cons tr tr1 tr2 evs1 evs2 out Hle Hlt Hr Hrest IH
                 | round cons tr tr1 evs1 r Hle Hge Hr Hn
                 | round cons tr tr1 evs1 c Hle Hge Hr Ht
                 | round cons tr tr1 tr2 evs1 evs2 c out Hle Hge Hr Ht Hrest IH];
    intros o Eo Hi Hq.
  - replace (Z.to_nat (maxR - round + 1)) with O by lia. reflexivity.
  - discriminate.
  - destruct out; simpl in *; try discriminate; contradiction.
  - apply Forall_app in Hq. destruct Hq as [_ Hq].
    destruct (Z.eq_dec round max_int) as [Emax | Nmax].
    { exfalso. apply (free_run_no_exit Hrest Eo (wrap_is_int _)); [lia | exact Hq]. }
    assert (Hs: wrap (round + 1) = round + 1)
      by (apply wrap_succ; [exact Hi | unfold is_int in Hi; lia]).
    specialize (IH o Eo (wrap_is_int _) Hq). rewrite Hs in IH.
    destruct (round_run_ok Hr) as [T1 _].
    replace (Z.to_nat (maxR - round + 1)) with (S (Z.to_nat (maxR - (round + 1) + 1)))
      by lia.
    rewrite turns_of_app, map_app, T1, IH. reflexivity.
  - destruct r; simpl in *; try discriminate; contradiction.
  - apply Forall_app in Hq. destruct Hq as [_ Hq].
    inversion Hq as [|? ? Hq1 _]. simpl in Hq1. congruence.
  - apply Forall_app in Hq. destruct Hq as [_ Hq].
    inversion Hq as [|? ? _ Hq2].
    destruct (Z.eq_dec round max_int) as [Emax | Nmax].
    { exfalso. apply (free_run_no_exit Hrest Eo (wrap_is_int _)); [lia | exact Hq2]. }
    assert (Hs: wrap (round + 1) = round + 1)
      by (apply wrap_succ; [exact Hi | unfold is_int in Hi; lia]).
    specialize (IH o Eo (wrap_is_int _) Hq2). rewrite Hs in IH.
    destruct (round_run_ok Hr) as [T1 _].
    replace (Z.to_nat (maxR - round + 1)) with (S (Z.to_nat (maxR - (round + 1) + 1)))
      by lia.
    change (evs1 ++ EvEvaluate tr1 (Ok c) :: evs2)
      with (evs1 ++ [EvEvaluate tr1 (Ok c)] ++ evs2).
    rewrite !turns_of_app, !map_app, T1, IH. reflexivity.
Qed.

(** A verdict once given is never dropped. *)
Lemma free_run_keeps_verdict (ags : list Agent) (minR maxR round : Z)
    (cons : option ConsensusResult) (tr tr' : Transcript) (evs : list Event)
    (out : Res (option ConsensusResult)) :
  free_run ags minR maxR round cons tr evs out tr' ->
  forall o, out = Ok o -> cons <> None -> o <> None.
Proof.
  induction 1 as [round cons tr Hx
                 | round cons tr
                 | round cons tr tr' evs out Hle Hr Hn
                 | round cons tr tr1 tr2 evs1 evs2 out Hle Hlt Hr Hrest IH
                 | round cons tr tr1 evs1 r Hle Hge Hr Hn
                 | round cons tr tr1 evs1 c Hle Hge Hr Ht
                 | round cons tr tr1 tr2 evs1 evs2 c out Hle Hge Hr Ht Hrest IH];
    intros o Eo Hc.
  - congruence.
  - discriminate.
  - destruct out; simpl in *; try discriminate; contradiction.
  - apply (IH o Eo Hc).
  - destruct r; simpl in *; try discriminate; contradiction.
  - inversion Eo. discriminate.
  - apply (IH o Eo). discriminate.
Qed.

(** Phase 1 started at or before round [minR], with [minR <= maxR], ends
    well only after the judge was asked on the transcript of round
    [minR], and then with a verdict. *)
Lemma free_run_judged (ags : list Agent) (minR maxR round : Z)
    (cons : option ConsensusResult) (tr tr' : Transcript) (evs : list Event)
    (out : Res (option ConsensusResult)) :
  free_run ags minR maxR round cons tr evs out tr' ->
  forall o, out = Ok o -> min_int <= round -> round <= minR -> minR <= maxR ->
  o <> None /\
  exists t c, In (EvEvaluate t (Ok c)) evs /\ Rounds t = minR.
Proof.
  induction 1 as [round cons tr Hx
                 | round cons tr
                 | round cons tr tr' evs out Hle Hr Hn
                 | round cons tr tr1 tr2 evs1 evs2 out Hle Hlt Hr Hrest IH
                 | round cons tr tr1 evs1 r Hle Hge Hr Hn
                 | round cons tr tr1 evs1 c Hle Hge Hr Ht
                 | round cons tr tr1 tr2 evs1 evs2 c out Hle Hge Hr Ht Hrest IH];
    intros o Eo Hlo Hmin Hmm.
  - lia.
  - discriminate.
  - destruct out; simpl in *; try discriminate; contradiction.
  - assert (Hw: wrap (round + 1) <= round + 1) by (apply wrap_below; lia).
    pose proof (wrap_is_int (round + 1)) as Hi. unfold is_int in Hi.
    destruct (IH o Eo) as [Ho [t [c [Hin Hr']]]]; try lia.
    split; [exact Ho |]. exists t, c. split; [| exact Hr'].
    apply in_or_app. right. exact Hin.
  - destruct r; simpl in *; try discriminate; contradiction.
  - destruct (round_run_ok Hr) as [_ R].
    split; [inversion Eo; discriminate |].
    exists tr1, c. split; [| lia].
    apply in_or_app. right. left. reflexivity.
  - destruct (round_run_ok Hr) as [_ R].
    split; [apply (free_run_keeps_verdict Hrest Eo); discriminate |].
    exists tr1, c. split; [| lia].
    apply in_or_app. right. left. reflexivity.
Qed.

(** The round at which phase 1 was left on a trigger. *)
Lemma free_run_boundary (ags : list Agent) (minR maxR round : Z)
    (cons : option ConsensusResult) (tr tr' : Transcript) (evs : list Event)
    (out : Res (option ConsensusResult)) :
  free_run ags minR maxR round cons tr evs out tr' ->
  forall c, out = Ok (Some c) -> triggers c = true -> triggered cons = false ->
  is_int round ->
  is_int (Rounds tr') /\ Rounds tr' <= maxR.
Proof.
  induction 1 as [round cons tr Hx
                 | round cons tr
                 | round cons tr tr' evs out Hle Hr Hn
                 | round cons tr tr1 tr2 evs1 evs2 out Hle Hlt Hr Hrest IH
                 | round cons tr tr1 evs1 r Hle Hge Hr Hn
                 | round cons tr tr1 evs1 c Hle Hge Hr Ht
                 | round cons tr tr1 tr2 evs1 evs2 c out Hle Hge Hr Ht Hrest IH];
    intros c0 Eo Htc Hc Hi.
  - inversion Eo; subst. simpl in Hc. congruence.
  - discriminate.
  - destruct out; simpl in *; try discriminate; contradiction.
  - apply (IH c0 Eo Htc Hc (wrap_is_int _)).
  - destruct r; simpl in *; try discriminate; contradiction.
  - destruct (round_run_ok Hr) as [_ R]. rewrite R. auto.
  - apply (IH c0 Eo Htc Ht (wrap_is_int _)).
Qed.

Section Runs.

Variable World : Type.

(** The model of the contrarian: [tenthManModel], or the model of the first
    agent when it is empty; [None] when there is no agent to fall back
    on. *)
Definition pick_model (e : Engine World) : option string :=
  if String.eqb (tenthManModel e) "" then
    match agents e with
    | a :: _ => Some (Model a)
    | [] => None
    end
  else Some (tenthManModel e).

(** The contrarian [Run] builds on the verdict [c], when it can: without a
    model or without an activator the run panics. *)
Definition contrarian (e : Engine World) (c : ConsensusResult) : option Agent :=
  match pick_model e, tenthMan e with
  | Some m, Some tm =>
      Some (BuildAgent tm (Position c)
              (wrap (Z.of_nat (List.length (agents e)) + 1)) m)
  | _, _ => None
  end.

(** The receiver once phase 2 has been entered with the contrarian [a]. *)
Definition entered (e : Engine World) (c : ConsensusResult) (a : Agent)
    (tr : Transcript) : Engine World :=
  with_transcript tr
    (with_consensusPosition (Position c) (with_agents (agents e ++ [a]) e)).

(** The course of [Run] on the receiver [e]: the events, the outcome, the
    receiver afterwards. *)
Inductive run_rel (e : Engine World)
  : list Event -> Res Result -> Engine World -> Prop :=
| run_free_failed (evs : list Event) (out : Res (option ConsensusResult))
    (tr1 : Transcript) :
    free_run (agents e) (minRounds e) (maxRounds e) 1 None (transcript e) evs out tr1 ->
    not_ok out ->
    run_rel e evs (failed same out) (with_transcript tr1 e)
| run_no_trigger (evs : list Event) (consensus : option ConsensusResult)
    (tr1 : Transcript) :
    free_run (agents e) (minRounds e) (maxRounds e) 1 None (transcript e) evs
             (Ok consensus) tr1 ->
    (forall c, consensus = Some c -> triggers c = false) ->
    run_rel e evs (Ok {| Transcript_ := tr1; Consensus := consensus |})
            (with_transcript tr1 e)
| run_panic (evs : list Event) (c : ConsensusResult) (tr1 : Transcript)
    (msg : string) :
    free_run (agents e) (minRounds e) (maxRounds e) 1 None (transcript e) evs
             (Ok (Some c)) tr1 ->
    triggers c = true -> contrarian e c = None ->
    run_rel e evs (Panic msg) (with_transcript (set_Phase TenthManPhase tr1) e)
| run_tenth_failed (evs1 evs2 : list Event) (c : ConsensusResult)
    (tr1 tr2 : Transcript) (a : Agent) (out : Res unit) :
    free_run (agents e) (minRounds e) (maxRounds e) 1 None (transcript e) evs1
             (Ok (Some c)) tr1 ->
    triggers c = true -> contrarian e c = Some a ->
    rounds_run (agents e ++ [a]) (tenth_rounds (wrap (Rounds tr1 + 1)))
               (set_Phase TenthManPhase tr1) evs2 out tr2 ->
    not_ok out ->
    run_rel e (evs1 ++ EvBuildAgent a :: evs2) (failed same out) (entered e c a tr2)
| run_final_failed (evs1 evs2 : list Event) (c : ConsensusResult)
    (tr1 tr2 : Transcript) (a : Agent) (r : Res ConsensusResult) :
    free_run (agents e) (minRounds e) (maxRounds e) 1 None (transcript e) evs1
             (Ok (Some c)) tr1 ->
    triggers c = true -> contrarian e c = Some a ->
    rounds_run (agents e ++ [a]) (tenth_rounds (wrap (Rounds tr1 + 1)))
               (set_Phase TenthManPhase tr1) evs2 (Ok tt) tr2 ->
    not_ok r ->
    run_rel e (evs1 ++ EvBuildAgent a :: evs2 ++ [EvEvaluate tr2 r])
            (failed (Errorf_w "debate: final consensus evaluation: ") r)
            (entered e c a tr2)
| run_final (evs1 evs2 : list Event) (c c' : ConsensusResult)
    (tr1 tr2 : Transcript) (a : Agent) :
    free_run (agents e) (minRounds e) (maxRounds e) 1 None (transcript e) evs1
             (Ok (Some c)) tr1 ->
    triggers c = true -> contrarian e c = Some a ->
    rounds_run (agents e ++ [a]) (tenth_rounds (wrap (Rounds tr1 + 1)))
               (set_Phase TenthManPhase tr1) evs2 (Ok tt) tr2 ->
    run_rel e (evs1 ++ EvBuildAgent a :: evs2 ++ [EvEvaluate tr2 (Ok c')])
            (Ok {| Transcript_ := tr2; Consensus := Some c' |})
            (entered e c a tr2).

End Runs.

Section Soundness.

Variable World : Type.

Lemma with_transcript_same (e : Engine World) : with_transcript (transcript e) e = e.
Proof. destruct e; reflexivity. Qed.

(** The state after a step that only wrote the transcript and the log. *)
Definition stepped (s s' : St World) (evs : list Event) (tr' : Transcript) : Prop :=
  log s' = log s ++ evs /\ self s' = with_transcript tr' (self s).

Lemma stepped_refl (s : St World) : stepped s s [] (transcript (self s)).
Proof.
  split; [rewrite app_nil_r; reflexivity | rewrite with_transcript_same; reflexivity].
Qed.

Lemma stepped_trans (s s1 s2 : St World) (evs1 evs2 : list Event) (tr1 tr2 : Transcript) :
  stepped s s1 evs1 tr1 -> stepped s1 s2 evs2 tr2 -> stepped s s2 (evs1 ++ evs2) tr2.
Proof.
  intros [L1 S1] [L2 S2]. split.
  - rewrite L2, L1, app_assoc. reflexivity.
  - rewrite S2, S1. reflexivity.
Qed.

Lemma stepped_transcript (s s' : St World) (evs : list Event) (tr' : Transcript) :
  stepped s s' evs tr' -> transcript (self s') = tr'.
Proof. intros [_ S]. rewrite S. reflexivity. Qed.

Lemma stepped_agents (s s' : St World) (evs : list Event) (tr' : Transcript) :
  stepped s s' evs tr' -> agents (self s') = agents (self s).
Proof. intros [_ S]. rewrite S. reflexivity. Qed.

Lemma ctx_check_inv (ctx : Context World) (s s1 : St World) (r : Res (option error)) :
  ctx_err ctx s = (r, s1) ->
  exists o, r = Ok o /\ log s1 = log s ++ [EvErr o] /\ self s1 = self s.
Proof.
  unfold ctx_err, bind, get, emit, modify, ret.
  destruct (ctx_Err ctx (world s)) as [o w]. simpl.
  intros H. inversion H; subst. exists o. auto.
Qed.

Lemma chat_call_inv (ctx : Context World) (model : string) (msgs : list Message)
    (s s1 : St World) (r : Res ChatResponse) :
  chat ctx model msgs s = (r, s1) ->
  log s1 = log s ++ [EvChat model msgs r] /\ self s1 = self s.
Proof.
  unfold chat, bind, get, emit, modify, lift.
  destruct (ChatCompletion (llm (self s)) ctx model msgs (world s)) as [r0 w]. simpl.
  intros H. inversion H; subst. auto.
Qed.

Lemma evaluate_inv (ctx : Context World) (s s1 : St World) (r : Res ConsensusResult) :
  evaluate ctx s = (r, s1) ->
  log s1 = log s ++ [EvEvaluate (transcript (self s)) r] /\ self s1 = self s.
Proof.
  unfold evaluate, bind, get, emit, modify, lift.
  destruct (Evaluate (judge (self s)) ctx (transcript (self s)) (world s)) as [r0 w].
  simpl. intros H. inversion H; subst. auto.
Qed.

Lemma on_turn_inv (turn : Turn) (s s1 : St World) (r : Res unit) :
  on_turn turn s = (r, s1) -> r = Ok tt /\ log s1 = log s /\ self s1 = self s.
Proof.
  unfold on_turn, bind, get_self, update_world, modify, ret.
  destruct (OnTurn (self s)); intros H; inversion H; subst; auto.
Qed.

Lemma on_phase_inv (p : Phase) (s s1 : St World) (r : Res unit) :
  on_phase p s = (r, s1) -> r = Ok tt /\ log s1 = log s /\ self s1 = self s.
Proof.
  unfold on_phase, bind, get_self, update_world, modify, ret.
  destruct (OnPhase (self s)); intros H; inversion H; subst; auto.
Qed.

Lemma wrapping_inv (A : Type) (prefix : string) (m : M (St World) A) (s s1 : St World)
    (r : Res A) :
  wrapping prefix m s = (r, s1) ->
  exists r0, m s = (r0, s1) /\
             r = match r0 with
                 | Err e => Err (Errorf_w prefix e)
                 | other => other
                 end.
Proof.
  unfold wrapping. destruct (m s) as [r0 s0].
  destruct r0; intros H; inversion H; subst; eexists; split; reflexivity.
Qed.

Lemma runTurn_sound (ctx : Context World) (round : Z) (agent : Agent)
    (s s' : St World) (out : Res unit) :
  runTurn ctx round agent s = (out, s') ->
  exists evs tr',
    stepped s s' evs tr' /\
    turn_run round agent (transcript (self s)) evs out tr'.
Proof.
  unfold runTurn. unfold bind at 1.
  destruct (ctx_err ctx s) as [r0 s0] eqn:E0.
  apply ctx_check_inv in E0. destruct E0 as [o [-> [L0 S0]]].
  destruct o as [err|].
  { unfold raise. intros H. inversion H; subst.
    exists [EvErr (Some err)], (transcript (self s)). split.
    - split; [exact L0 | rewrite S0, with_transcript_same; reflexivity].
    - constructor. }
  unfold bind at 1. unfold get_self at 1. unfold bind at 1.
  match goal with
  | |- context [wrapping ?p (chat ctx ?m ?ms) s0] =>
      destruct (wrapping p (chat ctx m ms) s0) as [r1 s1] eqn:E1;
      set (msgs := ms) in *
  end.
  apply wrapping_inv in E1. destruct E1 as [r [E1 ->]].
  apply chat_call_inv in E1. destruct E1 as [L1 S1].
  destruct r as [resp|e|msg|].
  - unfold bind at 1. unfold update_self at 1, modify at 1.
    unfold bind at 1. unfold note at 1, modify at 1.
    intros H. apply on_turn_inv in H. destruct H as [-> [L2 S2]].
    simpl in L2, S2.
    exists [EvErr None; EvChat (Model agent) msgs (Ok resp);
            EvTurn (turn_of round agent resp)],
           (append_turn (turn_of round agent resp) (transcript (self s))).
    split.
    + split.
      * rewrite L2, L1, L0, <- !app_assoc. reflexivity.
      * rewrite S2, S1, S0. reflexivity.
    + constructor.
  - intros H. inversion H; subst.
    exists [EvErr None; EvChat (Model agent) msgs (Err e)], (transcript (self s)).
    split.
    + split; [rewrite L1, L0, <- app_assoc; reflexivity
             | rewrite S1, S0, with_transcript_same; reflexivity].
    + apply (turn_failed round agent (transcript (self s)) msgs (Err e)). exact I.
  - intros H. inversion H; subst.
    exists [EvErr None; EvChat (Model agent) msgs (Panic msg)], (transcript (self s)).
    split.
    + split; [rewrite L1, L0, <- app_assoc; reflexivity
             | rewrite S1, S0, with_transcript_same; reflexivity].
    + apply (turn_failed round agent (transcript (self s)) msgs (Panic msg)). exact I.
  - intros H. inversion H; subst.
    exists [EvErr None; EvChat (Model agent) msgs Diverge], (transcript (self s)).
    split.
    + split; [rewrite L1, L0, <- app_assoc; reflexivity
             | rewrite S1, S0, with_transcript_same; reflexivity].
    + apply (turn_failed round agent (transcript (self s)) msgs Diverge). exact I.
Qed.

Lemma runRound_agents_sound (ctx : Context World) (round : Z) :
  forall (ags : list Agent) (s s' : St World) (out : Res unit),
    runRound_agents ctx round ags s = (out, s') ->
    exists evs tr',
      stepped s s' evs tr' /\
      agents_run round ags (transcript (self s)) evs out tr'.
Proof.
  induction ags as [|a ags IH]; intros s s' out H.
  - simpl in H. unfold ret in H. inversion H; subst.
    exists [], (transcript (self s')). split; [apply stepped_refl | constructor].
  - simpl in H. unfold bind in H.
    destruct (runTurn ctx round a s) as [r1 s1] eqn:E1.
    apply runTurn_sound in E1. destruct E1 as [evs1 [tr1 [St1 T1]]].
    destruct r1 as [[]|e|msg|].
    + apply IH in H. destruct H as [evs2 [tr2 [St2 T2]]].
      rewrite (stepped_transcript St1) in T2.
      exists (evs1 ++ evs2), tr2. split.
      * eapply stepped_trans; eauto.
      * eapply agents_next; eauto.
    + inversion H; subst. exists evs1, tr1. split; auto.
      apply agents_stop; [exact T1 | exact I].
    + inversion H; subst. exists evs1, tr1. split; auto.
      apply agents_stop; [exact T1 | exact I].
    + inversion H; subst. exists evs1, tr1. split; auto.
      apply agents_stop; [exact T1 | exact I].
Qed.

Lemma runRound_sound (ctx : Context World) (round : Z) (s s' : St World)
    (out : Res unit) :
  runRound ctx round s = (out, s') ->
  exists evs tr',
    stepped s s' evs tr' /\
    round_run (agents (self s)) round (transcript (self s)) evs out tr'.
Proof.
  unfold runRound. unfold bind at 1. unfold get_self at 1. unfold bind at 1.
  destruct (runRound_agents ctx round (agents (self s)) s) as [r1 s1] eqn:E1.
  apply runRound_agents_sound in E1. destruct E1 as [evs [tr1 [[L1 S1] T1]]].
  destruct r1 as [[]|e|msg|].
  - unfold update_self, modify. intros H. inversion H; subst. simpl.
    exists evs, (set_Rounds round tr1). split.
    + split; [exact L1 |]. simpl. rewrite S1. reflexivity.
    + exists tr1. split; [exact T1 | reflexivity].
  - intros H. inversion H; subst. exists evs, tr1. split; [split; auto |].
    exists tr1. split; [exact T1 | reflexivity].
  - intros H. inversion H; subst. exists evs, tr1. split; [split; auto |].
    exists tr1. split; [exact T1 | reflexivity].
  - intros H. inversion H; subst. exists evs, tr1. split; [split; auto |].
    exists tr1. split; [exact T1 | reflexivity].
Qed.

Lemma stepped_config (s s' : St World) (evs : list Event) (tr' : Transcript) :
  stepped s s' evs tr' ->
  agents (self s') = agents (self s) /\
  minRounds (self s') = minRounds (self s) /\
  maxRounds (self s') = maxRounds (self s).
Proof. intros [_ S]. rewrite S. auto. Qed.

Lemma freeDebate_sound (ctx : Context World) :
  forall (fuel : nat) (round : Z) (consensus : option ConsensusResult)
         (s s' : St World) (out : Res (option ConsensusResult)),
    freeDebate ctx fuel round consensus s = (out, s') ->
    exists evs tr',
      stepped s s' evs tr' /\
      free_run (agents (self s)) (minRounds (self s)) (maxRounds (self s))
               round consensus (transcript (self s)) evs out tr'.
Proof.
  induction fuel as [|fuel IH]; intros round consensus s s' out H.
  { simpl in H. unfold diverge in H. inversion H; subst.
    exists [], (transcript (self s')). split; [apply stepped_refl | constructor]. }
  simpl in H. unfold bind at 1 in H. unfold get_self at 1 in H.
  destruct (round <=? maxRounds (self s)) eqn:Hmax.
  2:{ unfold ret in H. inversion H; subst. apply Z.leb_gt in Hmax.
      exists [], (transcript (self s')). split; [apply stepped_refl |].
      apply free_exit. exact Hmax. }
  apply Z.leb_le in Hmax.
  unfold bind at 1 in H.
  destruct (runRound ctx round s) as [r1 s1] eqn:E1.
  apply runRound_sound in E1. destruct E1 as [evs1 [tr1 [St1 R1]]].
  destruct (stepped_config St1) as [Ca [Cmin Cmax]].
  destruct r1 as [[]|e|msg|].
  2:{ inversion H; subst. exists evs1, tr1. split; auto.
      apply (@free_round_failed (agents (self s)) (minRounds (self s))
               (maxRounds (self s)) round consensus (transcript (self s)) tr1
               evs1 (Err e)); auto. exact I. }
  2:{ inversion H; subst. exists evs1, tr1. split; auto.
      apply (@free_round_failed (agents (self s)) (minRounds (self s))
               (maxRounds (self s)) round consensus (transcript (self s)) tr1
               evs1 (Panic msg)); auto. exact I. }
  2:{ inversion H; subst. exists evs1, tr1. split; auto.
      apply (@free_round_failed (agents (self s)) (minRounds (self s))
               (maxRounds (self s)) round consensus (transcript (self s)) tr1
               evs1 (@Diverge unit)); auto. exact I. }
  unfold bind at 1 in H. unfold get_self at 1 in H. rewrite Cmin in H.
  destruct (round >=? minRounds (self s)) eqn:Hmin.
  2:{ apply IH in H. destruct H as [evs2 [tr2 [St2 F2]]].
      rewrite Ca, Cmin, Cmax, (stepped_transcript St1) in F2.
      exists (evs1 ++ evs2), tr2. split; [eapply stepped_trans; eauto |].
      eapply free_skip; eauto.
      rewrite Z.geb_leb in Hmin. apply Z.leb_gt in Hmin. exact Hmin. }
  rewrite Z.geb_leb in Hmin. apply Z.leb_le in Hmin.
  unfold bind at 1 in H.
  destruct (wrapping "debate: consensus evaluation: " (evaluate ctx) s1)
    as [r2 s2] eqn:E2.
  apply wrapping_inv in E2. destruct E2 as [r [E2 ->]].
  apply evaluate_inv in E2. destruct E2 as [L2 S2].
  rewrite (stepped_transcript St1) in L2.
  assert (St2: stepped s s2 (evs1 ++ [EvEvaluate tr1 r]) tr1).
  { destruct St1 as [L1 S1]. split.
    - rewrite L2, L1, app_assoc. reflexivity.
    - rewrite S2. exact S1. }
  destruct r as [c|e|msg|].
  2:{ inversion H; subst. exists (evs1 ++ [EvEvaluate tr1 (Err e)]), tr1.
      split; auto.
      apply (@free_judge_failed (agents (self s)) (minRounds (self s))
               (maxRounds (self s)) round consensus (transcript (self s)) tr1
               evs1 (Err e)); auto. exact I. }
  2:{ inversion H; subst. exists (evs1 ++ [EvEvaluate tr1 (Panic msg)]), tr1.
      split; auto.
      apply (@free_judge_failed (agents (self s)) (minRounds (self s))
               (maxRounds (self s)) round consensus (transcript (self s)) tr1
               evs1 (Panic msg)); auto. exact I. }
  2:{ inversion H; subst. exists (evs1 ++ [EvEvaluate tr1 Diverge]), tr1.
      split; auto.
      apply (@free_judge_failed (agents (self s)) (minRounds (self s))
               (maxRounds (self s)) round consensus (transcript (self s)) tr1
               evs1 Diverge); auto. exact I. }
  destruct (triggers c) eqn:Htr.
  - unfold ret in H. inversion H; subst.
    exists (evs1 ++ [EvEvaluate tr1 (Ok c)]), tr1. split; auto.
    apply free_trigger; auto.
  - apply IH in H. destruct H as [evs3 [tr3 [St3 F3]]].
    destruct (stepped_config St2) as [Ca2 [Cmin2 Cmax2]].
    rewrite Ca2, Cmin2, Cmax2, (stepped_transcript St2) in F3.
    exists ((evs1 ++ [EvEvaluate tr1 (Ok c)]) ++ evs3), tr3. split.
    + eapply stepped_trans; eauto.
    + rewrite <- app_assoc. simpl. eapply free_continue; eauto.
Qed.

Lemma tenthManLoop_sound (ctx : Context World) (start : Z) (s s' : St World)
    (out : Res unit) :
  is_int start ->
  tenthManLoop ctx 4 start start s = (out, s') ->
  exists evs tr',
    stepped s s' evs tr' /\
    rounds_run (agents (self s)) (tenth_rounds start) (transcript (self s))
               evs out tr'.
Proof.
  intros Hint H. unfold tenth_rounds, tenthManRounds in *.
  assert (Hstep: forall (round : Z) (rs : list Z) (budget : nat) (s0 s1 : St World)
                        (o : Res unit),
             round < wrap (start + 3) -> wrap (round + 1) = round + 1 ->
             (forall s2 s3 o',
                 agents (self s2) = agents (self s0) ->
                 tenthManLoop ctx budget start (round + 1) s2 = (o', s3) ->
                 exists evs tr',
                   stepped s2 s3 evs tr' /\
                   rounds_run (agents (self s0)) rs (transcript (self s2)) evs o' tr') ->
             tenthManLoop ctx (S budget) start round s0 = (o, s1) ->
             exists evs tr',
               stepped s0 s1 evs tr' /\
               rounds_run (agents (self s0)) (round :: rs) (transcript (self s0))
                          evs o tr').
  { intros round rs budget s0 s1 o Hlt Hw Hrest Hrun.
    simpl in Hrun. unfold tenthManRounds in Hrun.
    apply Z.ltb_lt in Hlt. rewrite Hlt, Hw in Hrun.
    unfold bind in Hrun.
    destruct (runRound ctx round s0) as [r1 s1'] eqn:E1.
    apply runRound_sound in E1. destruct E1 as [evs1 [tr1 [St1 R1]]].
    destruct r1 as [[]|e|msg|].
    - apply Hrest in Hrun; [| apply (stepped_agents St1)].
      destruct Hrun as [evs2 [tr2 [St2 R2]]].
      rewrite (stepped_transcript St1) in R2.
      exists (evs1 ++ evs2), tr2. split; [eapply stepped_trans; eauto |].
      eapply rounds_next; eauto.
    - inversion Hrun; subst. exists evs1, tr1. split; auto.
      apply rounds_stop; [exact R1 | exact I].
    - inversion Hrun; subst. exists evs1, tr1. split; auto.
      apply rounds_stop; [exact R1 | exact I].
    - inversion Hrun; subst. exists evs1, tr1. split; auto.
      apply rounds_stop; [exact R1 | exact I]. }
  assert (Hexit: forall (round : Z) (budget : nat) (s0 s1 : St World) (o : Res unit),
             ~ round < wrap (start + 3) ->
             tenthManLoop ctx (S budget) start round s0 = (o, s1) ->
             exists evs tr',
               stepped s0 s1 evs tr' /\
               rounds_run (agents (self s0)) [] (transcript (self s0)) evs o tr').
  { intros round budget s0 s1 o Hge Hrun. simpl in Hrun.
    unfold tenthManRounds in Hrun.
    destruct (round <? wrap (start + 3)) eqn:E; [apply Z.ltb_lt in E; contradiction |].
    unfold ret in Hrun. inversion Hrun; subst.
    exists [], (transcript (self s1)). split; [apply stepped_refl | constructor]. }
  unfold is_int, min_int, max_int in *.
  destruct (start + 3 <=? 2 ^ 63 - 1) eqn:Hov.
  - apply Z.leb_le in Hov.
    assert (Hw: wrap (start + 3) = start + 3)
      by (apply wrap_id; unfold is_int, min_int, max_int; lia).
    apply (Hstep start [start + 1; start + 2] 3%nat s s' out); [lia | | | exact H].
    { apply wrap_id; unfold is_int, min_int, max_int; lia. }
    intros s2 s3 o2 A2 H2. rewrite <- A2.
    apply (Hstep (start + 1) [start + 2] 2%nat s2 s3 o2); [lia | | | exact H2].
    { apply wrap_id; unfold is_int, min_int, max_int; lia. }
    intros s4 s5 o4 A4 H4. rewrite <- A4.
    replace (start + 1 + 1) with (start + 2) in * by lia.
    apply (Hstep (start + 2) [] 1%nat s4 s5 o4); [lia | | | exact H4].
    { apply wrap_id; unfold is_int, min_int, max_int; lia. }
    intros s6 s7 o6 A6 H6. rewrite <- A6.
    apply (Hexit (start + 2 + 1) 0%nat s6 s7 o6); [lia | exact H6].
  - apply Z.leb_gt in Hov.
    apply (Hexit start 3%nat s s' out); [| exact H].
    unfold wrap. intros Hlt.
    assert (Hm: (start + 3 + 2 ^ 63) mod 2 ^ 64 = start + 3 + 2 ^ 63 - 2 ^ 64).
    { symmetry. apply Z.mod_unique with (q := 1); lia. }
    rewrite Hm in Hlt. lia.
Qed.

(** What phase 2 does from a state [s], as [tenthManPhase] runs it. *)
Definition tenth_post (c : ConsensusResult) (s s' : St World)
    (out : Res ConsensusResult) : Prop :=
  let e := self s in
  let tr1 := set_Phase TenthManPhase (transcript e) in
  (contrarian e c = None /\ (exists msg, out = Panic msg) /\
   log s' = log s /\ self s' = with_transcript tr1 e) \/
  (exists a evs2 out2 tr2,
      contrarian e c = Some a /\
      rounds_run (agents e ++ [a]) (tenth_rounds (wrap (Rounds (transcript e) + 1)))
                 tr1 evs2 out2 tr2 /\
      self s' = entered e c a tr2 /\
      ((not_ok out2 /\ out = failed same out2 /\
        log s' = log s ++ EvBuildAgent a :: evs2) \/
       (out2 = Ok tt /\
        exists r, log s' = log s ++ EvBuildAgent a :: evs2 ++ [EvEvaluate tr2 r] /\
                  out = match r with
                        | Ok c' => Ok c'
                        | _ => failed (Errorf_w "debate: final consensus evaluation: ") r
                        end))).

Lemma tenthManPhase_sound (ctx : Context World) (c : ConsensusResult)
    (s s' : St World) (out : Res ConsensusResult) :
  tenthManPhase ctx c s = (out, s') -> tenth_post c s s' out.
Proof.
  unfold tenthManPhase, tenth_post. cbv zeta.
  unfold bind at 1. unfold update_self at 1, modify at 1.
  unfold bind at 1.
  match goal with
  | |- context [on_phase TenthManPhase ?st] =>
      destruct (on_phase TenthManPhase st) as [r2 s2] eqn:E2
  end.
  apply on_phase_inv in E2. destruct E2 as [-> [L2 S2]]. simpl in L2, S2.
  unfold bind at 1. unfold get_self at 1. unfold bind at 1.
  set (e := self s) in *.
  set (tr1 := set_Phase TenthManPhase (transcript e)) in *.
  assert (Ha: agents (self s2) = agents e) by (rewrite S2; reflexivity).
  assert (Hm: tenthManModel (self s2) = tenthManModel e) by (rewrite S2; reflexivity).
  assert (Ht: tenthMan (self s2) = tenthMan e) by (rewrite S2; reflexivity).
  rewrite Ha, Hm, Ht.
  (* the model *)
  match goal with
  | |- context [(if String.eqb (tenthManModel e) "" then ?x else ?y) s2] =>
      set (pick := if String.eqb (tenthManModel e) "" then x else y)
  end.
  assert (Hpick: (exists m, pick s2 = (Ok m, s2) /\ pick_model e = Some m) \/
                 (exists msg, pick s2 = (Panic msg, s2) /\ pick_model e = None)).
  { unfold pick, pick_model. destruct (String.eqb (tenthManModel e) "").
    - destruct (agents e) as [|a0 ags].
      + right. eexists. split; reflexivity.
      + left. eexists. split; reflexivity.
    - left. eexists. split; reflexivity. }
  destruct Hpick as [[m [-> Hpm]] | [msg [-> Hpm]]].
  2:{ intros H. inversion H; subst. left.
      unfold contrarian. rewrite Hpm. repeat split; eauto. }
  (* the contrarian *)
  unfold bind at 1.
  destruct (tenthMan e) as [tm|] eqn:Etm.
  2:{ unfold panic. intros H. inversion H; subst. left.
      unfold contrarian. rewrite Hpm, Etm. repeat split; eauto. }
  set (a := BuildAgent tm (Position c) (wrap (Z.of_nat (List.length (agents e)) + 1)) m).
  assert (Hc: contrarian e c = Some a).
  { unfold contrarian. rewrite Hpm, Etm. reflexivity. }
  unfold bind at 1. unfold note at 1, modify at 1. unfold ret at 1.
  unfold bind at 1. unfold update_self at 1, modify at 1.
  unfold bind at 1. unfold update_self at 1, modify at 1.
  unfold bind at 1. unfold get_self at 1.
  cbn [self world log]. unfold bind at 1.
  match goal with
  | |- context [tenthManLoop ctx 4 ?st ?st ?sx] =>
      set (start := st); set (s3 := sx)
  end.
  assert (S3: self s3 = entered e c a tr1).
  { unfold s3. cbn [self]. rewrite S2. reflexivity. }
  assert (L3: log s3 = log s ++ [EvBuildAgent a]).
  { unfold s3. cbn [log]. rewrite L2. reflexivity. }
  assert (Hstart: start = wrap (Rounds (transcript e) + 1)).
  { unfold start. rewrite S2. reflexivity. }
  destruct (tenthManLoop ctx 4 start start s3) as [r4 s4] eqn:E4.
  apply tenthManLoop_sound in E4; [| rewrite Hstart; apply wrap_is_int].
  destruct E4 as [evs2 [tr2 [[L4 S4] R4]]].
  rewrite S3 in R4, S4. cbn [entered with_transcript agents transcript] in R4.
  rewrite Hstart in R4.
  assert (S4': self s4 = entered e c a tr2).
  { rewrite S4. reflexivity. }
  assert (L4': log s4 = log s ++ EvBuildAgent a :: evs2).
  { rewrite L4, L3, <- app_assoc. reflexivity. }
  destruct r4 as [[]|err|msg|].
  2:{ intros H. inversion H; subst. right. exists a, evs2, (Err err), tr2.
      repeat split; auto. left. repeat split; auto. }
  2:{ intros H. inversion H; subst. right. exists a, evs2, (Panic msg), tr2.
      repeat split; auto. left. repeat split; auto. }
  2:{ intros H. inversion H; subst. right. exists a, evs2, (@Diverge unit), tr2.
      repeat split; auto. left. repeat split; auto. }
  intros H. apply wrapping_inv in H. destruct H as [r [H ->]].
  apply evaluate_inv in H. destruct H as [L5 S5].
  rewrite S4' in L5. cbn [entered with_transcript transcript] in L5.
  right. exists a, evs2, (Ok tt), tr2.
  split; [exact Hc |]. split; [exact R4 |].
  split; [rewrite S5; exact S4' |].
  right. split; [reflexivity |]. exists r. split.
  - rewrite L5, L4'. rewrite <- app_assoc. reflexivity.
  - destruct r; reflexivity.
Qed.

Lemma Run_sound (ctx : Context World) (fuel : nat) (s s' : St World)
    (out : Res Result) :
  Run ctx fuel s = (out, s') ->
  exists evs, log s' = log s ++ evs /\ run_rel (self s) evs out (self s').
Proof.
  unfold Run. unfold bind at 1.
  destruct (on_phase FreeDebate s) as [r0 s0] eqn:E0.
  apply on_phase_inv in E0. destruct E0 as [-> [L0 S0]].
  unfold bind at 1.
  destruct (freeDebate ctx fuel 1 None s0) as [r1 s1] eqn:E1.
  apply freeDebate_sound in E1. destruct E1 as [evs1 [tr1 [[L1 S1] F1]]].
  rewrite S0 in F1, S1. rewrite L0 in L1.
  destruct r1 as [consensus|e|msg|].
  2:{ intros H. inversion H; subst. exists evs1. split; [exact L1 |].
      rewrite S1. exact (@run_free_failed World (self s) evs1 (Err e) tr1 F1 I). }
  2:{ intros H. inversion H; subst. exists evs1. split; [exact L1 |].
      rewrite S1. exact (@run_free_failed World (self s) evs1 (Panic msg) tr1 F1 I). }
  2:{ intros H. inversion H; subst. exists evs1. split; [exact L1 |].
      rewrite S1. exact (@run_free_failed World (self s) evs1 Diverge tr1 F1 I). }
  destruct consensus as [c|].
  2:{ unfold bind, ret, get_self. intros H. inversion H; subst.
      exists evs1. split; [exact L1 |]. rewrite S1. simpl.
      apply run_no_trigger; [exact F1 | discriminate]. }
  destruct (triggers c) eqn:Htr.
  2:{ unfold bind, ret, get_self. intros H. inversion H; subst.
      exists evs1. split; [exact L1 |]. rewrite S1. simpl.
      apply run_no_trigger; [exact F1 |]. intros c' E. inversion E; subst.
      exact Htr. }
  unfold bind at 1. unfold bind at 1.
  destruct (tenthManPhase ctx c s1) as [r2 s2] eqn:E2.
  apply tenthManPhase_sound in E2. unfold tenth_post in E2. cbv zeta in E2.
  assert (Etr: transcript (self s1) = tr1) by (rewrite S1; reflexivity).
  assert (Hcon: contrarian (self s1) c = contrarian (self s) c)
    by (rewrite S1; reflexivity).
  assert (Hag: agents (self s1) = agents (self s)) by (rewrite S1; reflexivity).
  rewrite Etr, Hcon, Hag in E2. clear Etr Hcon Hag.
  destruct E2 as [[Hc [[msg ->] [L2 S2]]]
                 | [a [evs2 [out2 [tr2 [Hc [R2 [S2 Hcase]]]]]]]].
  - intros H. inversion H; subst. exists evs1. split; [rewrite L2; exact L1 |].
    rewrite S2, S1.
    change (run_rel (self s) evs1 (Panic msg)
                    (with_transcript (set_Phase TenthManPhase tr1) (self s))).
    eapply run_panic; eauto.
  - assert (S2': self s2 = entered (self s) c a tr2).
    { rewrite S2, S1. reflexivity. }
    destruct Hcase as [[Hno [-> L2]] | [-> [r [L2 ->]]]].
    + destruct out2 as [[]|err|msg|]; try contradiction;
        intros H; inversion H; subst;
        (exists (evs1 ++ EvBuildAgent a :: evs2);
         split; [rewrite L2, L1, <- app_assoc; reflexivity |]);
        rewrite S2'.
      * exact (@run_tenth_failed World (self s) evs1 evs2 c tr1 tr2 a (Err err)
                 F1 Htr Hc R2 I).
      * exact (@run_tenth_failed World (self s) evs1 evs2 c tr1 tr2 a (Panic msg)
                 F1 Htr Hc R2 I).
      * exact (@run_tenth_failed World (self s) evs1 evs2 c tr1 tr2 a Diverge
                 F1 Htr Hc R2 I).
    + destruct r as [c'|err|msg|].
      * unfold ret at 1. unfold bind, get_self, ret. intros H. inversion H; subst.
        exists (evs1 ++ EvBuildAgent a :: evs2 ++ [EvEvaluate tr2 (Ok c')]).
        split; [rewrite L2, L1, <- app_assoc; reflexivity |].
        rewrite S2'. cbn [entered with_transcript transcript].
        exact (@run_final World (self s) evs1 evs2 c c' tr1 tr2 a F1 Htr Hc R2).
      * intros H. inversion H; subst.
        exists (evs1 ++ EvBuildAgent a :: evs2 ++ [EvEvaluate tr2 (Err err)]).
        split; [rewrite L2, L1, <- app_assoc; reflexivity |].
        rewrite S2'.
        exact (@run_final_failed World (self s) evs1 evs2 c tr1 tr2 a (Err err)
                 F1 Htr Hc R2 I).
      * intros H. inversion H; subst.
        exists (evs1 ++ EvBuildAgent a :: evs2 ++ [EvEvaluate tr2 (Panic msg)]).
        split; [rewrite L2, L1, <- app_assoc; reflexivity |].
        rewrite S2'.
        exact (@run_final_failed World (self s) evs1 evs2 c tr1 tr2 a (Panic msg)
                 F1 Htr Hc R2 I).
      * intros H. inversion H; subst.
        exists (evs1 ++ EvBuildAgent a :: evs2 ++ [EvEvaluate tr2 Diverge]).
        split; [rewrite L2, L1, <- app_assoc; reflexivity |].
        rewrite S2'.
        exact (@run_final_failed World (self s) evs1 evs2 c tr1 tr2 a (Diverge)
                 F1 Htr Hc R2 I).
Qed.

End Soundness.

(** ** Reading a run *)

Section Reading.

Variable World : Type.

(** A run that stayed in phase 1. *)
Definition stayed (e e' : Engine World) (evs : list Event) (out : Res Result)
  : Prop :=
  exists fo tr1,
    free_run (agents e) (minRounds e) (maxRounds e) 1 None (transcript e)
             evs fo tr1 /\
    e' = with_transcript tr1 e /\ Forall quiet evs /\
    match fo with
    | Ok o => triggered o = false /\
              out = Ok {| Transcript_ := tr1; Consensus := o |}
    | _ => out = failed same fo
    end.

(** A run that went on to phase 2 on the verdict [c], given on the
    transcript [tr1]; [rest] is what the log holds after that verdict. *)
Definition moved (e e' : Engine World) (evs : list Event) (out : Res Result)
    (evs1 : list Event) (c : ConsensusResult) (tr1 : Transcript)
    (rest : list Event) : Prop :=
  free_run (agents e) (minRounds e) (maxRounds e) 1 None (transcript e)
           (evs1 ++ [EvEvaluate tr1 (Ok c)]) (Ok (Some c)) tr1 /\
  evs = evs1 ++ EvEvaluate tr1 (Ok c) :: rest /\
  Forall quiet evs1 /\ triggers c = true /\
  minRounds e <= Rounds tr1 <= maxRounds e /\ is_int (Rounds tr1) /\
  match contrarian e c with
  | None =>
      rest = [] /\ (exists msg, out = Panic msg) /\
      e' = with_transcript (set_Phase TenthManPhase tr1) e
  | Some a =>
      exists evs2 out2 tr2,
        rounds_run (agents e ++ [a]) (tenth_rounds (wrap (Rounds tr1 + 1)))
                   (set_Phase TenthManPhase tr1) evs2 out2 tr2 /\
        e' = entered e c a tr2 /\
        match out2 with
        | Ok _ =>
            exists r,
              rest = EvBuildAgent a :: evs2 ++ [EvEvaluate tr2 r] /\
              out = match r with
                    | Ok c' => Ok {| Transcript_ := tr2; Consensus := Some c' |}
                    | _ => failed (Errorf_w "debate: final consensus evaluation: ") r
                    end
        | _ => rest = EvBuildAgent a :: evs2 /\ out = failed same out2
        end
  end.

Lemma free_run_moved (e : Engine World) (evs : list Event) (c : ConsensusResult)
    (tr1 : Transcript) :
  free_run (agents e) (minRounds e) (maxRounds e) 1 None (transcript e) evs
           (Ok (Some c)) tr1 ->
  triggers c = true ->
  exists evs1,
    evs = evs1 ++ [EvEvaluate tr1 (Ok c)] /\ Forall quiet evs1 /\
    minRounds e <= Rounds tr1 <= maxRounds e /\ is_int (Rounds tr1).
Proof.
  intros F Ht.
  pose proof (free_run_verdicts F eq_refl) as V. simpl in V. rewrite Ht in V.
  destruct V as [evs1 [c0 [Ec [Ee [Hq Hm]]]]]. inversion Ec; subst c0.
  assert (Hi: is_int 1) by (unfold is_int, min_int, max_int; lia).
  destruct (free_run_boundary F eq_refl Ht eq_refl Hi) as [Hb Hx].
  exists evs1. split; [exact Ee |]. split; [exact Hq |]. split; [lia | exact Hb].
Qed.

Lemma run_rel_read (e e' : Engine World) (evs : list Event) (out : Res Result) :
  run_rel e evs out e' ->
  stayed e e' evs out \/
  exists evs1 c tr1 rest, moved e e' evs out evs1 c tr1 rest.
Proof.
  intros R.
  destruct R as [evs fo tr1 F Hn
                | evs cons tr1 F Hc
                | evs c tr1 msg F Ht Hcon
                | evs1 evs2 c tr1 tr2 a out2 F Ht Hcon RR Hn
                | evs1 evs2 c tr1 tr2 a r F Ht Hcon RR Hn
                | evs1 evs2 c c' tr1 tr2 a F Ht Hcon RR].
  - left. exists fo, tr1.
    pose proof (free_run_verdicts F eq_refl) as V.
    destruct fo; simpl in Hn; try contradiction; auto.
  - left. exists (Ok cons), tr1.
    assert (Hq: triggered cons = false).
    { destruct cons as [c|]; [apply Hc; reflexivity | reflexivity]. }
    pose proof (free_run_verdicts F eq_refl) as V. simpl in V. rewrite Hq in V.
    auto.
  - right. destruct (@free_run_moved _ _ _ _ F Ht) as [l [-> [Hq [Hm Hi]]]].
    exists l, c, tr1, []. unfold moved. rewrite Hcon.
    split; [exact F |]. split; [reflexivity |].
    split; [exact Hq |]. split; [exact Ht |]. split; [exact Hm |].
    split; [exact Hi |].
    split; [reflexivity |]. split; [exists msg; reflexivity | reflexivity].
  - right. destruct (@free_run_moved _ _ _ _ F Ht) as [l [-> [Hq [Hm Hi]]]].
    exists l, c, tr1, (EvBuildAgent a :: evs2). unfold moved. rewrite Hcon.
    split; [exact F |]. split; [rewrite <- app_assoc; reflexivity |].
    split; [exact Hq |]. split; [exact Ht |]. split; [exact Hm |].
    split; [exact Hi |].
    exists evs2, out2, tr2. split; [exact RR |]. split; [reflexivity |].
    destruct out2; simpl in Hn; try contradiction; auto.
  - right. destruct (@free_run_moved _ _ _ _ F Ht) as [l [-> [Hq [Hm Hi]]]].
    exists l, c, tr1, (EvBuildAgent a :: evs2 ++ [EvEvaluate tr2 r]).
    unfold moved. rewrite Hcon.
    split; [exact F |]. split; [rewrite <- app_assoc; reflexivity |].
    split; [exact Hq |]. split; [exact Ht |]. split; [exact Hm |].
    split; [exact Hi |].
    exists evs2, (Ok tt), tr2. split; [exact RR |]. split; [reflexivity |].
    exists r. split; [reflexivity |].
    destruct r; simpl in Hn; try contradiction; reflexivity.
  - right. destruct (@free_run_moved _ _ _ _ F Ht) as [l [-> [Hq [Hm Hi]]]].
    exists l, c, tr1, (EvBuildAgent a :: evs2 ++ [EvEvaluate tr2 (Ok c')]).
    unfold moved. rewrite Hcon.
    split; [exact F |]. split; [rewrite <- app_assoc; reflexivity |].
    split; [exact Hq |]. split; [exact Ht |]. split; [exact Hm |].
    split; [exact Hi |].
    exists evs2, (Ok tt), tr2. split; [exact RR |]. split; [reflexivity |].
    exists (Ok c'). split; reflexivity.
Qed.

(** The log of a run and its turns: every model call is checked, a
    cancellation seen ends the log and is the outcome, and the transcript
    grows by the turns the log records. *)
Lemma run_rel_log (e e' : Engine World) (evs : list Event) (out : Res Result) :
  run_rel e evs out e' ->
  checked evs /\ cancel_shape evs out /\
  Turns (transcript e') = Turns (transcript e) ++ turns_of evs.
Proof.
  intros R. destruct (run_rel_read R) as [St | [evs1 [c [tr1 [rest Mv]]]]].
  - destruct St as [fo [tr1 [F [-> [Hq Hout]]]]].
    destruct (free_run_facts F) as [[_ [_ K]] [C S]].
    split; [exact C |]. split; [| exact K].
    destruct fo as [o | err | msg |].
    + left. eapply cancel_shape_calm. exact S.
    + rewrite Hout. apply cancel_shape_failed. exact S.
    + rewrite Hout. apply cancel_shape_failed. exact S.
    + rewrite Hout. apply cancel_shape_failed. exact S.
  - destruct Mv as [F [-> [Hq [Ht [Hm [Hi Hcase]]]]]].
    destruct (free_run_facts F) as [[_ [_ K]] [C S]].
    apply cancel_shape_calm in S.
    change (evs1 ++ EvEvaluate tr1 (Ok c) :: rest)
      with (evs1 ++ [EvEvaluate tr1 (Ok c)] ++ rest).
    rewrite app_assoc.
    destruct (contrarian e c) as [a|].
    + destruct Hcase as [evs2 [out2 [tr2 [RR [-> Hrest]]]]].
      destruct (rounds_run_facts RR) as [[_ [_ K2]] [E2 [C2 [S2 _]]]].
      assert (Hturns: Turns tr2
                      = Turns (transcript e)
                        ++ turns_of ((evs1 ++ [EvEvaluate tr1 (Ok c)])
                                     ++ EvBuildAgent a :: evs2)).
      { rewrite K2. simpl Turns. rewrite K.
        rewrite (turns_of_app (evs1 ++ [EvEvaluate tr1 (Ok c)])).
        rewrite app_assoc. reflexivity. }
      destruct out2 as [[] | err | msg |].
      * destruct Hrest as [r [-> Hout]].
        change (EvBuildAgent a :: evs2 ++ [EvEvaluate tr2 r])
          with ([EvBuildAgent a] ++ evs2 ++ [EvEvaluate tr2 r]).
        split; [apply checked_app; [exact C |];
                apply checked_app; [reflexivity |];
                apply checked_app; [exact C2 | reflexivity] |].
        split.
        { left. apply Forall_app. split; [exact S |].
          apply Forall_app. split; [repeat constructor |].
          apply Forall_app. split; [eapply cancel_shape_calm; exact S2 |].
          repeat constructor. }
        cbn [entered with_transcript transcript].
        rewrite Hturns, !turns_of_app. simpl. rewrite !app_nil_r. reflexivity.
      * destruct Hrest as [-> ->].
        split; [apply checked_app; [exact C |];
                apply (checked_app (l1 := [EvBuildAgent a])); [reflexivity | exact C2] |].
        split; [| exact Hturns].
        apply cancel_shape_app; [exact S |].
        apply (cancel_shape_app (l1 := [EvBuildAgent a])); [repeat constructor |].
        apply (@cancel_shape_failed _ Result) in S2. exact S2.
      * destruct Hrest as [-> ->].
        split; [apply checked_app; [exact C |];
                apply (checked_app (l1 := [EvBuildAgent a])); [reflexivity | exact C2] |].
        split; [| exact Hturns].
        apply cancel_shape_app; [exact S |].
        apply (cancel_shape_app (l1 := [EvBuildAgent a])); [repeat constructor |].
        apply (@cancel_shape_failed _ Result) in S2. exact S2.
      * destruct Hrest as [-> ->].
        split; [apply checked_app; [exact C |];
                apply (checked_app (l1 := [EvBuildAgent a])); [reflexivity | exact C2] |].
        split; [| exact Hturns].
        apply cancel_shape_app; [exact S |].
        apply (cancel_shape_app (l1 := [EvBuildAgent a])); [repeat constructor |].
        apply (@cancel_shape_failed _ Result) in S2. exact S2.
    + destruct Hcase as [-> [[msg ->] ->]]. rewrite app_nil_r.
      split; [exact C |]. split; [left; exact S |]. exact K.
Qed.

Lemma contrarian_built (e : Engine World) (c : ConsensusResult)
    (tm : TenthManActivator) :
  agents e <> [] -> tenthMan e = Some tm ->
  exists m,
    pick_model e = Some m /\
    contrarian e c
    = Some (BuildAgent tm (Position c)
              (wrap (Z.of_nat (List.length (agents e)) + 1)) m).
Proof.
  intros Ha Htm. unfold contrarian, pick_model. rewrite Htm.
  destruct (String.eqb (tenthManModel e) "").
  - destruct (agents e) as [|a0 rest]; [contradiction |].
    exists (Model a0). split; reflexivity.
  - exists (tenthManModel e). split; reflexivity.
Qed.

End Reading.

(** ** The properties of a run *)

Section Properties.

Variable World : Type.

(** Some verdict of the log, given on a transcript of at least [minR]
    rounds, detects a consensus with a score of 7 or more. *)
Definition trigger_in (minR : Z) (evs : list Event) : Prop :=
  exists t c, In (EvEvaluate t (Ok c)) evs /\ minR <= Rounds t /\ triggers c = true.

Lemma quiet_no_trigger (minR : Z) (evs : list Event) :
  Forall quiet evs -> ~ trigger_in minR evs.
Proof.
  intros Hq [t [c [Hin [_ Ht]]]]. rewrite Forall_forall in Hq.
  specialize (Hq _ Hin). simpl in Hq. congruence.
Qed.

Lemma keys_round (round : Z) (new : list Turn) (l : list Agent) :
  map key new = map (pair round) l -> Forall (fun t => Round t = round) new.
Proof.
  revert l. induction new as [|t0 rest IH]; intros l T; [constructor |].
  destruct l as [|a0 l]; [discriminate |].
  simpl in T. injection T as Hr Ha Hrest.
  constructor; [exact Hr | apply (IH l); exact Hrest].
Qed.

(** C10. [runRound] sets the counter of completed rounds only once every
    agent has made its turn.  The turns it appends are those of the first
    [k] agents, in order, all numbered [round]; when it returns normally
    [k] is the number of agents and the counter is [round]; when it fails
    (a call error, a cancellation) fewer turns than agents were appended
    and the counter is what it was, so that, called with the next round
    number, it leaves turns numbered one more than the counter. *)
Theorem runRound_counter_after_turns (ctx : Context World) (round : Z)
    (s s' : St World) (out : Res unit) :
  runRound ctx round s = (out, s') ->
  exists (new : list Turn) (k : nat),
    Turns (transcript (self s')) = Turns (transcript (self s)) ++ new /\
    map key new = map (pair round) (firstn k (agents (self s))) /\
    match out with
    | Ok _ =>
        k = List.length (agents (self s)) /\
        Rounds (transcript (self s')) = round
    | _ =>
        (k < List.length (agents (self s)))%nat /\
        Rounds (transcript (self s')) = Rounds (transcript (self s)) /\
        (round = Rounds (transcript (self s)) + 1 ->
         Forall (fun t => Round t = Rounds (transcript (self s')) + 1) new)
    end.
Proof.
  intros H. apply runRound_sound in H.
  destruct H as [evs [tr' [[L S] R]]].
  destruct (round_run_facts R) as [[_ [_ K]] [_ [_ [_ [k [T Hk]]]]]].
  assert (Etr: transcript (self s') = tr') by (rewrite S; reflexivity).
  rewrite Etr. exists (turns_of evs), k.
  split; [exact K |]. split; [exact T |].
  pose proof (@keys_round round (turns_of evs) _ T) as G.
  destruct out as [[] | err | msg |]; auto;
    (destruct Hk as [Hk HR]; split; [exact Hk |]; split; [exact HR |];
     intros Er; eapply Forall_impl; [| exact G];
     intros t Ht; simpl in Ht; rewrite Ht, HR; exact Er).
Qed.

(** C9. In a run every model call of a turn comes right after a
    cancellation check that saw nothing.  A check that sees the context
    done is the last event of the run: no turn, no call and no verdict is
    asked after it; the run returns the error of the context wrapped under
    [debate: ]; and the transcript holds, after the turns it had, every
    turn completed before the signal.  When it is the first check of the
    run that sees it, no turn is recorded. *)
Theorem Run_cancellation (ctx : Context World) (fuel : nat) (s s' : St World)
    (out : Res Result) :
  Run ctx fuel s = (out, s') ->
  exists evs,
    log s' = log s ++ evs /\
    (forall b m msgs r rest,
       evs = b ++ EvChat m msgs r :: rest -> exists b', b = b' ++ [EvErr None]) /\
    (forall b err rest,
       evs = b ++ EvErr (Some err) :: rest ->
       rest = [] /\ out = Err (Errorf_w "debate: " err) /\
       Turns (transcript (self s'))
       = Turns (transcript (self s)) ++ turns_of b) /\
    (forall err rest,
       evs = EvErr (Some err) :: rest ->
       Turns (transcript (self s')) = Turns (transcript (self s))).
Proof.
  intros H. apply Run_sound in H. destruct H as [evs [L R]].
  destruct (run_rel_log R) as [C [S K]].
  exists evs. split; [exact L |].
  split; [apply checked_split; exact C |].
  assert (G: forall b err rest,
             evs = b ++ EvErr (Some err) :: rest ->
             rest = [] /\ out = Err (Errorf_w "debate: " err) /\
             Turns (transcript (self s'))
             = Turns (transcript (self s)) ++ turns_of b).
  { intros b err rest E.
    destruct (cancel_shape_split S b err rest E) as [-> ->].
    split; [reflexivity |]. split; [reflexivity |].
    rewrite K, E, turns_of_app. simpl. rewrite app_nil_r. reflexivity. }
  split; [exact G |].
  intros err rest E. destruct (G [] err rest E) as [_ [_ Ht]].
  rewrite Ht. simpl. apply app_nil_r.
Qed.

(** C8. A run with [1 <= minRounds <= maxRounds] that returns normally
    returns the transcript of the engine and a verdict that is not nil:
    the judge was asked, and answered, on the transcript of round
    [minRounds]. *)
Theorem Run_yields_verdict (ctx : Context World) (fuel : nat) (s s' : St World)
    (res : Result) :
  Run ctx fuel s = (Ok res, s') ->
  1 <= minRounds (self s) <= maxRounds (self s) ->
  Transcript_ res = transcript (self s') /\
  Consensus res <> None /\
  exists evs t c,
    log s' = log s ++ evs /\
    In (EvEvaluate t (Ok c)) evs /\ Rounds t = minRounds (self s).
Proof.
  intros H [Hmin Hmax]. apply Run_sound in H. destruct H as [evs [L R]].
  assert (Hlo: min_int <= 1) by (unfold min_int; lia).
  destruct (run_rel_read R) as [St | [evs1 [c [tr1 [rest Mv]]]]].
  - destruct St as [fo [tr1 [F [E' [Hq Hout]]]]].
    destruct fo as [o | | |]; try discriminate.
    destruct Hout as [_ Hout]. inversion Hout; subst res. simpl.
    destruct (free_run_judged F eq_refl Hlo Hmin Hmax) as [Ho [t [c [Hin Hr]]]].
    split; [rewrite E'; reflexivity |]. split; [exact Ho |].
    exists evs, t, c. auto.
  - destruct Mv as [F [Ee [Hq [Ht [Hm [Hi Hcase]]]]]].
    destruct (free_run_judged F eq_refl Hlo Hmin Hmax) as [_ [t [c0 [Hin Hr]]]].
    assert (Hev: exists evs t c,
               log s' = log s ++ evs /\
               In (EvEvaluate t (Ok c)) evs /\ Rounds t = minRounds (self s)).
    { exists evs, t, c0. split; [exact L |]. split; [| exact Hr].
      rewrite Ee.
      change (evs1 ++ EvEvaluate tr1 (Ok c) :: rest)
        with (evs1 ++ [EvEvaluate tr1 (Ok c)] ++ rest).
      rewrite app_assoc. apply in_or_app. left. exact Hin. }
    destruct (contrarian (self s) c) as [a|].
    + destruct Hcase as [evs2 [out2 [tr2 [RR [E' Hrest]]]]].
      destruct out2 as [[] | | |]; try (destruct Hrest as [_ Hrest]; discriminate).
      destruct Hrest as [r [_ Hout]].
      destruct r as [c' | | |]; try discriminate.
      inversion Hout; subst res. simpl.
      split; [rewrite E'; reflexivity |]. split; [discriminate | exact Hev].
    + destruct Hcase as [_ [[msg Hp] _]]. discriminate.
Qed.

Lemma moved_phase (e e' : Engine World) (evs : list Event) (out : Res Result)
    (evs1 : list Event) (c : ConsensusResult) (tr1 : Transcript)
    (rest : list Event) :
  moved e e' evs out evs1 c tr1 rest ->
  Phase_ (transcript e') = TenthManPhase /\ trigger_in (minRounds e) evs.
Proof.
  intros [F [Ee [Hq [Ht [Hm [Hi Hcase]]]]]]. split.
  - destruct (contrarian e c) as [a|].
    + destruct Hcase as [evs2 [out2 [tr2 [RR [-> _]]]]].
      destruct (rounds_run_facts RR) as [[_ [P _]] _]. exact P.
    + destruct Hcase as [_ [_ ->]]. reflexivity.
  - exists tr1, c. split; [| split; [lia | exact Ht]].
    rewrite Ee. apply in_or_app. right. left. reflexivity.
Qed.

Lemma stayed_phase (e e' : Engine World) (evs : list Event) (out : Res Result) :
  stayed e e' evs out ->
  Phase_ (transcript e') = Phase_ (transcript e) /\ Forall quiet evs /\
  agents e' = agents e.
Proof.
  intros [fo [tr1 [F [-> [Hq _]]]]].
  destruct (free_run_facts F) as [[_ [P _]] _]. auto.
Qed.


(** C3. A run of a new engine that returns normally and in which no
    verdict detects a consensus with a score of 7 or more ends in
    [FreeDebate] with the agents it had; its transcript holds the turns
    the log records, in the order they were made: rounds 1 to [maxRounds],
    each agent once per round in the order of the agents, that is
    [maxRounds] times the number of agents turns. *)
Theorem Run_free_debate_turns (ctx : Context World) (fuel : nat)
    (s s' : St World) (res : Result) :
  Run ctx fuel s = (Ok res, s') ->
  Phase_ (transcript (self s)) = FreeDebate ->
  Turns (transcript (self s)) = [] ->
  exists evs,
    log s' = log s ++ evs /\
    ((forall t c, In (EvEvaluate t (Ok c)) evs -> triggers c = false) ->
     Phase_ (Transcript_ res) = FreeDebate /\
     builds evs = [] /\ agents (self s') = agents (self s) /\
     Turns (Transcript_ res) = turns_of evs /\
     map key (Turns (Transcript_ res))
     = schedule (agents (self s)) (Zseq 1 (Z.to_nat (maxRounds (self s)))) /\
     List.length (Turns (Transcript_ res))
     = (Z.to_nat (maxRounds (self s)) * List.length (agents (self s)))%nat).
Proof.
  intros H Hph Hturns. apply Run_sound in H. destruct H as [evs [L R]].
  exists evs. split; [exact L |]. intros Hno.
  destruct (run_rel_read R) as [St | [evs1 [c [tr1 [rest Mv]]]]].
  - destruct (stayed_phase St) as [_ [_ Ha]].
    destruct St as [fo [tr1 [F [E' [Hq Hout]]]]].
    destruct fo as [o | | |]; try discriminate.
    destruct Hout as [_ Hout]. inversion Hout; subst res. simpl.
    destruct (free_run_facts F) as [[_ [P K]] _].
    assert (Hi: is_int 1) by (unfold is_int, min_int, max_int; lia).
    pose proof (free_run_schedule F eq_refl Hi Hq) as Hs.
    replace (maxRounds (self s) - 1 + 1) with (maxRounds (self s)) in Hs by lia.
    rewrite Hturns in K. simpl in K.
    assert (Hk: map key (Turns tr1)
                = schedule (agents (self s)) (Zseq 1 (Z.to_nat (maxRounds (self s)))))
      by (rewrite K; exact Hs).
    split; [rewrite P; exact Hph |].
    split; [apply quiet_no_builds; exact Hq |].
    split; [exact Ha |]. split; [exact K |]. split; [exact Hk |].
    rewrite <- (length_map key), Hk, schedule_length, Zseq_length. reflexivity.
  - exfalso. destruct Mv as [_ [Ee [_ [Ht _]]]].
    assert (Hin: In (EvEvaluate tr1 (Ok c)) evs)
      by (rewrite Ee; apply in_or_app; right; left; reflexivity).
    rewrite (Hno _ _ Hin) in Ht. discriminate.
Qed.

(** C2. A run of an engine in [FreeDebate], with [maxRounds] at least 4
    below the largest integer, that returns normally in [TenthManPhase]
    went this way: the verdict [c] that triggered the phase, given on the
    transcript [t] of the boundary round; the contrarian [a] built; then,
    with no verdict asked meanwhile, the rounds [Rounds t + 1],
    [Rounds t + 2] and [Rounds t + 3], each one a turn of every agent the
    engine had and then one of [a]; then one verdict [c'] asked on the
    transcript that the run returns, which holds all these turns; and [c']
    is the verdict of the result. *)
Theorem Run_three_contrarian_rounds (ctx : Context World) (fuel : nat)
    (s s' : St World) (res : Result) :
  Run ctx fuel s = (Ok res, s') ->
  Phase_ (transcript (self s)) = FreeDebate ->
  maxRounds (self s) <= max_int - 4 ->
  Phase_ (Transcript_ res) = TenthManPhase ->
  exists evs1 t c a evs2 c',
    log s' = log s ++ evs1 ++ EvEvaluate t (Ok c) :: EvBuildAgent a :: evs2
                   ++ [EvEvaluate (Transcript_ res) (Ok c')] /\
    Forall quiet evs1 /\ triggers c = true /\
    contrarian (self s) c = Some a /\
    agents (self s') = agents (self s) ++ [a] /\
    Forall turn_event evs2 /\
    map key (turns_of evs2)
    = schedule (agents (self s) ++ [a])
               [Rounds t + 1; Rounds t + 2; Rounds t + 3] /\
    Turns (Transcript_ res) = Turns t ++ turns_of evs2 /\
    Rounds (Transcript_ res) = Rounds t + 3 /\
    Transcript_ res = transcript (self s') /\
    Consensus res = Some c'.
Proof.
  intros H Hph Hmax Hres. apply Run_sound in H. destruct H as [evs [L R]].
  destruct (run_rel_read R) as [St | [evs1 [c [tr1 [rest Mv]]]]].
  - exfalso. destruct (stayed_phase St) as [P _].
    destruct St as [fo [tr1 [F [E' [Hq Hout]]]]].
    destruct fo as [o | | |]; try discriminate.
    destruct Hout as [_ Hout]. inversion Hout; subst res. simpl in Hres.
    rewrite E' in P. simpl in P. congruence.
  - destruct Mv as [F [Ee [Hq [Ht [Hm [Hi Hcase]]]]]].
    destruct (contrarian (self s) c) as [a|] eqn:Hcon.
    2:{ destruct Hcase as [_ [[msg Hp] _]]. discriminate. }
    destruct Hcase as [evs2 [out2 [tr2 [RR [E' Hrest]]]]].
    destruct out2 as [[] | | |]; try (destruct Hrest as [_ Hrest]; discriminate).
    destruct Hrest as [r [Er Hout]].
    destruct r as [c' | | |]; try discriminate.
    inversion Hout; subst res. simpl.
    assert (Hstart: wrap (Rounds tr1 + 1) = Rounds tr1 + 1).
    { apply wrap_id. unfold is_int, min_int, max_int in *. lia. }
    assert (Hrounds: tenth_rounds (wrap (Rounds tr1 + 1))
                     = [Rounds tr1 + 1; Rounds tr1 + 2; Rounds tr1 + 3]).
    { rewrite Hstart. unfold tenth_rounds, tenthManRounds.
      replace (Rounds tr1 + 1 + 3 <=? max_int) with true
        by (symmetry; apply Z.leb_le; unfold max_int in *; lia).
      replace (Rounds tr1 + 1 + 1) with (Rounds tr1 + 2) by lia.
      replace (Rounds tr1 + 1 + 2) with (Rounds tr1 + 3) by lia.
      reflexivity. }
    rewrite Hrounds in RR.
    destruct (rounds_run_facts RR) as [[_ [_ K2]] [E2 [_ [_ [T2 R2]]]]].
    exists evs1, tr1, c, a, evs2, c'.
    split; [rewrite L, Ee, Er; reflexivity |].
    split; [exact Hq |]. split; [exact Ht |]. split; [exact Hcon |].
    split; [rewrite E'; reflexivity |]. split; [exact E2 |].
    split; [exact T2 |]. split; [exact K2 |].
    split; [exact R2 |]. split; [rewrite E'; reflexivity | reflexivity].
Qed.

End Properties.

End engine.

(* ===================================================================== *)
(** * Runs of the engine on the scripted model *)
(* ===================================================================== *)

Module engine_runs.

Import openrouter debate engine.

(** The agents of the test suite. *)
Definition makeAgents (n : nat) : list Agent :=
  map (fun i => {| ID := Z.of_nat i;
                   Name := ("Agent-" ++ itoa (Z.of_nat i))%string;
                   Model := ("model-" ++ itoa (Z.of_nat i))%string;
                   Role := "debater" |})
      (seq 1 n).

(** A new engine over [n] agents, the judge detecting a consensus from
    round [consensusAtRound] on, and the context done at [deadline]. *)
Definition start (n : nat) (consensusAtRound minR maxR : Z)
    (deadline : option nat) : St sim.World :=
  {| self := NewEngine "test topic" (makeAgents n) sim.llm
               (sim.mockJudge consensusAtRound) (Some tenthman.NewActivator)
               minR maxR;
     world := sim.world [] deadline;
     log := [] |}.

Definition run (n : nat) (consensusAtRound minR maxR : Z)
    (deadline : option nat) : Res Result * St sim.World :=
  Run sim.ctx 100 (start n consensusAtRound minR maxR deadline).

(** The result of a run that returned one. *)
Definition result_of (r : Res Result * St sim.World) : Result :=
  match fst r with
  | Ok res => res
  | _ => {| Transcript_ := transcript (self (snd r)); Consensus := None |}
  end.

(** No verdict of the log triggers phase 2. *)
Definition no_trigger (evs : list Event) : bool :=
  forallb (fun ev => match ev with
                     | EvEvaluate _ (Ok c) => negb (triggers c)
                     | _ => true
                     end) evs.

Lemma no_trigger_spec (evs : list Event) :
  no_trigger evs = true ->
  forall t c, In (EvEvaluate t (Ok c)) evs -> triggers c = false.
Proof.
  unfold no_trigger. rewrite forallb_forall. intros H t c Hin.
  specialize (H _ Hin). simpl in H. apply negb_true_iff. exact H.
Qed.

(** TestEngineRunsMinimumRounds: no consensus, 7 rounds of 3 agents. *)
Example run_minimum_rounds :
  let r := run 3 999 5 7 None in
  let t := Transcript_ (result_of r) in
  fst r = Ok (result_of r) /\
  Rounds t = 7 /\ Phase_ t = FreeDebate /\ List.length (Turns t) = 21%nat /\
  builds (log (snd r)) = [].
Proof. vm_compute. repeat split; reflexivity. Qed.

(** TestEngineTransitionsToTenthManPhase: consensus at round 5, then 3
    rounds of 4 agents. *)
Example run_transition :
  let r := run 3 5 5 10 None in
  let t := Transcript_ (result_of r) in
  fst r = Ok (result_of r) /\
  Rounds t = 8 /\ Phase_ t = TenthManPhase /\ List.length (Turns t) = 27%nat /\
  map Name (agents (self (snd r)))
  = ["Agent-1"; "Agent-2"; "Agent-3"; "The Tenth Man"]%string /\
  map Role (agents (self (snd r)))
  = ["debater"; "debater"; "debater"; "tenth-man"]%string /\
  map Name (builds (log (snd r))) = ["The Tenth Man"]%string.
Proof. vm_compute. repeat split; reflexivity. Qed.

(** Without agents and without a model for the contrarian, the trigger
    makes the run panic on [e.agents[0]], the phase already set. *)
Example run_no_agents_panics :
  let r := run 0 1 1 1 None in
  fst r = Panic "index out of range [0] with length 0" /\
  Phase_ (transcript (self (snd r))) = TenthManPhase.
Proof. vm_compute. split; reflexivity. Qed.

(** A round cut short: the context is done at the second check of round
    1, after the turn of the first agent.  The instance of
    [runRound_counter_after_turns] at this round. *)
Lemma runRound_counter_after_turns_witness :
  let s := start 3 999 5 7 (Some 1%nat) in
  let r := runRound sim.ctx 1 s in
  fst r = Err (Errorf_w "debate: " Canceled) /\
  Rounds (transcript (self (snd r))) = 0 /\
  map Round (Turns (transcript (self (snd r)))) = [1] /\
  exists (new : list Turn) (k : nat),
    Turns (transcript (self (snd r))) = Turns (transcript (self s)) ++ new /\
    map key new = map (pair 1) (firstn k (agents (self s))) /\
    match fst r with
    | Ok _ =>
        k = List.length (agents (self s)) /\
        Rounds (transcript (self (snd r))) = 1
    | _ =>
        (k < List.length (agents (self s)))%nat /\
        Rounds (transcript (self (snd r))) = Rounds (transcript (self s)) /\
        (1 = Rounds (transcript (self s)) + 1 ->
         Forall (fun t => Round t = Rounds (transcript (self (snd r))) + 1) new)
    end.
Proof.
  intros s r.
  split; [vm_compute; reflexivity |].
  split; [vm_compute; reflexivity |].
  split; [vm_compute; reflexivity |].
  exact (@runRound_counter_after_turns sim.World sim.ctx 1 s (snd r) (fst r)
           (surjective_pairing r)).
Defined.

(** TestEngineRespectsContextCancellation, the context done at the fifth
    check: four turns stay, the counter says one round.  The instance of
    [Run_cancellation] at this run. *)
Lemma Run_cancellation_witness :
  let r := Run sim.ctx 100 (start 3 5 5 10 (Some 4%nat)) in
  fst r = Err (Errorf_w "debate: " Canceled) /\
  List.length (Turns (transcript (self (snd r)))) = 4%nat /\
  Rounds (transcript (self (snd r))) = 1.
Proof.
  intros r.
  destruct (@Run_cancellation sim.World sim.ctx 100 (start 3 5 5 10 (Some 4%nat))
              (snd r) (fst r) (surjective_pairing r))
    as [evs [Hlog [_ [Hcancel _]]]].
  assert (Hevs: evs = log (snd r)) by (symmetry; exact Hlog).
  assert (Hsplit: evs = removelast (log (snd r)) ++ EvErr (Some Canceled) :: []).
  { rewrite Hevs. vm_compute. reflexivity. }
  destruct (Hcancel _ _ _ Hsplit) as [_ [Hout Hturns]].
  split; [exact Hout |].
  split; [rewrite Hturns; vm_compute; reflexivity | vm_compute; reflexivity].
Defined.

(** The instance of [Run_yields_verdict] at the run of
    TestEngineNoConsensusResult. *)
Lemma Run_yields_verdict_witness :
  let r := Run sim.ctx 100 (start 3 999 5 7 None) in
  Transcript_ (result_of r) = transcript (self (snd r)) /\
  Consensus (result_of r) <> None /\
  exists evs t c,
    log (snd r) = [] ++ evs /\ In (EvEvaluate t (Ok c)) evs /\ Rounds t = 5.
Proof.
  intros r.
  assert (E: fst r = Ok (result_of r)) by (vm_compute; reflexivity).
  pose proof (surjective_pairing r) as P. rewrite E in P.
  refine (@Run_yields_verdict sim.World sim.ctx 100 (start 3 999 5 7 None)
            (snd r) (result_of r) P _).
  vm_compute. split; discriminate.
Defined.

(** The instance of [Run_free_debate_turns] at the run of
    TestEngineRunsMinimumRounds. *)
Lemma Run_free_debate_turns_witness :
  let r := Run sim.ctx 100 (start 3 999 5 7 None) in
  Phase_ (Transcript_ (result_of r)) = FreeDebate /\
  map (fun t => (Round t, ID (Agent_ t))) (Turns (Transcript_ (result_of r)))
  = flat_map (fun round => [(round, 1); (round, 2); (round, 3)])
             [1; 2; 3; 4; 5; 6; 7] /\
  List.length (Turns (Transcript_ (result_of r))) = 21%nat.
Proof.
  intros r.
  assert (E: fst r = Ok (result_of r)) by (vm_compute; reflexivity).
  pose proof (surjective_pairing r) as P. rewrite E in P.
  destruct (@Run_free_debate_turns sim.World sim.ctx 100 (start 3 999 5 7 None)
              (snd r) (result_of r) P eq_refl eq_refl)
    as [evs [Hlog Hall]].
  assert (Hevs: evs = log (snd r)) by (symmetry; exact Hlog).
  destruct Hall as [Hphase [_ [_ [_ [Hkeys Hlen]]]]].
  { rewrite Hevs. apply no_trigger_spec. vm_compute. reflexivity. }
  split; [exact Hphase |].
  split; [| rewrite Hlen; vm_compute; reflexivity].
  rewrite <- (map_map key (fun k => (fst k, ID (snd k)))), Hkeys.
  vm_compute. reflexivity.
Defined.


(** The instance of [Run_three_contrarian_rounds] at the run of
    TestEngineTransitionsToTenthManPhase. *)
Lemma Run_three_contrarian_rounds_witness :
  let s := start 3 5 5 10 None in
  let r := Run sim.ctx 100 (start 3 5 5 10 None) in
  let res := result_of r in
  exists evs1 t c a evs2 c',
    log (snd r) = log s ++ evs1 ++ EvEvaluate t (Ok c) :: EvBuildAgent a :: evs2
                        ++ [EvEvaluate (Transcript_ res) (Ok c')] /\
    Forall quiet evs1 /\ triggers c = true /\
    contrarian (self s) c = Some a /\
    agents (self (snd r)) = agents (self s) ++ [a] /\
    Forall turn_event evs2 /\
    map key (turns_of evs2)
    = schedule (agents (self s) ++ [a])
               [Rounds t + 1; Rounds t + 2; Rounds t + 3] /\
    Turns (Transcript_ res) = Turns t ++ turns_of evs2 /\
    Rounds (Transcript_ res) = Rounds t + 3 /\
    Transcript_ res = transcript (self (snd r)) /\
    Consensus res = Some c'.
Proof.
  intros s r res.
  assert (E: fst r = Ok res) by (vm_compute; reflexivity).
  pose proof (surjective_pairing r) as P. rewrite E in P.
  refine (@Run_three_contrarian_rounds sim.World sim.ctx 100 s (snd r) res
            P eq_refl _ _).
  - vm_compute. discriminate.
  - vm_compute. reflexivity.
Defined.

End engine_runs.

(* ===================================================================== *)
(** * Slices *)
(* ===================================================================== *)

Module slices.

(** [s[i]]: the element, or the run-time panic of an index out of range. *)
Definition index (A : Type) (s : list A) (i : Z) : Res A :=
  match (if 0 <=? i then nth_error s (Z.to_nat i) else None) with
  | Some x => Ok x
  | None =>
      Panic ("index out of range [" ++ itoa i ++ "] with length "
             ++ itoa (Z.of_nat (List.length s)))
  end.

(** [s[i] = x]. *)
Definition store (A : Type) (s : list A) (i : Z) (x : A) : Res (list A) :=
  if (0 <=? i) && (i <? Z.of_nat (List.length s)) then
    Ok (firstn (Z.to_nat i) s ++ x :: skipn (S (Z.to_nat i)) s)
  else
    Panic ("index out of range [" ++ itoa i ++ "] with length "
           ++ itoa (Z.of_nat (List.length s))).

(** [make([]T, n)] for a zero value [zero]. *)
Definition make (A : Type) (zero : A) (n : Z) : Res (list A) :=
  if n <? 0 then Panic "makeslice: len out of range"
  else Ok (repeat zero (Z.to_nat n)).

(** Sequencing of steps that may panic. *)
Definition and_then (A B : Type) (r : Res A) (k : A -> Res B) : Res B :=
  match r with
  | Ok a => k a
  | Err e => Err e
  | Panic msg => Panic msg
  | Diverge => Diverge
  end.

Lemma index_ok (A : Type) (s : list A) (i : nat) (x : A) :
  nth_error s i = Some x -> index s (Z.of_nat i) = Ok x.
Proof.
  intros H. unfold index.
  replace (0 <=? Z.of_nat i) with true by (symmetry; apply Z.leb_le; lia).
  rewrite Nat2Z.id, H. reflexivity.
Qed.

Lemma store_ok (A : Type) (s : list A) (i : nat) (x : A) :
  (i < List.length s)%nat ->
  store s (Z.of_nat i) x = Ok (firstn i s ++ x :: skipn (S i) s).
Proof.
  intros H. unfold store.
  replace (0 <=? Z.of_nat i) with true by (symmetry; apply Z.leb_le; lia).
  replace (Z.of_nat i <? Z.of_nat (List.length s)) with true
    by (symmetry; apply Z.ltb_lt; lia).
  rewrite Nat2Z.id. reflexivity.
Qed.

Lemma stored_length (A : Type) (s : list A) (i : nat) (x : A) :
  (i < List.length s)%nat ->
  List.length (firstn i s ++ x :: skipn (S i) s) = List.length s.
Proof.
  intros H. rewrite length_app, length_firstn.
  change (List.length (x :: skipn (S i) s)) with (S (List.length (skipn (S i) s))).
  rewrite length_skipn. lia.
Qed.

Lemma stored_nth (A : Type) (s : list A) (i j : nat) (x : A) :
  (i < List.length s)%nat ->
  nth_error (firstn i s ++ x :: skipn (S i) s) j
  = if Nat.eqb j i then Some x else nth_error s j.
Proof.
  intros H.
  assert (Hl: List.length (firstn i s) = i) by (rewrite length_firstn; lia).
  destruct (Nat.eqb_spec j i) as [-> | Hne].
  - rewrite nth_error_app2 by lia. rewrite Hl, Nat.sub_diag. reflexivity.
  - destruct (Nat.lt_ge_cases j i) as [Hlt | Hge].
    + rewrite nth_error_app1 by lia. rewrite nth_error_firstn.
      replace (j <? i)%nat with true by (symmetry; apply Nat.ltb_lt; exact Hlt).
      reflexivity.
    + rewrite nth_error_app2 by lia. rewrite Hl.
      destruct (j - i)%nat as [|k] eqn:E; [lia |].
      change (nth_error (x :: skipn (S i) s) (S k))
        with (nth_error (skipn (S i) s) k).
      rewrite nth_error_skipn. f_equal. lia.
Qed.

End slices.

(* ===================================================================== *)
(** * internal/models *)
(* ===================================================================== *)

Module models.

Import slices.

(** [openrouter.Model] and [openrouter.Pricing] (types.go); a nil
    [*Pricing] is [None]. *)
Record Pricing : Type := { Prompt : string; Completion : string }.

Record Model : Type := { ID : string; Name : string; Pricing_ : option Pricing }.

Definition zero_Model : Model := {| ID := ""; Name := ""; Pricing_ := None |}.

Record Registry : Type := { free : list Model }.

(** [for _, m := range models { ... free = append(free, m) }]. *)
Definition NewRegistry (models : list Model) : Registry :=
  {| free :=
       fold_left
         (fun free m =>
            match Pricing_ m with
            | None => free
            | Some p =>
                if String.eqb (Prompt p) "0" && String.eqb (Completion p) "0"
                then free ++ [m]
                else free
            end)
         models [] |}.

Definition FreeModels (r : Registry) : list Model := free r.

(** [i % n], with the panic of a zero divisor. *)
Definition rem (i n : Z) : Res Z :=
  if n =? 0 then Panic "integer divide by zero" else Ok (Z.rem i n).

(** [for i := range n { selected[i] = r.free[i%len(r.free)] }], from [i]
    on, [count] iterations being left. *)
Fixpoint SelectModels_loop (free : list Model) (count : nat) (i : Z)
    (selected : list Model) : Res (list Model) :=
  match count with
  | O => Ok selected
  | S count' =>
      and_then (rem i (Z.of_nat (List.length free))) (fun k =>
      and_then (index free k) (fun m =>
      and_then (store selected i m) (fun selected' =>
      SelectModels_loop free count' (i + 1) selected')))
  end.

(** A nil slice and an empty one are both the empty list. *)
Definition SelectModels (r : Registry) (n : Z) : Res (list Model) :=
  if Z.of_nat (List.length (free r)) =? 0 then Ok []
  else
    and_then (make zero_Model n) (fun selected =>
    SelectModels_loop (free r) (Z.to_nat n) 0 selected).

Definition free_pricing : Pricing := {| Prompt := "0"; Completion := "0" |}.

Definition DefaultFreeModels : list Model :=
  [ {| ID := "qwen/qwen3-235b-a22b:free"; Name := "Qwen3 235B A22B";
       Pricing_ := Some free_pricing |};
    {| ID := "google/gemma-3n-e2b-it:free"; Name := "Gemma 3n 2B";
       Pricing_ := Some free_pricing |};
    {| ID := "nvidia/nemotron-nano-9b-v2:free"; Name := "Nemotron Nano 9B V2";
       Pricing_ := Some free_pricing |};
    {| ID := "qwen/qwen3-coder:free"; Name := "Qwen3 Coder 480B A35B";
       Pricing_ := Some free_pricing |};
    {| ID := "openai/gpt-oss-120b:free"; Name := "GPT OSS 120B";
       Pricing_ := Some free_pricing |} ].

(** ** Properties *)

(** A model offered at no cost: it has a pricing, and both prices are the
    text [0]. *)
Definition is_free (m : Model) : bool :=
  match Pricing_ m with
  | Some p => String.eqb (Prompt p) "0" && String.eqb (Completion p) "0"
  | None => false
  end.

Lemma is_free_pricing (m : Model) :
  is_free m = true <-> Pricing_ m = Some free_pricing.
Proof.
  unfold is_free, free_pricing. destruct (Pricing_ m) as [[p c]|]; simpl.
  - rewrite andb_true_iff, !String.eqb_eq. split.
    + intros [-> ->]. reflexivity.
    + intros H. inversion H. auto.
  - split; discriminate.
Qed.

Lemma NewRegistry_fold (ms acc : list Model) :
  fold_left
    (fun free m =>
       match Pricing_ m with
       | None => free
       | Some p =>
           if String.eqb (Prompt p) "0" && String.eqb (Completion p) "0"
           then free ++ [m]
           else free
       end) ms acc
  = acc ++ filter is_free ms.
Proof.
  revert acc. induction ms as [|m ms IH]; intros acc; simpl.
  - rewrite app_nil_r. reflexivity.
  - rewrite IH. unfold is_free at 2.
    destruct (Pricing_ m) as [p|]; [| reflexivity].
    destruct (String.eqb (Prompt p) "0" && String.eqb (Completion p) "0");
      [rewrite <- app_assoc |]; reflexivity.
Qed.

Lemma NewRegistry_filter (ms : list Model) :
  FreeModels (NewRegistry ms) = filter is_free ms.
Proof. unfold FreeModels, NewRegistry. simpl. apply NewRegistry_fold. Qed.

(** X1. The registry holds the models of its input that have a pricing
    with both prices [0], in the order of the input and as often as they
    occur there; a model without pricing or with a price other than the
    text [0] never enters it. *)
Theorem NewRegistry_keeps_free_models (ms : list Model) :
  FreeModels (NewRegistry ms) = filter is_free ms /\
  forall m, In m (FreeModels (NewRegistry ms))
            <-> In m ms /\ Pricing_ m = Some free_pricing.
Proof.
  split; [apply NewRegistry_filter |].
  intros m. rewrite NewRegistry_filter, filter_In, is_free_pricing. reflexivity.
Qed.

Lemma SelectModels_loop_spec (free : list Model) :
  free <> [] ->
  forall (count i : nat) (selected : list Model),
    (i + count = List.length selected)%nat ->
    exists sel,
      SelectModels_loop free count (Z.of_nat i) selected = Ok sel /\
      List.length sel = List.length selected /\
      forall j,
        nth_error sel j
        = if (i <=? j)%nat
          then (if (j <? i + count)%nat
                then nth_error free (j mod List.length free)
                else nth_error selected j)
          else nth_error selected j.
Proof.
  intros Hne. induction count as [|count IH]; intros i selected Hlen.
  - exists selected. split; [reflexivity |]. split; [reflexivity |].
    intros j. destruct (i <=? j)%nat eqn:E1; [| reflexivity].
    replace (j <? i + 0)%nat with false; [reflexivity |].
    symmetry. apply Nat.ltb_ge. apply Nat.leb_le in E1. lia.
  - assert (Hpos: (0 < List.length free)%nat)
      by (destruct free; [contradiction | simpl; lia]).
    simpl SelectModels_loop. unfold rem.
    replace (Z.of_nat (List.length free) =? 0) with false
      by (symmetry; apply Z.eqb_neq; lia).
    unfold and_then at 1.
    rewrite Z.rem_mod_nonneg by lia.
    rewrite <- Nat2Z.inj_mod.
    assert (Hk: (i mod List.length free < List.length free)%nat)
      by (apply Nat.mod_upper_bound; lia).
    destruct (nth_error free (i mod List.length free)) as [m|] eqn:Em.
    2:{ apply nth_error_None in Em. lia. }
    rewrite (index_ok _ _ Em). unfold and_then at 1.
    rewrite store_ok by lia. unfold and_then at 1.
    replace (Z.of_nat i + 1) with (Z.of_nat (S i)) by lia.
    set (selected' := firstn i selected ++ m :: skipn (S i) selected).
    assert (Hl': List.length selected' = List.length selected)
      by (apply stored_length; lia).
    destruct (IH (S i) selected') as [sel [Hrun [Hlsel Hnth]]]; [lia |].
    exists sel. split; [exact Hrun |]. split; [congruence |].
    intros j. rewrite Hnth. unfold selected'.
    rewrite stored_nth by lia.
    destruct (Nat.eqb_spec j i) as [-> | Hji].
    + replace (S i <=? i)%nat with false by (symmetry; apply Nat.leb_gt; lia).
      replace (i <=? i)%nat with true by (symmetry; apply Nat.leb_le; lia).
      replace (i <? i + S count)%nat with true by (symmetry; apply Nat.ltb_lt; lia).
      symmetry. exact Em.
    + destruct (Nat.leb_spec (S i) j) as [H1 | H1].
      * replace (i <=? j)%nat with true by (symmetry; apply Nat.leb_le; lia).
        replace (S i + count)%nat with (i + S count)%nat by lia.
        reflexivity.
      * replace (i <=? j)%nat with false by (symmetry; apply Nat.leb_gt; lia).
        reflexivity.
Qed.

Lemma SelectModels_nth (r : Registry) (n : Z) :
  free r <> [] -> 0 <= n ->
  exists sel,
    SelectModels r n = Ok sel /\
    List.length sel = Z.to_nat n /\
    (forall i, (i < Z.to_nat n)%nat ->
               nth_error sel i = nth_error (free r) (i mod List.length (free r))).
Proof.
  intros Hne Hn. unfold SelectModels, make.
  assert (Hpos: (0 < List.length (free r))%nat)
    by (destruct (free r); [contradiction | simpl; lia]).
  replace (Z.of_nat (List.length (free r)) =? 0) with false
    by (symmetry; apply Z.eqb_neq; lia).
  replace (n <? 0) with false by (symmetry; apply Z.ltb_ge; lia).
  unfold and_then at 1.
  destruct (@SelectModels_loop_spec (free r) Hne (Z.to_nat n) O
              (repeat zero_Model (Z.to_nat n))) as [sel [Hrun [Hlen Hnth]]].
  { rewrite repeat_length. reflexivity. }
  rewrite repeat_length in Hlen.
  change (Z.of_nat 0) with 0 in Hrun.
  exists sel. split; [exact Hrun |]. split; [exact Hlen |].
  intros i Hi. rewrite Hnth. simpl.
  replace (i <? Z.to_nat n)%nat with true by (symmetry; apply Nat.ltb_lt; lia).
  reflexivity.
Qed.



Example SelectModels_wraps_around :
  let a := {| ID := "a"; Name := "A"; Pricing_ := Some free_pricing |} in
  let b := {| ID := "b"; Name := "B"; Pricing_ := Some free_pricing |} in
  SelectModels (NewRegistry [a; b]) 5 = Ok [a; b; a; b; a] /\
  SelectModels (NewRegistry []) 5 = Ok [] /\
  SelectModels (NewRegistry [a; b]) (-1) = Panic "makeslice: len out of range".
Proof. vm_compute. repeat split; reflexivity. Qed.

Lemma DefaultFreeModels_free :
  FreeModels (NewRegistry DefaultFreeModels) = DefaultFreeModels.
Proof. reflexivity. Qed.

End models.

(* ===================================================================== *)
(** * cmd/tenthman: what [runDebate] computes before the run *)
(* ===================================================================== *)

Module cli.

Import slices models.

Definition names : list string :=
  ["Alice"; "Bob"; "Carol"; "Dave"; "Eve"; "Frank"; "Grace"; "Heidi"; "Ivan"]%string.

Definition zero_Agent : debate.Agent :=
  {| debate.ID := 0; debate.Name := ""; debate.Model := ""; debate.Role := "" |}.

(** [agentName := fmt.Sprintf("Agent-%d", i+1); if i < len(names) {
    agentName = names[i] }]. *)
Definition agentName (i : Z) : Res string :=
  let agentName := ("Agent-" ++ itoa (wrap (i + 1)))%string in
  if i <? Z.of_nat (List.length names) then index names i else Ok agentName.

(** [for i := range agentCount { ... agents[i] = debate.Agent{...} }]. *)
Fixpoint agents_loop (selected : list Model) (count : nat) (i : Z)
    (agents : list debate.Agent) : Res (list debate.Agent) :=
  match count with
  | O => Ok agents
  | S count' =>
      and_then (agentName i) (fun name =>
      and_then (index selected i) (fun m =>
      and_then (store agents i
                  {| debate.ID := wrap (i + 1); debate.Name := name;
                     debate.Model := ID m; debate.Role := "debater" |})
               (fun agents' =>
      agents_loop selected count' (i + 1) agents')))
  end.

(** The registry [runDebate] selects from: built from the models
    [ListModels] returned, or from the defaults when it failed; and from
    the defaults again when the first holds no free model. *)
Definition registry_for (listed : list Model + error) : Registry :=
  let allModels :=
    match listed with
    | inl ms => ms
    | inr _ => DefaultFreeModels
    end in
  let registry := NewRegistry allModels in
  if Z.of_nat (List.length (FreeModels registry)) =? 0
  then NewRegistry DefaultFreeModels
  else registry.

Record Setup : Type := {
  agents : list debate.Agent;
  judgeModel : string;
  tenthManModel : string
}.

(** The computations of [runDebate] between the check of the agent count
    and the run, in their order; [listed] is what [client.ListModels]
    returned.  The judge is given [judgeModel], the engine [agents] and,
    through [SetTenthManModel], [tenthManModel]. *)
Definition setup (listed : list Model + error) (agentCount : Z) : Res Setup :=
  if agentCount <? 3 then
    Err (errorString ("agent count must be >= 3, got " ++ itoa agentCount))
  else
    and_then (SelectModels (registry_for listed) (wrap (agentCount + 1)))
      (fun selected =>
    and_then (make zero_Agent agentCount) (fun agents0 =>
    and_then (agents_loop selected (Z.to_nat agentCount) 0 agents0) (fun agents1 =>
    and_then (index selected 0) (fun j =>
    and_then (index selected agentCount) (fun t =>
    Ok {| agents := agents1; judgeModel := ID j; tenthManModel := ID t |}))))).

(** ** Properties *)

Lemma registry_for_free (listed : list Model + error) :
  FreeModels (registry_for listed) <> [] /\
  forall m, In m (FreeModels (registry_for listed)) -> is_free m = true.
Proof.
  unfold registry_for.
  set (ms := match listed with inl ms => ms | inr _ => DefaultFreeModels end).
  destruct (Z.of_nat (List.length (FreeModels (NewRegistry ms))) =? 0) eqn:E.
  - split; [discriminate |]. intros m Hin.
    rewrite NewRegistry_filter in Hin.
    apply filter_In in Hin. tauto.
  - split.
    + intros H. rewrite H in E. discriminate.
    + intros m Hin.
      rewrite NewRegistry_filter in Hin.
      apply filter_In in Hin. tauto.
Qed.

(** The agent [runDebate] builds at index [i] on the model [m]. *)
Definition agent_at (i : nat) (m : Model) : debate.Agent :=
  {| debate.ID := Z.of_nat i + 1;
     debate.Name := nth i names ("Agent-" ++ itoa (Z.of_nat i + 1))%string;
     debate.Model := ID m;
     debate.Role := "debater" |}.

Lemma agentName_ok (j : nat) :
  Z.of_nat j < max_int ->
  agentName (Z.of_nat j)
  = Ok (nth j names ("Agent-" ++ itoa (Z.of_nat j + 1))%string).
Proof.
  intros Hj. unfold agentName.
  rewrite wrap_id by (unfold is_int, min_int, max_int in *; lia).
  destruct (Z.ltb_spec (Z.of_nat j) (Z.of_nat (List.length names))) as [Hlt | Hge].
  - apply index_ok. apply nth_error_nth'. lia.
  - rewrite nth_overflow by lia. reflexivity.
Qed.

Lemma agents_loop_spec (selected : list Model) :
  forall (count i : nat) (agents : list debate.Agent),
    (i + count = List.length agents)%nat ->
    (i + count <= List.length selected)%nat ->
    Z.of_nat (i + count) < max_int ->
    exists ags,
      agents_loop selected count (Z.of_nat i) agents = Ok ags /\
      List.length ags = List.length agents /\
      forall j,
        nth_error ags j
        = if (i <=? j)%nat
          then (if (j <? i + count)%nat
                then option_map (agent_at j) (nth_error selected j)
                else nth_error agents j)
          else nth_error agents j.
Proof.
  induction count as [|count IH]; intros i agents Hlen Hsel Hmax.
  - exists agents. split; [reflexivity |]. split; [reflexivity |].
    intros j. destruct (i <=? j)%nat eqn:E1; [| reflexivity].
    replace (j <? i + 0)%nat with false; [reflexivity |].
    symmetry. apply Nat.ltb_ge. apply Nat.leb_le in E1. lia.
  - simpl agents_loop.
    rewrite agentName_ok by lia. unfold and_then at 1.
    destruct (nth_error selected i) as [m|] eqn:Em.
    2:{ apply nth_error_None in Em. lia. }
    rewrite (index_ok _ _ Em). unfold and_then at 1.
    rewrite store_ok by lia. unfold and_then at 1.
    rewrite wrap_id by (unfold is_int, min_int, max_int in *; lia).
    match goal with
    | |- context [agents_loop selected count _ ?l] => set (agents' := l)
    end.
    replace (Z.of_nat i + 1) with (Z.of_nat (S i)) by lia.
    assert (Hl': List.length agents' = List.length agents)
      by (apply stored_length; lia).
    destruct (IH (S i) agents') as [ags [Hrun [Hlags Hnth]]]; try lia.
    exists ags. split; [exact Hrun |]. split; [congruence |].
    intros j. rewrite Hnth. unfold agents'.
    rewrite stored_nth by lia.
    destruct (Nat.eqb_spec j i) as [-> | Hji].
    + replace (S i <=? i)%nat with false by (symmetry; apply Nat.leb_gt; lia).
      replace (i <=? i)%nat with true by (symmetry; apply Nat.leb_le; lia).
      replace (i <? i + S count)%nat with true by (symmetry; apply Nat.ltb_lt; lia).
      rewrite Em. reflexivity.
    + destruct (Nat.leb_spec (S i) j) as [H1 | H1].
      * replace (i <=? j)%nat with true by (symmetry; apply Nat.leb_le; lia).
        replace (S i + count)%nat with (i + S count)%nat by lia.
        reflexivity.
      * replace (i <=? j)%nat with false by (symmetry; apply Nat.leb_gt; lia).
        reflexivity.
Qed.



(** Four agents over a listing with two free models and a paid one: the
    free models are cycled, and the Tenth Man shares the model of the
    first agent and of the judge. *)
Example setup_cycles_two_models :
  let a := {| ID := "a"; Name := "A"; Pricing_ := Some free_pricing |} in
  let p := {| ID := "p"; Name := "P";
              Pricing_ := Some {| Prompt := "0.01"; Completion := "0" |} |} in
  let b := {| ID := "b"; Name := "B"; Pricing_ := Some free_pricing |} in
  match setup (inl [a; p; b]) 4 with
  | Ok st =>
      map debate.Model (agents st) = ["a"; "b"; "a"; "b"]%string /\
      map debate.Name (agents st) = ["Alice"; "Bob"; "Carol"; "Dave"]%string /\
      judgeModel st = "a"%string /\ tenthManModel st = "a"%string
  | _ => False
  end.
Proof. vm_compute. repeat split; reflexivity. Qed.

End cli.

(* ===================================================================== *)
(** * internal/config *)
(* ===================================================================== *)

Module config.

Import strings.

Record Config : Type := {
  APIKey : string;
  OutputDir : string;
  AgentCount : Z;
  MinRounds : Z;
  MaxRounds : Z
}.

(** The environment as [os.Getenv] reads it: the value of a variable, the
    empty text when it is not set. *)
Definition Env : Type := string -> string.

Definition NUL : string := String (ascii_of_nat 0) EmptyString.

Definition Contains (s sub : string) : bool := 0 <=? Index sub s.

(** [os.Setenv], its error dropped as the caller does: the system call
    refuses an empty key, a key that holds [=] or a NUL byte, and a value
    that holds a NUL byte. *)
Definition Setenv (key value : string) (env : Env) : Env :=
  if String.eqb key "" || Contains key "=" || Contains key NUL
     || Contains value NUL
  then env
  else fun k => if String.eqb k key then value else env k.

(** [strings.Cut]. *)
Definition Cut (s sep : string) : string * string * bool :=
  let i := Index sep s in
  if 0 <=? i
  then (take (Z.to_nat i) s, drop (Z.to_nat i + String.length sep) s, true)
  else (s, EmptyString, false).

(** What [os.Open] and the scanner deliver: no such file, another error,
    or the lines scanned and the error the scanner ends with. *)
Inductive Opened : Type :=
| NotExist
| OpenFailed (err : error)
| Scanned (lines : list string) (scanErr : option error).

Section Library.

(** [strconv.Quote] behind the verb [%q], the error [strconv.Atoi] returns
    on a text it rejects, and [strings.TrimSpace]. *)
Variable Quote : string -> string.
Variable Atoi_error : string -> error.
Variable TrimSpace : string -> string.

Definition envInt (env : Env) (key : string) (defaultVal : Z) : Res Z :=
  let s := env key in
  if String.eqb s "" then Ok defaultVal
  else
    match Atoi s with
    | Some v => Ok v
    | None =>
        Err (wrapError
               ("config: invalid " ++ key ++ " value " ++ Quote s ++ ": "
                ++ Error (Atoi_error s))
               (Atoi_error s))
    end.

Definition Load (env : Env) : Res Config :=
  let apiKey := env "OPENROUTER_API_KEY"%string in
  if String.eqb apiKey "" then
    Err (errorString "config: OPENROUTER_API_KEY is required")
  else
    let outputDir := env "TENTHMAN_OUTPUT_DIR"%string in
    let outputDir := if String.eqb outputDir "" then "output"%string else outputDir in
    slices.and_then (envInt env "TENTHMAN_AGENTS" 9) (fun agentCount =>
    slices.and_then (envInt env "TENTHMAN_MIN_ROUNDS" 5) (fun minRounds =>
    slices.and_then (envInt env "TENTHMAN_MAX_ROUNDS" 15) (fun maxRounds =>
    if agentCount <? 3 then
      Err (errorString ("config: AgentCount must be >= 3, got " ++ itoa agentCount))
    else if minRounds <? 1 then
      Err (errorString ("config: MinRounds must be >= 1, got " ++ itoa minRounds))
    else if maxRounds <? minRounds then
      Err (errorString ("config: MaxRounds (" ++ itoa maxRounds
                        ++ ") must be >= MinRounds (" ++ itoa minRounds ++ ")"))
    else
      Ok {| APIKey := apiKey; OutputDir := outputDir; AgentCount := agentCount;
            MinRounds := minRounds; MaxRounds := maxRounds |}))).

(** The body of the scanning loop of [LoadDotEnv], for one line. *)
Definition dotenv_line (env : Env) (text : string) : Env :=
  let line := TrimSpace text in
  if String.eqb line "" || prefix "#" line then env
  else
    let '(key, val, ok) := Cut line "=" in
    if negb ok then env
    else
      let key := TrimSpace key in
      let val := TrimSpace val in
      if String.eqb (env key) "" then Setenv key val env else env.

Definition LoadDotEnv (f : Opened) (env : Env) : option error * Env :=
  match f with
  | NotExist => (None, env)
  | OpenFailed err => (Some (Errorf_w "config: opening .env: " err), env)
  | Scanned lines scanErr => (scanErr, fold_left dotenv_line lines env)
  end.

(** ** Properties *)

(** What a variable that holds a number is read as: the default when it
    is unset or empty, the integer it spells, or nothing. *)
Definition setting (env : Env) (key : string) (defaultVal : Z) : option Z :=
  if String.eqb (env key) "" then Some defaultVal else Atoi (env key).

Lemma envInt_setting (env : Env) (key : string) (d v : Z) :
  envInt env key d = Ok v <-> setting env key d = Some v.
Proof.
  unfold envInt, setting. destruct (String.eqb (env key) "").
  - split; intros H; inversion H; reflexivity.
  - destruct (Atoi (env key)) as [z|].
    + split; intros H; inversion H; reflexivity.
    + split; discriminate.
Qed.

Lemma envInt_outcome (env : Env) (key : string) (d : Z) :
  (exists v, envInt env key d = Ok v) \/ (exists e, envInt env key d = Err e).
Proof.
  unfold envInt. destruct (String.eqb (env key) ""); [left; eauto |].
  destruct (Atoi (env key)); [left | right]; eauto.
Qed.

(** X4. [Load] returns a configuration exactly when the API key is set,
    each of the three numeric variables is unset, empty or spells an
    integer, and the numbers read (9 agents, 5 and 15 rounds by default)
    satisfy [3 <= AgentCount] and [1 <= MinRounds <= MaxRounds]; the
    configuration then holds the key, these numbers, and the output
    directory of the environment or [output]. *)
Theorem Load_accepts (env : Env) (cfg : Config) :
  Load env = Ok cfg <->
  env "OPENROUTER_API_KEY"%string <> ""%string /\
  APIKey cfg = env "OPENROUTER_API_KEY"%string /\
  OutputDir cfg
  = (if String.eqb (env "TENTHMAN_OUTPUT_DIR"%string) ""
     then "output"%string else env "TENTHMAN_OUTPUT_DIR"%string) /\
  setting env "TENTHMAN_AGENTS" 9 = Some (AgentCount cfg) /\
  setting env "TENTHMAN_MIN_ROUNDS" 5 = Some (MinRounds cfg) /\
  setting env "TENTHMAN_MAX_ROUNDS" 15 = Some (MaxRounds cfg) /\
  3 <= AgentCount cfg /\ 1 <= MinRounds cfg <= MaxRounds cfg.
Proof.
  unfold Load.
  destruct (String.eqb_spec (env "OPENROUTER_API_KEY"%string) "") as [Ek | Ek].
  { split; [discriminate | intros [H _]; contradiction]. }
  rewrite <- !envInt_setting.
  destruct (envInt_outcome env "TENTHMAN_AGENTS" 9) as [[a Ea] | [e Ea]];
    rewrite Ea; simpl.
  2:{ split; [discriminate | intros [_ [_ [_ [H _]]]]; discriminate]. }
  destruct (envInt_outcome env "TENTHMAN_MIN_ROUNDS" 5) as [[mn Emn] | [e Emn]];
    rewrite Emn; simpl.
  2:{ split; [discriminate | intros [_ [_ [_ [_ [H _]]]]]; discriminate]. }
  destruct (envInt_outcome env "TENTHMAN_MAX_ROUNDS" 15) as [[mx Emx] | [e Emx]];
    rewrite Emx; simpl.
  2:{ split; [discriminate | intros [_ [_ [_ [_ [_ [H _]]]]]]; discriminate]. }
  destruct (Z.ltb_spec a 3) as [Ha | Ha].
  { split; [discriminate |].
    intros [_ [_ [_ [H1 [_ [_ [H _]]]]]]]. inversion H1. lia. }
  destruct (Z.ltb_spec mn 1) as [Hmn | Hmn].
  { split; [discriminate |].
    intros [_ [_ [_ [_ [H1 [_ [_ H]]]]]]]. inversion H1. lia. }
  destruct (Z.ltb_spec mx mn) as [Hmx | Hmx].
  { split; [discriminate |].
    intros [_ [_ [_ [_ [H1 [H2 [_ H]]]]]]]. inversion H1. inversion H2. lia. }
  split.
  - intros H. inversion H; subst cfg. simpl. repeat split; auto; lia.
  - intros [_ [H1 [H2 [H3 [H4 [H5 _]]]]]].
    destruct cfg as [k o ag mi ma]. simpl in *.
    inversion H3. inversion H4. inversion H5. subst. reflexivity.
Qed.

(** The defaults of the tool. *)
Example Load_defaults :
  let env : Env := fun k => if String.eqb k "OPENROUTER_API_KEY" then "sk-test"%string
                            else ""%string in
  Load env
  = Ok {| APIKey := "sk-test"; OutputDir := "output"; AgentCount := 9;
          MinRounds := 5; MaxRounds := 15 |}.
Proof. reflexivity. Qed.

Lemma Setenv_other (key value k : string) (env : Env) :
  k <> key -> Setenv key value env k = env k.
Proof.
  intros Hne. unfold Setenv.
  destruct (String.eqb key "" || Contains key "=" || Contains key NUL
            || Contains value NUL); [reflexivity |].
  destruct (String.eqb_spec k key); [contradiction | reflexivity].
Qed.

Lemma dotenv_line_keeps (env : Env) (text k : string) :
  env k <> ""%string -> dotenv_line env text k = env k.
Proof.
  intros Hset. unfold dotenv_line.
  destruct (String.eqb (TrimSpace text) "" || prefix "#" (TrimSpace text));
    [reflexivity |].
  destruct (Cut (TrimSpace text) "=") as [[key val] ok].
  destruct ok; simpl; [| reflexivity].
  destruct (String.eqb_spec (env (TrimSpace key)) "") as [E | E]; [| reflexivity].
  apply Setenv_other. intros ->. contradiction.
Qed.

Lemma dotenv_lines_keep (lines : list string) (env : Env) (k : string) :
  env k <> ""%string -> fold_left dotenv_line lines env k = env k.
Proof.
  revert env. induction lines as [|text lines IH]; intros env Hset; [reflexivity |].
  simpl. rewrite IH; rewrite dotenv_line_keeps; auto.
Qed.

(** X5. The environment wins over the file: a variable that has a
    non-empty value before [LoadDotEnv] has the same value after it,
    whatever the file holds and however the reading ends. *)
Theorem LoadDotEnv_keeps_set_variables (f : Opened) (env : Env) (k : string) :
  env k <> ""%string -> snd (LoadDotEnv f env) k = env k.
Proof.
  intros Hset. destruct f as [| err | lines scanErr]; simpl; try reflexivity.
  apply dotenv_lines_keep. exact Hset.
Qed.

(** The assignment a line of the file makes, if it is one: the key and the
    value, trimmed. *)
Definition assignment (text : string) : option (string * string) :=
  let line := TrimSpace text in
  if String.eqb line "" || prefix "#" line then None
  else
    let '(key, val, ok) := Cut line "=" in
    if negb ok then None else Some (TrimSpace key, TrimSpace val).

Lemma dotenv_line_assignment (env : Env) (text : string) :
  dotenv_line env text
  = match assignment text with
    | Some (key, val) =>
        if String.eqb (env key) "" then Setenv key val env else env
    | None => env
    end.
Proof.
  unfold dotenv_line, assignment.
  destruct (String.eqb (TrimSpace text) "" || prefix "#" (TrimSpace text));
    [reflexivity |].
  destruct (Cut (TrimSpace text) "=") as [[key val] ok].
  destruct ok; reflexivity.
Qed.

Lemma Setenv_cases (key val : string) :
  (forall env k, Setenv key val env k = env k) \/
  (forall env k, Setenv key val env k = if String.eqb k key then val else env k).
Proof.
  unfold Setenv.
  destruct (String.eqb key "" || Contains key "=" || Contains key NUL
            || Contains val NUL); [left | right]; reflexivity.
Qed.

Lemma dotenv_line_ext (e1 e2 : Env) (text : string) :
  (forall k, e1 k = e2 k) -> forall k, dotenv_line e1 text k = dotenv_line e2 text k.
Proof.
  intros H k. rewrite !dotenv_line_assignment.
  destruct (assignment text) as [[key val]|]; [| apply H].
  rewrite (H key). destruct (String.eqb (e2 key) ""); [| apply H].
  destruct (Setenv_cases key val) as [C | C]; rewrite !C; [apply H |].
  destruct (String.eqb k key); [reflexivity | apply H].
Qed.

(** Once a line has been read, reading it again changes nothing, whatever
    was read in between. *)
Lemma dotenv_line_settled (env : Env) (text : string) (rest : list string) (k : string) :
  dotenv_line (fold_left dotenv_line rest (dotenv_line env text)) text k
  = fold_left dotenv_line rest (dotenv_line env text) k.
Proof.
  set (env1 := fold_left dotenv_line rest (dotenv_line env text)).
  rewrite (dotenv_line_assignment env1).
  destruct (assignment text) as [[key val]|] eqn:Ea; [| reflexivity].
  destruct (String.eqb_spec (env1 key) "") as [E1 | E1]; [| reflexivity].
  destruct (Setenv_cases key val) as [C | C]; rewrite C; [reflexivity |].
  destruct (String.eqb_spec k key) as [-> | Hk]; [| reflexivity].
  rewrite E1.
  destruct (String.eqb_spec val "") as [Ev | Ev]; [exact Ev |].
  exfalso.
  assert (Hq: dotenv_line env text key <> ""%string).
  { rewrite dotenv_line_assignment, Ea.
    destruct (String.eqb_spec (env key) "") as [E0 | E0]; [| exact E0].
    rewrite C, String.eqb_refl. exact Ev. }
  pose proof (dotenv_lines_keep rest (dotenv_line env text) key Hq) as Hkeep.
  fold env1 in Hkeep. rewrite E1 in Hkeep. apply Hq. symmetry. exact Hkeep.
Qed.

Lemma dotenv_lines_settled (lines : list string) :
  forall (env : Env) (text : string),
    In text lines ->
    forall k, dotenv_line (fold_left dotenv_line lines env) text k
              = fold_left dotenv_line lines env k.
Proof.
  induction lines as [|t lines IH]; intros env text Hin k; [contradiction |].
  destruct Hin as [<- | Hin]; simpl.
  - apply dotenv_line_settled.
  - apply IH. exact Hin.
Qed.

Lemma dotenv_lines_fixed (lines : list string) (e : Env) :
  (forall text, In text lines -> forall k, dotenv_line e text k = e k) ->
  forall e', (forall k, e' k = e k) ->
             forall k, fold_left dotenv_line lines e' k = e k.
Proof.
  induction lines as [|t lines IH]; intros Hfix e' He k; [apply He |].
  simpl. apply IH.
  - intros text Hin. apply Hfix. right. exact Hin.
  - intros k'. rewrite (dotenv_line_ext e' e t He). apply Hfix. left. reflexivity.
Qed.

(** X6. Reading the same file a second time changes no variable: after
    [LoadDotEnv] every assignment of the file either finds its variable
    set or assigns the value the variable already has. *)
Theorem LoadDotEnv_idempotent (f : Opened) (env : Env) (k : string) :
  snd (LoadDotEnv f (snd (LoadDotEnv f env))) k = snd (LoadDotEnv f env) k.
Proof.
  destruct f as [| err | lines scanErr]; simpl; try reflexivity.
  apply dotenv_lines_fixed; [| reflexivity].
  intros text Hin k'. apply dotenv_lines_settled. exact Hin.
Qed.

End Library.

End config.

(* ===================================================================== *)
(** * Loading a configuration, on the library models *)
(* ===================================================================== *)

Module config_runs.

Import config.

Definition sample_env : Env :=
  fun k => if String.eqb k "OPENROUTER_API_KEY" then "from-env"%string
           else ""%string.

Definition sample_file : Opened :=
  Scanned [ "# settings"; "OPENROUTER_API_KEY=from-file"; " TENTHMAN_AGENTS = 4 ";
            "no assignment here"; ""; "TENTHMAN_AGENTS=7"; "=orphan" ]%string
          None.

(** The key of the environment stays, the first assignment of a variable
    that was unset is taken: the instance of
    [LoadDotEnv_keeps_set_variables] at this file. *)
Lemma LoadDotEnv_keeps_set_variables_witness :
  let env := snd (LoadDotEnv golib.TrimSpace sample_file sample_env) in
  env "OPENROUTER_API_KEY"%string = "from-env"%string /\
  env "TENTHMAN_AGENTS"%string = "4"%string /\
  env ""%string = ""%string.
Proof.
  intros env. split; [| split; vm_compute; reflexivity].
  refine (@LoadDotEnv_keeps_set_variables golib.TrimSpace sample_file sample_env
            "OPENROUTER_API_KEY" _).
  vm_compute. discriminate.
Defined.

(** The file then feeds [Load]. *)
Example Load_after_dotenv :
  Load (fun s => s) (fun _ => errorString "invalid syntax")
       (snd (LoadDotEnv golib.TrimSpace sample_file sample_env))
  = Ok {| APIKey := "from-env"; OutputDir := "output"; AgentCount := 4;
          MinRounds := 5; MaxRounds := 15 |}.
Proof. vm_compute. reflexivity. Qed.

End config_runs.

(* ===================================================================== *)
(** * The engine: how many calls a run makes, and when it ends *)
(* ===================================================================== *)

Module budget.

Import openrouter debate engine.

(** The model calls and the verdicts asked in a log. *)
Definition is_turn_call (ev : Event) : bool :=
  match ev with
  | EvChat _ _ _ => true
  | _ => false
  end.

Definition is_verdict (ev : Event) : bool :=
  match ev with
  | EvEvaluate _ _ => true
  | _ => false
  end.

Definition turn_calls (evs : list Event) : nat :=
  List.length (filter is_turn_call evs).

Definition verdict_calls (evs : list Event) : nat :=
  List.length (filter is_verdict evs).

Lemma turn_calls_app (l1 l2 : list Event) :
  turn_calls (l1 ++ l2) = (turn_calls l1 + turn_calls l2)%nat.
Proof. unfold turn_calls. rewrite filter_app, length_app. reflexivity. Qed.

Lemma verdict_calls_app (l1 l2 : list Event) :
  verdict_calls (l1 ++ l2) = (verdict_calls l1 + verdict_calls l2)%nat.
Proof. unfold verdict_calls. rewrite filter_app, length_app. reflexivity. Qed.

Lemma turn_events_no_verdict (evs : list Event) :
  Forall turn_event evs -> verdict_calls evs = O.
Proof.
  induction 1 as [|ev evs Hev _ IH]; [reflexivity |].
  change (ev :: evs) with ([ev] ++ evs). rewrite verdict_calls_app, IH.
  destruct ev; simpl in *; auto; contradiction.
Qed.

Lemma turn_run_calls (round : Z) (a : Agent) (tr tr' : Transcript)
    (evs : list Event) (out : Res unit) :
  turn_run round a tr evs out tr' -> (turn_calls evs <= 1)%nat.
Proof. intros H. destruct H; cbv; lia. Qed.

Lemma agents_run_calls (round : Z) (ags : list Agent) (tr tr' : Transcript)
    (evs : list Event) (out : Res unit) :
  agents_run round ags tr evs out tr' -> (turn_calls evs <= List.length ags)%nat.
Proof.
  induction 1 as [tr | a ags tr tr' evs out Ht Hn
                 | a ags tr tr1 tr2 evs1 evs2 out Ht Hrest IH].
  - cbv. lia.
  - apply turn_run_calls in Ht. simpl. lia.
  - apply turn_run_calls in Ht. rewrite turn_calls_app. simpl. lia.
Qed.

Lemma round_run_calls (ags : list Agent) (round : Z) (tr tr' : Transcript)
    (evs : list Event) (out : Res unit) :
  round_run ags round tr evs out tr' ->
  (turn_calls evs <= List.length ags)%nat /\ verdict_calls evs = O.
Proof.
  intros R. split.
  - destruct R as [tr1 [H _]]. eapply agents_run_calls. exact H.
  - destruct (round_run_facts R) as [_ [E _]]. apply turn_events_no_verdict. exact E.
Qed.

Lemma rounds_run_calls (ags : list Agent) (rs : list Z) (tr tr' : Transcript)
    (evs : list Event) (out : Res unit) :
  rounds_run ags rs tr evs out tr' ->
  (turn_calls evs <= List.length rs * List.length ags)%nat /\
  verdict_calls evs = O.
Proof.
  induction 1 as [tr | r rs tr tr' evs out Hr Hn
                 | r rs tr tr1 tr2 evs1 evs2 out Hr Hrest IH].
  - split; reflexivity.
  - destruct (round_run_calls Hr) as [C V]. split; [simpl; lia | exact V].
  - destruct (round_run_calls Hr) as [C V]. destruct IH as [C2 V2].
    rewrite turn_calls_app, verdict_calls_app. split; [simpl; lia | lia].
Qed.

Ltac product_lia :=
  repeat match goal with
         | |- context [(Z.to_nat ?z * ?n)%nat] =>
             let p := fresh "p" in
             set (p := (Z.to_nat z * n)%nat) in *; clearbody p
         end;
  lia.

(** Phase 1 from [round] on plays at most the rounds up to [maxR], and
    asks at most one verdict per round from [minR] on. *)
Lemma free_run_calls (ags : list Agent) (minR maxR round : Z)
    (cons : option ConsensusResult) (tr tr' : Transcript) (evs : list Event)
    (out : Res (option ConsensusResult)) :
  free_run ags minR maxR round cons tr evs out tr' ->
  is_int round -> maxR < max_int ->
  (turn_calls evs <= Z.to_nat (maxR - round + 1) * List.length ags)%nat /\
  (verdict_calls evs <= Z.to_nat (maxR - Z.max round minR + 1))%nat.
Proof.
  induction 1 as [round cons tr Hx
                 | round cons tr
                 | round cons tr tr' evs out Hle Hr Hn
                 | round cons tr tr1 tr2 evs1 evs2 out Hle Hlt Hr Hrest IH
                 | round cons tr tr1 evs1 r Hle Hge Hr Hn
                 | round cons tr tr1 evs1 c Hle Hge Hr Ht
                 | round cons tr tr1 tr2 evs1 evs2 c out Hle Hge Hr Ht Hrest IH];
    intros Hi Hmax.
  - split; apply Nat.le_0_l.
  - split; apply Nat.le_0_l.
  - destruct (round_run_calls Hr) as [C V]. rewrite V. split; [| lia].
    replace (Z.to_nat (maxR - round + 1)) with (S (Z.to_nat (maxR - round))) by lia.
    rewrite Nat.mul_succ_l. product_lia.
  - destruct (round_run_calls Hr) as [C V].
    assert (Hs: wrap (round + 1) = round + 1)
      by (apply wrap_succ; [exact Hi | lia]).
    rewrite Hs in IH.
    destruct IH as [C2 V2];
      [unfold is_int, min_int, max_int in *; lia | exact Hmax |].
    rewrite turn_calls_app, verdict_calls_app, V. split.
    + replace (Z.to_nat (maxR - round + 1))
        with (S (Z.to_nat (maxR - (round + 1) + 1))) by lia.
      rewrite Nat.mul_succ_l. product_lia.
    + replace (Z.max round minR) with (Z.max (round + 1) minR) by lia. lia.
  - destruct (round_run_calls Hr) as [C V].
    rewrite turn_calls_app, verdict_calls_app, V. split.
    + replace (Z.to_nat (maxR - round + 1)) with (S (Z.to_nat (maxR - round))) by lia.
      change (turn_calls [EvEvaluate tr1 r]) with O. rewrite Nat.mul_succ_l. product_lia.
    + change (verdict_calls [EvEvaluate tr1 r]) with 1%nat. lia.
  - destruct (round_run_calls Hr) as [C V].
    rewrite turn_calls_app, verdict_calls_app, V. split.
    + replace (Z.to_nat (maxR - round + 1)) with (S (Z.to_nat (maxR - round))) by lia.
      change (turn_calls [EvEvaluate tr1 (Ok c)]) with O. rewrite Nat.mul_succ_l. product_lia.
    + change (verdict_calls [EvEvaluate tr1 (Ok c)]) with 1%nat. lia.
  - destruct (round_run_calls Hr) as [C V].
    assert (Hs: wrap (round + 1) = round + 1)
      by (apply wrap_succ; [exact Hi | lia]).
    rewrite Hs in IH.
    destruct IH as [C2 V2];
      [unfold is_int, min_int, max_int in *; lia | exact Hmax |].
    change (evs1 ++ EvEvaluate tr1 (Ok c) :: evs2)
      with (evs1 ++ [EvEvaluate tr1 (Ok c)] ++ evs2).
    rewrite !turn_calls_app, !verdict_calls_app, V.
    change (turn_calls [EvEvaluate tr1 (Ok c)]) with O.
    change (verdict_calls [EvEvaluate tr1 (Ok c)]) with 1%nat.
    split.
    + replace (Z.to_nat (maxR - round + 1))
        with (S (Z.to_nat (maxR - (round + 1) + 1))) by lia.
      rewrite Nat.mul_succ_l. product_lia.
    + lia.
Qed.

Lemma tenth_rounds_length (start : Z) : (List.length (tenth_rounds start) <= 3)%nat.
Proof.
  unfold tenth_rounds. destruct (start + tenthManRounds <=? max_int); simpl; lia.
Qed.

(** Without [minR <= maxR] no round reaches the judge. *)
Lemma free_run_unjudged (ags : list Agent) (minR maxR round : Z)
    (cons : option ConsensusResult) (tr tr' : Transcript) (evs : list Event)
    (out : Res (option ConsensusResult)) :
  free_run ags minR maxR round cons tr evs out tr' ->
  maxR < minR ->
  Forall turn_event evs /\ forall o, out = Ok o -> o = cons.
Proof.
  induction 1 as [round cons tr Hx
                 | round cons tr
                 | round cons tr tr' evs out Hle Hr Hn
                 | round cons tr tr1 tr2 evs1 evs2 out Hle Hlt Hr Hrest IH
                 | round cons tr tr1 evs1 r Hle Hge Hr Hn
                 | round cons tr tr1 evs1 c Hle Hge Hr Ht
                 | round cons tr tr1 tr2 evs1 evs2 c out Hle Hge Hr Ht Hrest IH];
    intros Hmm; try lia.
  - split; [constructor |]. intros o E. inversion E. reflexivity.
  - split; [constructor | discriminate].
  - destruct (round_run_facts Hr) as [_ [E _]]. split; [exact E |].
    destruct out; simpl in *; try discriminate; contradiction.
  - destruct (round_run_facts Hr) as [_ [E _]]. destruct (IH Hmm) as [E2 O2].
    split; [apply Forall_app; auto | exact O2].
Qed.

Section Runs.

Variable World : Type.

(** X7. With [maxRounds] below the largest integer a run, however it
    ends, makes at most [maxRounds] times the number of agents model calls
    in phase 1 and three times that number plus one in phase 2; it asks
    the judge at most once for each round from [minRounds] to [maxRounds]
    and once more at the end of phase 2; and it builds at most one
    contrarian. *)
Theorem Run_call_budget (ctx : Context World) (fuel : nat) (s s' : St World)
    (out : Res Result) :
  Run ctx fuel s = (out, s') ->
  maxRounds (self s) < max_int ->
  exists evs,
    log s' = log s ++ evs /\
    (turn_calls evs
     <= Z.to_nat (maxRounds (self s)) * List.length (agents (self s))
        + 3 * (List.length (agents (self s)) + 1))%nat /\
    (verdict_calls evs
     <= Z.to_nat (maxRounds (self s) - Z.max 1 (minRounds (self s)) + 1) + 1)%nat /\
    (List.length (builds evs) <= 1)%nat.
Proof.
  intros H Hmax. apply Run_sound in H. destruct H as [evs [L R]].
  exists evs. split; [exact L |].
  assert (Hi: is_int 1) by (unfold is_int, min_int, max_int; lia).
  destruct (run_rel_read R) as [St | [evs1 [c [tr1 [rest Mv]]]]].
  - destruct St as [fo [tr1 [F [_ [Hq _]]]]].
    destruct (free_run_calls F Hi Hmax) as [C V].
    replace (maxRounds (self s) - 1 + 1) with (maxRounds (self s)) in C by lia.
    rewrite (quiet_no_builds Hq). simpl. split; [| split]; lia.
  - destruct Mv as [F [-> [Hq [Ht [Hm [Hb Hcase]]]]]].
    destruct (free_run_calls F Hi Hmax) as [C V].
    replace (maxRounds (self s) - 1 + 1) with (maxRounds (self s)) in C by lia.
    change (evs1 ++ EvEvaluate tr1 (Ok c) :: rest)
      with (evs1 ++ [EvEvaluate tr1 (Ok c)] ++ rest).
    rewrite app_assoc, turn_calls_app, verdict_calls_app, builds_app.
    assert (B1: builds (evs1 ++ [EvEvaluate tr1 (Ok c)]) = []).
    { rewrite builds_app, (quiet_no_builds Hq). reflexivity. }
    rewrite B1. simpl app.
    destruct (contrarian (self s) c) as [a|].
    + destruct Hcase as [evs2 [out2 [tr2 [RR [_ Hrest]]]]].
      destruct (rounds_run_calls RR) as [C2 V2].
      destruct (rounds_run_facts RR) as [_ [E2 _]].
      apply turn_event_no_turns_change in E2. apply quiet_no_builds in E2.
      pose proof (tenth_rounds_length (wrap (Rounds tr1 + 1))) as Hl.
      rewrite length_app in C2. simpl List.length in C2.
      assert (C3: (turn_calls evs2 <= 3 * (List.length (agents (self s)) + 1))%nat).
      { eapply Nat.le_trans; [exact C2 |]. apply Nat.mul_le_mono_r. exact Hl. }
      assert (Hrest': exists tail,
                 rest = [EvBuildAgent a] ++ evs2 ++ tail /\
                 turn_calls tail = O /\ (verdict_calls tail <= 1)%nat /\
                 builds tail = []).
      { destruct out2 as [[] | | |].
        - destruct Hrest as [r [-> _]]. exists [EvEvaluate tr2 r]. auto.
        - destruct Hrest as [-> _]. exists []. rewrite app_nil_r. auto.
        - destruct Hrest as [-> _]. exists []. rewrite app_nil_r. auto.
        - destruct Hrest as [-> _]. exists []. rewrite app_nil_r. auto. }
      destruct Hrest' as [tail [-> [T1 [T2 T3]]]].
      rewrite !turn_calls_app, !verdict_calls_app, !builds_app, V2, T1, E2, T3.
      change (turn_calls [EvBuildAgent a]) with O.
      change (verdict_calls [EvBuildAgent a]) with O.
      rewrite turn_calls_app in C. rewrite verdict_calls_app in V.
      clear C2 Hl. simpl. split; [| split]; product_lia.
    + destruct Hcase as [-> _].
      change (turn_calls []) with O. change (verdict_calls []) with O.
      simpl. split; [| split]; product_lia.
Qed.

(** X8. When [maxRounds] is below [minRounds] the judge is never asked
    and no contrarian is built: the log of the run holds turn events
    only, the agents are unchanged, and a run that returns normally
    returns a nil verdict. *)
Theorem Run_without_verdict (ctx : Context World) (fuel : nat) (s s' : St World)
    (out : Res Result) :
  Run ctx fuel s = (out, s') ->
  maxRounds (self s) < minRounds (self s) ->
  exists evs,
    log s' = log s ++ evs /\
    Forall turn_event evs /\
    agents (self s') = agents (self s) /\
    forall res, out = Ok res ->
                Consensus res = None /\ Transcript_ res = transcript (self s').
Proof.
  intros H Hmm. apply Run_sound in H. destruct H as [evs [L R]].
  exists evs. split; [exact L |].
  destruct (run_rel_read R) as [St | [evs1 [c [tr1 [rest Mv]]]]].
  - destruct St as [fo [tr1 [F [-> [_ Hout]]]]].
    destruct (free_run_unjudged F Hmm) as [E O].
    split; [exact E |]. split; [reflexivity |].
    intros res Eres. destruct fo as [o | | |]; subst out; try discriminate.
    destruct Hout as [_ Hout]. inversion Hout.
    rewrite (O o eq_refl). split; reflexivity.
  - destruct Mv as [_ [_ [_ [_ [Hm _]]]]]. lia.
Qed.

(** A model call or a verdict that never returned. *)
Definition oracle_diverged (evs : list Event) : Prop :=
  (exists m msgs, In (EvChat m msgs Diverge) evs) \/
  (exists t, In (EvEvaluate t Diverge) evs).

Lemma oracle_diverged_l (l1 l2 : list Event) :
  oracle_diverged l1 -> oracle_diverged (l1 ++ l2).
Proof.
  intros [[m [msgs H]] | [t H]]; [left; exists m, msgs | right; exists t];
    apply in_or_app; left; exact H.
Qed.

Lemma oracle_diverged_r (l1 l2 : list Event) :
  oracle_diverged l2 -> oracle_diverged (l1 ++ l2).
Proof.
  intros [[m [msgs H]] | [t H]]; [left; exists m, msgs | right; exists t];
    apply in_or_app; right; exact H.
Qed.

Lemma turn_run_diverge (round : Z) (a : Agent) (tr tr' : Transcript)
    (evs : list Event) (out : Res unit) :
  turn_run round a tr evs out tr' -> out = Diverge -> oracle_diverged evs.
Proof.
  intros H E. destruct H as [err | msgs r Hn | msgs resp]; try discriminate.
  destruct r; simpl in *; try discriminate; try contradiction.
  left. exists (Model a), msgs. right. left. reflexivity.
Qed.

Lemma agents_run_diverge (round : Z) (ags : list Agent) (tr tr' : Transcript)
    (evs : list Event) (out : Res unit) :
  agents_run round ags tr evs out tr' -> out = Diverge -> oracle_diverged evs.
Proof.
  induction 1 as [tr | a ags tr tr' evs out Ht Hn
                 | a ags tr tr1 tr2 evs1 evs2 out Ht Hrest IH]; intros E.
  - discriminate.
  - eapply turn_run_diverge; eauto.
  - apply oracle_diverged_r. apply IH. exact E.
Qed.

Lemma round_run_diverge (ags : list Agent) (round : Z) (tr tr' : Transcript)
    (evs : list Event) :
  round_run ags round tr evs Diverge tr' -> oracle_diverged evs.
Proof. intros [tr1 [H _]]. eapply agents_run_diverge; eauto. Qed.

Lemma rounds_run_diverge (ags : list Agent) (rs : list Z) (tr tr' : Transcript)
    (evs : list Event) (out : Res unit) :
  rounds_run ags rs tr evs out tr' -> out = Diverge -> oracle_diverged evs.
Proof.
  induction 1 as [tr | r rs tr tr' evs out Hr Hn
                 | r rs tr tr1 tr2 evs1 evs2 out Hr Hrest IH]; intros E.
  - discriminate.
  - subst out. eapply round_run_diverge; eauto.
  - apply oracle_diverged_r. apply IH. exact E.
Qed.

(** The loop of phase 1 ends: with more iterations allowed than rounds
    are left, it does not run out of them. *)
Lemma freeDebate_returns (ctx : Context World) :
  forall (fuel : nat) (round : Z) (consensus : option ConsensusResult)
         (s s' : St World),
    freeDebate ctx fuel round consensus s = (Diverge, s') ->
    is_int round -> maxRounds (self s) < max_int ->
    (Z.to_nat (maxRounds (self s) - round + 1) < fuel)%nat ->
    exists evs, log s' = log s ++ evs /\ oracle_diverged evs.
Proof.
  induction fuel as [|fuel IH]; intros round consensus s s' H Hi Hmx Hfuel; [lia |].
  simpl in H. unfold bind at 1 in H. unfold get_self at 1 in H.
  destruct (round <=? maxRounds (self s)) eqn:Hmax.
  2:{ unfold ret in H. inversion H. }
  apply Z.leb_le in Hmax.
  assert (Hs: wrap (round + 1) = round + 1) by (apply wrap_succ; [exact Hi | lia]).
  unfold bind at 1 in H.
  destruct (runRound ctx round s) as [r1 s1] eqn:E1.
  apply runRound_sound in E1. destruct E1 as [evs1 [tr1 [St1 R1]]].
  destruct (stepped_config St1) as [Ca [Cmin Cmax]].
  destruct r1 as [[]|e|msg|]; try (inversion H; fail).
  2:{ inversion H; subst. exists evs1. split; [apply St1 |].
      eapply round_run_diverge; eauto. }
  unfold bind at 1 in H. unfold get_self at 1 in H.
  destruct (round >=? minRounds (self s1)) eqn:Hmin.
  2:{ apply IH in H; [| apply wrap_is_int | rewrite Cmax; exact Hmx
                     | rewrite Cmax, Hs; lia].
      destruct H as [evs2 [L2 D2]]. exists (evs1 ++ evs2). split.
      - rewrite L2. destruct St1 as [L1 _]. rewrite L1, app_assoc. reflexivity.
      - apply oracle_diverged_r. exact D2. }
  unfold bind at 1 in H.
  destruct (wrapping "debate: consensus evaluation: " (evaluate ctx) s1)
    as [r2 s2] eqn:E2.
  apply wrapping_inv in E2. destruct E2 as [r [E2 ->]].
  apply evaluate_inv in E2. destruct E2 as [L2 S2].
  assert (L2': log s2 = log s ++ evs1 ++ [EvEvaluate (transcript (self s1)) r]).
  { rewrite L2. destruct St1 as [L1 _]. rewrite L1, app_assoc. reflexivity. }
  destruct r as [c|e|msg|]; try (inversion H; fail).
  2:{ inversion H; subst. eexists. split; [exact L2' |].
      apply oracle_diverged_r. right. eexists. left. reflexivity. }
  destruct (triggers c) eqn:Htr.
  - unfold ret in H. inversion H.
  - apply IH in H; [| apply wrap_is_int | rewrite S2, Cmax; exact Hmx
                   | rewrite S2, Cmax, Hs; lia].
    destruct H as [evs3 [L3 D3]].
    exists ((evs1 ++ [EvEvaluate (transcript (self s1)) (Ok c)]) ++ evs3). split.
    + rewrite L3, L2', <- !app_assoc. reflexivity.
    + apply oracle_diverged_r. exact D3.
Qed.

(** X9. The loops of [Run] end: with [maxRounds] below the largest
    integer, and the model allowed more iterations than [maxRounds], a
    run that does not return has a model call or a verdict in its log
    that did not return. *)
Theorem Run_returns (ctx : Context World) (fuel : nat) (s s' : St World) :
  Run ctx fuel s = (Diverge, s') ->
  maxRounds (self s) < max_int ->
  (Z.to_nat (maxRounds (self s)) < fuel)%nat ->
  exists evs, log s' = log s ++ evs /\ oracle_diverged evs.
Proof.
  unfold Run. unfold bind at 1.
  destruct (on_phase FreeDebate s) as [r0 s0] eqn:E0.
  apply on_phase_inv in E0. destruct E0 as [-> [L0 S0]].
  unfold bind at 1.
  destruct (freeDebate ctx fuel 1 None s0) as [r1 s1] eqn:E1.
  intros H Hmx Hfuel.
  assert (Hi: is_int 1) by (unfold is_int, min_int, max_int; lia).
  destruct r1 as [consensus|e|msg|]; try (inversion H; fail).
  2:{ inversion H; subst.
      apply freeDebate_returns in E1;
        [| exact Hi | rewrite S0; exact Hmx
         | rewrite S0; replace (maxRounds (self s) - 1 + 1)
                         with (maxRounds (self s)) by lia; exact Hfuel].
      destruct E1 as [evs [L1 D1]]. exists evs. split; [| exact D1].
      rewrite L1, L0. reflexivity. }
  apply freeDebate_sound in E1. destruct E1 as [evs1 [tr1 [[L1 S1] F1]]].
  rewrite L0 in L1.
  destruct consensus as [c|].
  2:{ unfold bind, ret, get_self in H. inversion H. }
  destruct (triggers c) eqn:Htr.
  2:{ unfold bind, ret, get_self in H. inversion H. }
  unfold bind at 1 in H. unfold bind at 1 in H.
  destruct (tenthManPhase ctx c s1) as [r2 s2] eqn:E2.
  apply tenthManPhase_sound in E2. unfold tenth_post in E2. cbv zeta in E2.
  destruct E2 as [[_ [[msg ->] _]]
                 | [a [evs2 [out2 [tr2 [_ [R2 [_ Hcase]]]]]]]].
  { inversion H. }
  destruct Hcase as [[Hno [-> L2]] | [-> [r [L2 ->]]]].
  - destruct out2 as [[]|err|msg|]; try contradiction; try (inversion H; fail).
    inversion H; subst.
    exists (evs1 ++ EvBuildAgent a :: evs2). split.
    + rewrite L2, L1, <- app_assoc. reflexivity.
    + apply oracle_diverged_r.
      apply (oracle_diverged_r [EvBuildAgent a]).
      eapply rounds_run_diverge; eauto.
  - destruct r as [c'|err|msg|]; try (inversion H; fail).
    inversion H; subst.
    exists (evs1 ++ EvBuildAgent a :: evs2 ++ [EvEvaluate tr2 Diverge]). split.
    + rewrite L2, L1, <- app_assoc. reflexivity.
    + apply oracle_diverged_r.
      apply (oracle_diverged_r (EvBuildAgent a :: evs2)).
      right. exists tr2. left. reflexivity.
Qed.

End Runs.

End budget.

Module budget_runs.

Import openrouter debate engine engine_runs budget.

(** The run of TestEngineTransitionsToTenthManPhase stays within the
    budget of ten rounds of three agents and three rounds of four: the
    instance of [Run_call_budget]. *)
Lemma Run_call_budget_witness :
  let s := start 3 5 5 10 None in
  let r := Run sim.ctx 100 s in
  turn_calls (log (snd r)) = 27%nat /\
  verdict_calls (log (snd r)) = 2%nat /\
  exists evs,
    log (snd r) = log s ++ evs /\
    (turn_calls evs <= 42)%nat /\ (verdict_calls evs <= 7)%nat /\
    (List.length (builds evs) <= 1)%nat.
Proof.
  intros s r.
  split; [vm_compute; reflexivity |]. split; [vm_compute; reflexivity |].
  refine (@Run_call_budget sim.World sim.ctx 100 s (snd r) (fst r)
            (surjective_pairing r) _).
  vm_compute. reflexivity.
Defined.

(** With 9 rounds asked at least and 2 at most, two rounds are played and
    the judge is not asked: the instance of [Run_without_verdict]. *)
Lemma Run_without_verdict_witness :
  let s := start 3 1 9 2 None in
  let r := Run sim.ctx 100 s in
  fst r = Ok (result_of r) /\
  exists evs,
    log (snd r) = log s ++ evs /\
    Forall turn_event evs /\
    agents (self (snd r)) = agents (self s) /\
    forall res, fst r = Ok res ->
                Consensus res = None /\ Transcript_ res = transcript (self (snd r)).
Proof.
  intros s r.
  split; [vm_compute; reflexivity |].
  refine (@Run_without_verdict sim.World sim.ctx 100 s (snd r) (fst r)
            (surjective_pairing r) _).
  vm_compute. reflexivity.
Defined.

(** A model call that does not return: the instance of [Run_returns]. *)
Lemma Run_returns_witness :
  let s := {| self := self (start 3 999 5 7 None);
              world := sim.world [Diverge] None;
              log := [] |} in
  let r := Run sim.ctx 100 s in
  exists evs, log (snd r) = log s ++ evs /\ oracle_diverged evs.
Proof.
  intros s r.
  assert (E: fst r = Diverge) by (vm_compute; reflexivity).
  pose proof (surjective_pairing r) as P. rewrite E in P.
  refine (@Run_returns sim.World sim.ctx 100 s (snd r) P _ _).
  - vm_compute. reflexivity.
  - vm_compute. lia.
Defined.

End budget_runs.

(* ===================================================================== *)
(** * The engine: what a speaker is sent *)
(* ===================================================================== *)

Module history.

Import openrouter debate engine.

(** The message [buildMessages] makes of a turn, and the one it ends
    with. *)
Definition turn_message (t : Turn) : Message :=
  {| openrouter.Role := "user";
     openrouter.Content := (Name (Agent_ t) ++ ": " ++ debate.Content t)%string |}.

Definition cue : Message :=
  {| openrouter.Role := "user";
     openrouter.Content :=
       "It's your turn to speak. Provide your perspective on the topic." |}.

(** A transcript with more turns. *)
Definition grown (tr : Transcript) (turns : list Turn) : Transcript :=
  {| Topic := Topic tr; Turns := Turns tr ++ turns; Phase_ := Phase_ tr;
     Rounds := Rounds tr |}.

Lemma grown_nil (tr : Transcript) : grown tr [] = tr.
Proof. destruct tr. unfold grown. simpl. rewrite app_nil_r. reflexivity. Qed.

Lemma grown_grown (tr : Transcript) (l1 l2 : list Turn) :
  grown (grown tr l1) l2 = grown tr (l1 ++ l2).
Proof. unfold grown. simpl. rewrite app_assoc. reflexivity. Qed.

Lemma grown_append_turn (tr : Transcript) (t : Turn) :
  append_turn t tr = grown tr [t].
Proof. reflexivity. Qed.

Lemma buildMessages_rounds (a : Agent) (topic : string) (tr : Transcript)
    (tm : option TenthManActivator) (pos : string) (n : Z) :
  buildMessages a topic (set_Rounds n tr) tm pos = buildMessages a topic tr tm pos.
Proof. reflexivity. Qed.

(** The messages are the system prompt, one message per turn of the
    transcript in order, and the cue. *)
Lemma buildMessages_layout (a : Agent) (topic : string) (tr : Transcript)
    (tm : option TenthManActivator) (pos : string) :
  exists system,
    buildMessages a topic tr tm pos
    = {| openrouter.Role := "system"; openrouter.Content := system |}
      :: map turn_message (Turns tr) ++ [cue] /\
    (String.eqb (Role a) "tenth-man" = true ->
     forall t, tm = Some t -> system = SystemPrompt t pos) /\
    (String.eqb (Role a) "tenth-man" = false ->
     system = match Phase_ tr with
              | TenthManPhase => phase2SystemPrompt a topic
              | FreeDebate => agentSystemPrompt a topic
              end) /\
    (tm = None -> String.eqb (Role a) "tenth-man" = true ->
     system = agentSystemPrompt a topic).
Proof.
  unfold buildMessages.
  destruct (String.eqb (Role a) "tenth-man") eqn:Er; destruct tm as [t|];
    eexists; (split; [reflexivity |]).
  - split; [intros _ t' E; inversion E; reflexivity |].
    split; [discriminate | discriminate].
  - split; [intros _ t' E; discriminate |].
    split; [discriminate |]. intros _ _.
    destruct (Phase_ tr); reflexivity.
  - split; [discriminate |].
    split; [intros _; destruct (Phase_ tr); reflexivity | discriminate].
  - split; [discriminate |].
    split; [intros _; destruct (Phase_ tr); reflexivity | discriminate].
Qed.

Section Calls.

Variable World : Type.

(** The calls of a log are those of the agents [ags] in order, each on the
    model of its agent and with the messages built from the transcript
    [tr] grown by the turns the log holds before the call. *)
Definition calls_built (e : Engine World) (tr : Transcript) (ags : list Agent)
    (evs : list Event) : Prop :=
  forall b m msgs r rest,
    evs = b ++ EvChat m msgs r :: rest ->
    exists a,
      nth_error ags (List.length (turns_of b)) = Some a /\
      m = Model a /\
      msgs = buildMessages a (topic e) (grown tr (turns_of b)) (tenthMan e)
               (consensusPosition e).

Lemma runTurn_calls (ctx : Context World) (round : Z) (agent : Agent)
    (s s' : St World) (out : Res unit) :
  runTurn ctx round agent s = (out, s') ->
  exists evs tr',
    stepped s s' evs tr' /\
    turn_run round agent (transcript (self s)) evs out tr' /\
    calls_built (self s) (transcript (self s)) [agent] evs.
Proof.
  unfold runTurn. unfold bind at 1.
  destruct (ctx_err ctx s) as [r0 s0] eqn:E0.
  apply ctx_check_inv in E0. destruct E0 as [o [-> [L0 S0]]].
  destruct o as [err|].
  { unfold raise. intros H. inversion H; subst.
    exists [EvErr (Some err)], (transcript (self s)). split; [| split].
    - split; [exact L0 | rewrite S0, with_transcript_same; reflexivity].
    - constructor.
    - intros b m msgs r rest E.
      destruct b as [|x1 [|x2 b]]; simpl in E; inversion E;
        try (destruct b; discriminate). }
  unfold bind at 1. unfold get_self at 1. unfold bind at 1.
  match goal with
  | |- context [wrapping ?p (chat ctx ?m ?ms) s0] =>
      destruct (wrapping p (chat ctx m ms) s0) as [r1 s1] eqn:E1;
      set (msgs0 := ms) in *
  end.
  apply wrapping_inv in E1. destruct E1 as [r [E1 ->]].
  apply chat_call_inv in E1. destruct E1 as [L1 S1].
  assert (Hmsgs: msgs0 = buildMessages agent (topic (self s))
                           (grown (transcript (self s)) []) (tenthMan (self s))
                           (consensusPosition (self s))).
  { unfold msgs0. rewrite S0, grown_nil. reflexivity. }
  assert (Hbuilt: forall tail,
             (forall b m msgs r' rest, tail <> b ++ EvChat m msgs r' :: rest) ->
             forall R,
               calls_built (self s) (transcript (self s)) [agent]
                 (EvErr None :: EvChat (Model agent) msgs0 R :: tail)).
  { intros tail Htail R b m msgs r' rest E.
    destruct b as [|x1 b]; simpl in E; [discriminate |].
    inversion E as [[Hx1 E']]. clear E.
    destruct b as [|x2 b]; simpl in E'.
    - inversion E'; subst. exists agent. simpl. auto.
    - inversion E' as [[Hx2 E'']]. exfalso. eapply Htail. exact E''. }
  destruct r as [resp|e|msg|].
  - unfold bind at 1. unfold update_self at 1, modify at 1.
    unfold bind at 1. unfold note at 1, modify at 1.
    intros H. apply on_turn_inv in H. destruct H as [-> [L2 S2]].
    simpl in L2, S2.
    exists [EvErr None; EvChat (Model agent) msgs0 (Ok resp);
            EvTurn (turn_of round agent resp)],
           (append_turn (turn_of round agent resp) (transcript (self s))).
    split; [| split].
    + split.
      * rewrite L2, L1, L0, <- !app_assoc. reflexivity.
      * rewrite S2, S1, S0. reflexivity.
    + constructor.
    + apply Hbuilt. intros b m msgs r' rest E.
      destruct b as [|x1 [|x2 b]]; simpl in E; inversion E;
        try (destruct b; discriminate).
  - intros H. inversion H; subst.
    exists [EvErr None; EvChat (Model agent) msgs0 (Err e)], (transcript (self s)).
    split; [| split].
    + split; [rewrite L1, L0, <- app_assoc; reflexivity
             | rewrite S1, S0, with_transcript_same; reflexivity].
    + apply (turn_failed round agent (transcript (self s)) msgs0 (Err e)). exact I.
    + apply Hbuilt. intros b m msgs r' rest E. destruct b; discriminate.
  - intros H. inversion H; subst.
    exists [EvErr None; EvChat (Model agent) msgs0 (Panic msg)], (transcript (self s)).
    split; [| split].
    + split; [rewrite L1, L0, <- app_assoc; reflexivity
             | rewrite S1, S0, with_transcript_same; reflexivity].
    + apply (turn_failed round agent (transcript (self s)) msgs0 (Panic msg)). exact I.
    + apply Hbuilt. intros b m msgs r' rest E. destruct b; discriminate.
  - intros H. inversion H; subst.
    exists [EvErr None; EvChat (Model agent) msgs0 Diverge], (transcript (self s)).
    split; [| split].
    + split; [rewrite L1, L0, <- app_assoc; reflexivity
             | rewrite S1, S0, with_transcript_same; reflexivity].
    + apply (turn_failed round agent (transcript (self s)) msgs0 Diverge). exact I.
    + apply Hbuilt. intros b m msgs r' rest E. destruct b; discriminate.
Qed.

Lemma calls_built_first (e : Engine World) (tr : Transcript) (a : Agent)
    (ags : list Agent) (evs : list Event) :
  calls_built e tr [a] evs -> calls_built e tr (a :: ags) evs.
Proof.
  intros H b m msgs r rest E. destruct (H b m msgs r rest E) as [a' [Hn Hrest]].
  exists a'. split; [| exact Hrest].
  destruct (List.length (turns_of b)) as [|k]; [exact Hn |].
  destruct k; discriminate.
Qed.

Lemma calls_built_next (e : Engine World) (tr : Transcript) (a : Agent)
    (ags : list Agent) (evs1 evs2 : list Event) (t : Turn) :
  calls_built e tr [a] evs1 -> turns_of evs1 = [t] ->
  calls_built e (grown tr [t]) ags evs2 ->
  calls_built e tr (a :: ags) (evs1 ++ evs2).
Proof.
  intros H1 Ht H2 b m msgs r rest E.
  symmetry in E. apply app_eq_app in E.
  destruct E as [l [[E1 E2] | [E1 E2]]].
  - (* the call is in [evs2], after [l] *)
    subst b.
    destruct (H2 l m msgs r rest E2) as [a' [Hn [Hm Hmsgs]]].
    exists a'. rewrite turns_of_app, Ht. simpl.
    rewrite grown_grown in Hmsgs. simpl in Hmsgs. auto.
  - destruct l as [|x l].
    + (* the call opens [evs2] *)
      rewrite app_nil_r in E1. subst b. simpl in E2.
      destruct (H2 [] m msgs r rest (eq_sym E2)) as [a' [Hn [Hm Hmsgs]]].
      exists a'. rewrite Ht. simpl in *. rewrite grown_grown in Hmsgs.
      simpl in Hmsgs. auto.
    + (* the call is in [evs1] *)
      simpl in E2. inversion E2; subst x.
      destruct (H1 b m msgs r l) as [a' [Hn Hrest]]; [exact E1 |].
      exists a'. split; [| exact Hrest].
      destruct (List.length (turns_of b)) as [|k]; [exact Hn |].
      destruct k; discriminate.
Qed.

Lemma turn_run_ok_shape (round : Z) (a : Agent) (tr tr' : Transcript)
    (evs : list Event) (u : unit) :
  turn_run round a tr evs (Ok u) tr' ->
  exists msgs resp,
    evs = [EvErr None; EvChat (Model a) msgs (Ok resp);
           EvTurn (turn_of round a resp)] /\
    tr' = append_turn (turn_of round a resp) tr.
Proof.
  intros H. remember (Ok u) as out eqn:Eo.
  destruct H as [err | msgs r Hn | msgs resp]; try discriminate.
  - destruct r; simpl in *; try discriminate; contradiction.
  - exists msgs, resp. auto.
Qed.

Lemma runRound_agents_calls (ctx : Context World) (round : Z) :
  forall (ags : list Agent) (s s' : St World) (out : Res unit),
    runRound_agents ctx round ags s = (out, s') ->
    exists evs,
      log s' = log s ++ evs /\
      calls_built (self s) (transcript (self s)) ags evs.
Proof.
  induction ags as [|a ags IH]; intros s s' out H.
  - simpl in H. unfold ret in H. inversion H; subst.
    exists []. split; [rewrite app_nil_r; reflexivity |].
    intros b m msgs r rest E. destruct b; discriminate.
  - simpl in H. unfold bind in H.
    destruct (runTurn ctx round a s) as [r1 s1] eqn:E1.
    apply runTurn_calls in E1. destruct E1 as [evs1 [tr1 [[L1 S1] [T1 B1]]]].
    destruct r1 as [[]|e|msg|].
    + apply IH in H. destruct H as [evs2 [L2 B2]].
      exists (evs1 ++ evs2). split.
      * rewrite L2, L1, app_assoc. reflexivity.
      * destruct (turn_run_ok_shape T1) as [msgs0 [resp [-> ->]]].
        eapply calls_built_next; [exact B1 | reflexivity |].
        rewrite S1 in B2. exact B2.
    + inversion H; subst. exists evs1. split; [exact L1 |].
      apply calls_built_first. exact B1.
    + inversion H; subst. exists evs1. split; [exact L1 |].
      apply calls_built_first. exact B1.
    + inversion H; subst. exists evs1. split; [exact L1 |].
      apply calls_built_first. exact B1.
Qed.

(** X10. In a round the model calls go to the agents in their order,
    each on the model of its agent, and each speaker is sent the whole
    debate so far: the system prompt, then one message per turn of the
    transcript, the turns made earlier in this same round included, in
    order, then the cue.  The system prompt is the contrarian prompt of
    the activator, on the stored consensus position, for an agent with the
    role [tenth-man]; for any other agent it is the phase-2 prompt once the
    transcript is in [TenthManPhase] and the plain prompt before. *)
Theorem runRound_calls_see_history (ctx : Context World) (round : Z)
    (s s' : St World) (out : Res unit) :
  runRound ctx round s = (out, s') ->
  exists evs,
    log s' = log s ++ evs /\
    forall b m msgs r rest,
      evs = b ++ EvChat m msgs r :: rest ->
      exists a system,
        nth_error (agents (self s)) (List.length (turns_of b)) = Some a /\
        m = Model a /\
        msgs
        = {| openrouter.Role := "system"; openrouter.Content := system |}
          :: map turn_message (Turns (transcript (self s)) ++ turns_of b)
          ++ [cue] /\
        (Role a = "tenth-man"%string ->
         forall tm, tenthMan (self s) = Some tm ->
                    system = SystemPrompt tm (consensusPosition (self s))) /\
        (Role a <> "tenth-man"%string ->
         system = match Phase_ (transcript (self s)) with
                  | TenthManPhase => phase2SystemPrompt a (topic (self s))
                  | FreeDebate => agentSystemPrompt a (topic (self s))
                  end).
Proof.
  unfold runRound. unfold bind at 1. unfold get_self at 1. unfold bind at 1.
  destruct (runRound_agents ctx round (agents (self s)) s) as [r1 s1] eqn:E1.
  intros H.
  assert (L: log s' = log s1).
  { destruct r1 as [[]|e|msg|]; unfold update_self, modify in H;
      inversion H; reflexivity. }
  apply runRound_agents_calls in E1. destruct E1 as [evs [L1 B1]].
  exists evs. split; [rewrite L; exact L1 |].
  intros b m msgs r rest E.
  destruct (B1 b m msgs r rest E) as [a [Hn [Hm Hmsgs]]].
  destruct (buildMessages_layout a (topic (self s))
              (grown (transcript (self s)) (turns_of b)) (tenthMan (self s))
              (consensusPosition (self s))) as [system [Hlay [Htm [Hother _]]]].
  exists a, system. split; [exact Hn |]. split; [exact Hm |].
  split; [rewrite Hmsgs; exact Hlay |]. split.
  - intros Hr tm Et. apply Htm; [| exact Et]. rewrite Hr. reflexivity.
  - intros Hr. apply Hother. apply String.eqb_neq. exact Hr.
Qed.

End Calls.

End history.

Module history_runs.

Import openrouter debate engine engine_runs history.

(** The engine after the run of TestEngineTransitionsToTenthManPhase, its
    log emptied. *)
Definition after_transition : St sim.World :=
  let s := snd (Run sim.ctx 100 (start 3 5 5 10 None)) in
  {| self := self s; world := world s; log := [] |}.

(** One more round on that engine: the instance of
    [runRound_calls_see_history]. *)
Lemma runRound_calls_see_history_witness :
  let s := after_transition in
  let r := runRound sim.ctx 9 s in
  exists evs,
    log (snd r) = log s ++ evs /\
    forall b m msgs r0 rest,
      evs = b ++ EvChat m msgs r0 :: rest ->
      exists a system,
        nth_error (agents (self s)) (List.length (turns_of b)) = Some a /\
        m = Model a /\
        msgs
        = {| openrouter.Role := "system"; openrouter.Content := system |}
          :: map turn_message (Turns (transcript (self s)) ++ turns_of b)
          ++ [cue] /\
        (Role a = "tenth-man"%string ->
         forall tm, tenthMan (self s) = Some tm ->
                    system = SystemPrompt tm (consensusPosition (self s))) /\
        (Role a <> "tenth-man"%string ->
         system = match Phase_ (transcript (self s)) with
                  | TenthManPhase => phase2SystemPrompt a (topic (self s))
                  | FreeDebate => agentSystemPrompt a (topic (self s))
                  end).
Proof.
  intros s r.
  exact (@runRound_calls_see_history sim.World sim.ctx 9 s (snd r) (fst r)
           (surjective_pairing r)).
Defined.

(** TestEngineTenthManUsesContraryPrompt and
    TestEnginePhase2PromptsEngageWithTenthMan: in that round the three
    debaters are sent the phase-2 prompt and the Tenth Man the contrarian
    prompt on the consensus position; each is sent one turn more than the
    speaker before. *)
Example phase_two_prompts :
  let r := runRound sim.ctx 9 after_transition in
  flat_map (fun ev => match ev with
                      | EvChat m (sys :: rest) _ =>
                          [(m, openrouter.Content sys, List.length rest)]
                      | _ => []
                      end) (log (snd r))
  = [ ("model-1", phase2SystemPrompt (nth 0 (makeAgents 3) cli.zero_Agent) "test topic", 28%nat);
      ("model-2", phase2SystemPrompt (nth 1 (makeAgents 3) cli.zero_Agent) "test topic", 29%nat);
      ("model-3", phase2SystemPrompt (nth 2 (makeAgents 3) cli.zero_Agent) "test topic", 30%nat);
      ("model-1", tenthman.Activator_SystemPrompt "the consensus position", 31%nat) ]%string.
Proof. vm_compute. reflexivity. Qed.

End history_runs.

(* ===================================================================== *)
(** * internal/openrouter: the waits of a send, and [ChatCompletion] *)
(* ===================================================================== *)

Module client_waits.

Import openrouter.

(** [defaultBackoff] doubles from one second, as long as the product fits
    a [time.Duration]. *)
Lemma defaultBackoff_seconds (attempt : Z) :
  0 <= attempt <= 33 -> defaultBackoff attempt = 2 ^ attempt * Second.
Proof.
  intros H. unfold defaultBackoff.
  replace ((0 <=? attempt) && (attempt <? 64)) with true
    by (symmetry; apply andb_true_iff; split;
        [apply Z.leb_le | apply Z.ltb_lt]; lia).
  rewrite Z.shiftl_1_l.
  assert (H1: 1 <= 2 ^ attempt <= 2 ^ 33).
  { split.
    - apply (Z.pow_le_mono_r 2 0 attempt); lia.
    - apply Z.pow_le_mono_r; lia. }
  assert (H2: 2 ^ 33 = 8589934592) by reflexivity.
  rewrite (wrap_id (z := 2 ^ attempt))
    by (unfold is_int, min_int, max_int; lia).
  apply wrap_id. unfold is_int, min_int, max_int, Second. nia.
Qed.

Section Waits.

Variable World : Type.

(** The wait the Retry-After header of a response asks for, when the loop
    of [doWithRetry] makes it: the status is 429, the header is an integer
    of seconds, the delay is positive and the client backs off at all. *)
Definition retry_after_due (c : Client World) (resp : Response) : option Duration :=
  if StatusCode resp =? StatusTooManyRequests then
    match Atoi (Header_Get resp "Retry-After") with
    | Some secs =>
        if (0 <? wrap (secs * Second)) && (0 <? backoffFunc c 0)
        then Some (wrap (secs * Second))
        else None
    | None => None
    end
  else None.

(** What a log says of the waits of a send that starts at [attempt]: a
    request is the first event of a send from attempt 0 and otherwise
    comes right after the backoff wait of its attempt, which ran to its
    end; and a response that asks for a Retry-After wait is followed by
    that wait. *)
Definition waits_ok (c : Client World) (attempt : Z) (evs : list (Event)) : Prop :=
  forall b x rest,
    evs = b ++ EvDo x :: rest ->
    ((b = [] /\ attempt = 0) \/
     (0 < attempt + Z.of_nat (requests b) /\
      exists b',
        b = b' ++ [EvAfter (backoffFunc c (attempt + Z.of_nat (requests b) - 1)) None])) /\
    (forall resp d,
       x = inl resp -> retry_after_due c resp = Some d ->
       exists o rest', rest = EvAfter d o :: rest').

Lemma waits_ok_nil (c : Client World) (attempt : Z) : waits_ok c attempt [].
Proof. intros b x rest E. destruct b; discriminate. Qed.

Lemma split_without_request (l1 l2 b rest : list Event) (y : Response + error) :
  requests l1 = O ->
  l1 ++ l2 = b ++ EvDo y :: rest ->
  exists b2, b = l1 ++ b2 /\ l2 = b2 ++ EvDo y :: rest.
Proof.
  revert b. induction l1 as [|e l1 IH]; intros b Hr E.
  - exists b. auto.
  - destruct e as [x | d o]; [discriminate |].
    change (requests (EvAfter d o :: l1)) with (requests l1) in Hr.
    destruct b as [|e' b]; simpl in E; inversion E; subst.
    destruct (IH b Hr H1) as [b2 [-> ->]]. exists b2. auto.
Qed.

Lemma waits_ok_step (c : Client World) (attempt : Z) (pre ra evs' : list Event)
    (x : Response + error) :
  0 <= attempt ->
  ((pre = [] /\ attempt = 0) \/
   (0 < attempt /\ pre = [EvAfter (backoffFunc c (attempt - 1)) None])) ->
  requests ra = O ->
  (forall resp d, x = inl resp -> retry_after_due c resp = Some d ->
                  exists o, ra = [EvAfter d o]) ->
  waits_ok c (attempt + 1) evs' ->
  waits_ok c attempt (pre ++ EvDo x :: ra ++ evs').
Proof.
  intros Hat Hpre Hra Hdue Hrest b y rest E.
  assert (Rpre: requests pre = O).
  { destruct Hpre as [[-> _] | [_ ->]]; reflexivity. }
  destruct (@split_without_request pre (EvDo x :: ra ++ evs') b rest y Rpre E)
    as [b2 [-> E2]].
  destruct b2 as [|e b3]; simpl in E2; inversion E2; subst.
  - (* the first request *)
    rewrite app_nil_r. split.
    + destruct Hpre as [[-> ->] | [Hpos ->]]; [left; auto |].
      change (requests [EvAfter (backoffFunc c (attempt - 1)) None]) with O.
      right. split; [lia |]. exists []. simpl. f_equal. f_equal. f_equal. lia.
    + intros resp d Ex Hd. destruct (Hdue resp d Ex Hd) as [o ->].
      exists o, evs'. reflexivity.
  - (* a later request *)
    destruct (@split_without_request ra evs' b3 rest y Hra H1) as [b4 [-> E4]].
    destruct (Hrest b4 y rest E4) as [[[-> Habs] | [Hpos [b' Hb']]] Hd]; [lia |].
    split; [| exact Hd].
    assert (Hreq: requests (pre ++ EvDo x :: ra ++ b4) = S (requests b4)).
    { change (pre ++ EvDo x :: ra ++ b4) with (pre ++ [EvDo x] ++ ra ++ b4).
      rewrite !requests_app, Rpre, Hra. reflexivity. }
    rewrite Hreq.
    replace (attempt + Z.of_nat (S (requests b4)) - 1)
      with (attempt + 1 + Z.of_nat (requests b4) - 1) by lia.
    right. split; [lia |]. exists (pre ++ EvDo x :: ra ++ b').
    rewrite Hb' at 1.
    rewrite <- !app_assoc. simpl. rewrite <- !app_assoc. reflexivity.
Qed.

Lemma retry_after_wait_due (c : Client World) (ctx : Context World)
    (resp : Response) (s s1 : Sys World) (r : Res unit) :
  retry_after_wait c ctx resp s = (r, s1) ->
  match retry_after_due c resp with
  | Some d =>
      exists o, log s1 = log s ++ [EvAfter d o] /\
                r = match o with Some e => Err e | None => Ok tt end
  | None => r = Ok tt /\ s1 = s
  end.
Proof.
  unfold retry_after_wait, retry_after_due.
  destruct (StatusCode resp =? StatusTooManyRequests);
    [| unfold ret; intros H; inversion H; auto].
  destruct (String.eqb_spec (Header_Get resp "Retry-After") "") as [E | E].
  { rewrite E. simpl. unfold ret. intros H. inversion H. auto. }
  simpl negb. cbv iota.
  destruct (Atoi (Header_Get resp "Retry-After")) as [secs|];
    [| unfold ret; intros H; inversion H; auto].
  destruct ((0 <? wrap (secs * Second)) && (0 <? backoffFunc c 0));
    [| unfold ret; intros H; inversion H; auto].
  intros H. apply wait_inv in H. exact H.
Qed.

Lemma doWithRetry_loop_waits (c : Client World) (ctx : Context World)
    (do : World -> (Response + error) * World) :
  forall (budget : nat) (attempt : Z) (lastErr : option error) (s s' : Sys World)
         (out : Res (option Response)),
    0 <= attempt <= 4 ->
    doWithRetry_loop c ctx do budget attempt lastErr s = (out, s') ->
    exists evs, log s' = log s ++ evs /\ waits_ok c attempt evs.
Proof.
  induction budget as [|budget IH]; intros attempt lastErr s s' out Hat Hrun.
  { simpl in Hrun. unfold diverge in Hrun. inversion Hrun; subst.
    exists []. rewrite app_nil_r. split; [reflexivity | apply waits_ok_nil]. }
  rewrite doWithRetry_loop_unfold in Hrun. unfold maxRetries in Hrun.
  destruct (attempt <=? 3) eqn:Hle.
  2:{ exists []. rewrite app_nil_r. split; [| apply waits_ok_nil].
      destruct lastErr; unfold exit_result_m, raise, ret in Hrun;
        inversion Hrun; reflexivity. }
  apply Z.leb_le in Hle.
  unfold bind at 1 in Hrun.
  (* the backoff wait *)
  assert (Hpre: exists r0 s0 pre,
             (if 0 <? attempt then wait ctx (backoffFunc c (wrap (attempt - 1)))
              else ret tt) s = (r0, s0) /\
             log s0 = log s ++ pre /\
             ((r0 = Ok tt /\
               ((pre = [] /\ attempt = 0) \/
                (0 < attempt /\
                 pre = [EvAfter (backoffFunc c (attempt - 1)) None]))) \/
              (exists d e, r0 = Err e /\ pre = [EvAfter d (Some e)]))).
  { destruct (Z.ltb_spec 0 attempt) as [Hpos | Hzero].
    - destruct (wait ctx (backoffFunc c (wrap (attempt - 1))) s) as [r0 s0] eqn:E.
      pose proof E as E'. apply wait_inv in E'. destruct E' as [o [L ->]].
      rewrite wrap_id in L by (unfold is_int, min_int, max_int; lia).
      exists (match o with Some e => Err e | None => Ok tt end), s0,
             [EvAfter (backoffFunc c (attempt - 1)) o].
      split; [reflexivity |]. split; [exact L |].
      destruct o as [e|]; [right; eauto | left; auto].
    - exists (Ok tt), s, []. split; [reflexivity |].
      split; [rewrite app_nil_r; reflexivity |].
      left. split; [reflexivity |]. left. split; [reflexivity | lia]. }
  destruct Hpre as [r0 [s0 [pre [E0 [L0 Hcase]]]]]. rewrite E0 in Hrun.
  destruct Hcase as [[-> Hpre] | [d [e [-> ->]]]].
  2:{ inversion Hrun; subst. exists [EvAfter d (Some e)]. split; [exact L0 |].
      intros b x rest E. destruct b as [|y [|z b]]; simpl in E; inversion E;
        try (destruct b; discriminate). }
  (* the request *)
  unfold bind at 1 in Hrun.
  destruct (call_do do s0) as [r1 s1] eqn:E1.
  apply call_do_inv in E1. destruct E1 as [x [-> L1]].
  assert (Hend: forall ra,
             requests ra = O ->
             (forall resp d, x = inl resp -> retry_after_due c resp = Some d ->
                             exists o, ra = [EvAfter d o]) ->
             log s' = log s1 ++ ra ->
             exists evs, log s' = log s ++ evs /\ waits_ok c attempt evs).
  { intros ra Hra Hdue L. exists (pre ++ EvDo x :: ra ++ []). split.
    - rewrite L, L1, L0, app_nil_r, <- !app_assoc. reflexivity.
    - apply waits_ok_step; auto; [lia | apply waits_ok_nil]. }
  destruct x as [resp | err].
  2:{ unfold raise in Hrun. inversion Hrun; subst.
      apply (Hend []); [reflexivity | discriminate |].
      rewrite app_nil_r. reflexivity. }
  destruct (StatusCode resp =? StatusOK) eqn:H200.
  { unfold ret in Hrun. inversion Hrun; subst.
    apply (Hend []); [reflexivity | | rewrite app_nil_r; reflexivity].
    intros resp0 d Ex Hd. inversion Ex; subst resp0.
    unfold retry_after_due in Hd.
    destruct (StatusCode resp =? StatusTooManyRequests) eqn:H429; [| discriminate].
    apply Z.eqb_eq in H200. apply Z.eqb_eq in H429.
    unfold StatusOK, StatusTooManyRequests in *. lia. }
  destruct (isRetryable (StatusCode resp)) eqn:Hretry; simpl in Hrun.
  2:{ unfold raise in Hrun. inversion Hrun; subst.
      apply (Hend []); [reflexivity | | rewrite app_nil_r; reflexivity].
      intros resp0 d Ex Hd. inversion Ex; subst resp0.
      unfold retry_after_due in Hd.
      destruct (StatusCode resp =? StatusTooManyRequests) eqn:H429; [| discriminate].
      unfold isRetryable in Hretry. rewrite H429 in Hretry. discriminate. }
  (* the Retry-After wait *)
  unfold bind at 1 in Hrun.
  destruct (retry_after_wait c ctx resp s1) as [r2 s2] eqn:E2.
  apply retry_after_wait_due in E2.
  assert (Hra: exists ra,
             log s2 = log s1 ++ ra /\ requests ra = O /\
             (forall resp0 d, (inl resp : Response + error) = inl resp0 ->
                              retry_after_due c resp0 = Some d ->
                              exists o, ra = [EvAfter d o]) /\
             (r2 = Ok tt \/ exists e, r2 = Err e)).
  { destruct (retry_after_due c resp) as [d|] eqn:Ed.
    - destruct E2 as [o [L2 ->]]. exists [EvAfter d o].
      split; [exact L2 |]. split; [reflexivity |]. split.
      + intros resp0 d0 Ex Hd. inversion Ex; subst resp0.
        rewrite Ed in Hd. inversion Hd; subst. exists o. reflexivity.
      + destruct o as [e|]; [right; eauto | left; reflexivity].
    - destruct E2 as [-> ->]. exists []. split; [rewrite app_nil_r; reflexivity |].
      split; [reflexivity |]. split; [| left; reflexivity].
      intros resp0 d0 Ex Hd. inversion Ex; subst resp0.
      rewrite Ed in Hd. discriminate. }
  destruct Hra as [ra [L2 [Rra [Hdue Hr2]]]].
  destruct Hr2 as [-> | [e ->]].
  2:{ inversion Hrun; subst. apply (Hend ra); auto. }
  rewrite wrap_id in Hrun by (unfold is_int, min_int, max_int; lia).
  apply IH in Hrun; [| lia].
  destruct Hrun as [evs' [L3 W3]].
  exists (pre ++ EvDo (inl resp) :: ra ++ evs'). split.
  - rewrite L3, L2, L1, L0, <- !app_assoc. reflexivity.
  - apply waits_ok_step; auto. lia.
Qed.

(** X11. In a send the first request goes out at once and every later
    request comes right after a wait of [backoffFunc(k-1)] that ran to its
    end, [k] being the number of requests made before; at most three such
    waits are made, and with the default backoff of [NewClient] they last
    one, two and four seconds. *)
Theorem doWithRetry_backs_off (c : Client World) (ctx : Context World)
    (do : World -> (Response + error) * World) (s s' : Sys World)
    (out : Res (option Response)) :
  doWithRetry c ctx do s = (out, s') ->
  exists evs,
    log s' = log s ++ evs /\
    forall b x rest,
      evs = b ++ EvDo x :: rest ->
      (requests b <= 3)%nat /\
      (requests b = O -> b = []) /\
      ((0 < requests b)%nat ->
       exists b',
         b = b' ++ [EvAfter (backoffFunc c (Z.of_nat (requests b) - 1)) None] /\
         (backoffFunc c = defaultBackoff ->
          backoffFunc c (Z.of_nat (requests b) - 1)
          = 2 ^ (Z.of_nat (requests b) - 1) * Second)).
Proof.
  intros Hrun. unfold doWithRetry in Hrun.
  pose proof Hrun as Hrun2.
  apply doWithRetry_loop_waits in Hrun; [| lia].
  destruct Hrun as [evs [L W]].
  apply doWithRetry_loop_spec in Hrun2; [| lia | simpl; lia].
  destruct Hrun2 as [evs2 [L2 P2]].
  assert (evs2 = evs) by (rewrite L in L2; apply app_inv_head in L2; auto).
  subst evs2.
  assert (Hreq: (requests evs <= 4)%nat).
  { destruct P2 as [[_ [Habs _]] | [body [final [_ [_ [H _]]]]]]; [lia | exact H]. }
  exists evs. split; [exact L |].
  intros b x rest E.
  assert (Hb: (requests b <= 3)%nat).
  { rewrite E in Hreq.
    change (b ++ EvDo x :: rest) with (b ++ [EvDo x] ++ rest) in Hreq.
    rewrite !requests_app in Hreq. change (requests [EvDo x]) with 1%nat in Hreq.
    lia. }
  destruct (W b x rest E) as [Hfirst _].
  split; [exact Hb |]. split.
  - intros Hz. destruct Hfirst as [[-> _] | [Hpos _]]; [reflexivity | lia].
  - intros Hpos. destruct Hfirst as [[-> _] | [_ [b' Hb']]].
    + change (requests []) with O in Hpos. lia.
    + exists b'. replace (0 + Z.of_nat (requests b) - 1)
        with (Z.of_nat (requests b) - 1) in Hb' by lia.
      split; [exact Hb' |].
      intros Hdef. rewrite Hdef. apply defaultBackoff_seconds. lia.
Qed.

(** X12. A 429 response whose Retry-After header is an integer of seconds
    giving a positive delay is followed, when the client backs off at all,
    by a wait of that many seconds, also when it answers the last of the
    four requests and no retry is left. *)
Theorem doWithRetry_honours_retry_after (c : Client World) (ctx : Context World)
    (do : World -> (Response + error) * World) (s s' : Sys World)
    (out : Res (option Response)) :
  doWithRetry c ctx do s = (out, s') ->
  exists evs,
    log s' = log s ++ evs /\
    forall b resp rest secs,
      evs = b ++ EvDo (inl resp) :: rest ->
      StatusCode resp = StatusTooManyRequests ->
      Atoi (Header_Get resp "Retry-After") = Some secs ->
      0 < wrap (secs * Second) -> 0 < backoffFunc c 0 ->
      exists o rest', rest = EvAfter (wrap (secs * Second)) o :: rest'.
Proof.
  intros Hrun. unfold doWithRetry in Hrun.
  apply doWithRetry_loop_waits in Hrun; [| lia].
  destruct Hrun as [evs [L W]]. exists evs. split; [exact L |].
  intros b resp rest secs E H429 Hra Hd Hb.
  destruct (W b (inl resp) rest E) as [_ Hdue].
  apply (Hdue resp); [reflexivity |].
  unfold retry_after_due. rewrite H429, Z.eqb_refl, Hra.
  replace (0 <? wrap (secs * Second)) with true by (symmetry; apply Z.ltb_lt; exact Hd).
  replace (0 <? backoffFunc c 0) with true by (symmetry; apply Z.ltb_lt; exact Hb).
  reflexivity.
Qed.

End Waits.

(** [errors.Is] finds the cause under a [%w] wrapper. *)
Lemma error_eqb_refl (e : error) : error_eqb e e = true.
Proof.
  induction e as [t | m e IH]; simpl.
  - apply String.eqb_refl.
  - rewrite String.eqb_refl, IH. reflexivity.
Qed.

Lemma Is_wrapped (prefix : string) (cause : error) :
  Is (Errorf_w prefix cause) cause = true.
Proof.
  unfold Errorf_w. simpl. apply orb_true_iff. right.
  destruct cause; simpl; rewrite ?String.eqb_refl, ?error_eqb_refl; reflexivity.
Qed.

Section Completion.

Variable World : Type.
Variable json_Marshal : ChatRequest -> string + error.
Variable json_Decode : string -> ChatResponse + error.

(** What a failed [ChatCompletion] wraps, read off the last event of its
    log: the error of the transport or of the context, the decoding error
    of a 200, or the status error of the last response. *)
Definition failure_cause (evs : list (Event)) (final : Event) (cause : error)
  : Prop :=
  match final with
  | EvDo (inr err) => cause = err
  | EvAfter _ (Some err) => cause = err
  | EvDo (inl resp) =>
      if StatusCode resp =? StatusOK then json_Decode (Body resp) = inr cause
      else cause = status_error resp
  | EvAfter _ None =>
      exists resp, last_response evs = Some resp /\ cause = status_error resp
  end.

(** X13. [ChatCompletion] sends at most four requests and neither panics
    nor fails to return: the nil response with a nil error that the last
    line of [doWithRetry] could hand over is never produced.  It returns a
    response exactly as the decoding of the body of a 200 that is the last
    event; every error it returns is the cause wrapped under
    "openrouter: " (so [errors.Is] finds the cause, a cancellation
    included), and an encoding failure sends no request. *)
Theorem ChatCompletion_outcome (c : Client World) (ctx : Context World)
    (model : string) (messages : list Message) (s s' : Sys World)
    (out : Res ChatResponse) :
  @ChatCompletion World json_Marshal json_Decode c ctx model messages s = (out, s') ->
  exists evs,
    log s' = log s ++ evs /\ (requests evs <= 4)%nat /\
    match out with
    | Ok chatResp =>
        exists b resp,
          evs = b ++ [EvDo (inl resp)] /\ StatusCode resp = StatusOK /\
          json_Decode (Body resp) = inl chatResp
    | Err e =>
        exists cause,
          e = Errorf_w "openrouter: " cause /\
          Error e = ("openrouter: " ++ Error cause)%string /\
          Is e cause = true /\
          ((evs = [] /\
            json_Marshal {| Model := model; Messages := messages |} = inr cause) \/
           (exists body final,
              evs = body ++ [final] /\ failure_cause evs final cause))
    | Panic _ => False
    | Diverge => False
    end.
Proof.
  unfold ChatCompletion.
  destruct (json_Marshal {| Model := model; Messages := messages |})
    as [bytes | err] eqn:Em.
  2:{ unfold raise. intros H. inversion H; subst. exists [].
      rewrite app_nil_r. split; [reflexivity |]. split; [apply Nat.le_0_l |].
      exists err. split; [reflexivity |]. split; [reflexivity |].
      split; [apply Is_wrapped |]. left. auto. }
  destruct (doWithRetry c ctx
              (httpClient_Do c {| Model := model; Messages := messages |}) s)
    as [r s1] eqn:E.
  unfold doWithRetry in E.
  apply doWithRetry_loop_spec in E; [| lia | simpl; lia].
  destruct E as [evs [L [[_ [Habs _]] | [body [final [Hevs [_ [Hreq Hfin]]]]]]]];
    [discriminate |].
  change (Z.to_nat (4 - 0)) with 4%nat in *.
  assert (Hfail: forall cause,
             failure_cause evs final cause ->
             (out, s') = (Err (Errorf_w "openrouter: " cause), s1) ->
             exists evs0,
               log s' = log s ++ evs0 /\ (requests evs0 <= 4)%nat /\
               match out with
               | Ok chatResp =>
                   exists b resp,
                     evs0 = b ++ [EvDo (inl resp)] /\ StatusCode resp = StatusOK /\
                     json_Decode (Body resp) = inl chatResp
               | Err e =>
                   exists cause0,
                     e = Errorf_w "openrouter: " cause0 /\
                     Error e = ("openrouter: " ++ Error cause0)%string /\
                     Is e cause0 = true /\
                     ((evs0 = [] /\ (inl bytes : string + error) = inr cause0) \/
                      (exists body0 final0,
                         evs0 = body0 ++ [final0] /\
                         failure_cause evs0 final0 cause0))
               | Panic _ => False
               | Diverge => False
               end).
  { intros cause Hc H. inversion H; subst out s'. exists evs.
    split; [exact L |]. split; [exact Hreq |].
    exists cause. split; [reflexivity |]. split; [reflexivity |].
    split; [apply Is_wrapped |]. right. exists body, final. auto. }
  destruct final as [[resp | err] | d [err |]]; simpl in Hfin.
  - destruct (StatusCode resp =? StatusOK) eqn:H200.
    + subst r. destruct (json_Decode (Body resp)) as [chatResp | err] eqn:Ed.
      * intros H. inversion H; subst out s'. exists evs.
        split; [exact L |]. split; [exact Hreq |].
        exists body, resp. split; [exact Hevs |].
        split; [apply Z.eqb_eq; exact H200 | exact Ed].
      * intros H. symmetry in H. apply (Hfail err); [| exact H].
        simpl. rewrite H200. exact Ed.
    + destruct Hfin as [-> _]. intros H. symmetry in H.
      apply (Hfail (status_error resp)); [| exact H].
      simpl. rewrite H200. reflexivity.
  - subst r. intros H. symmetry in H.
    apply (Hfail err); [reflexivity | exact H].
  - subst r. intros H. symmetry in H.
    apply (Hfail err); [reflexivity | exact H].
  - destruct Hfin as [_ [resp [Hl ->]]]. intros H. symmetry in H.
    apply (Hfail (status_error resp)); [| exact H].
    simpl. exists resp. auto.
Qed.

End Completion.

End client_waits.

(* ===================================================================== *)
(** * The client on a scripted server *)
(* ===================================================================== *)

Module client_runs.

Import openrouter.

(** Two 503 and a 200, no wait cut short. *)
Definition busy_twice : Script :=
  [inl (reply 503 "" "busy"); inl (reply 503 "" "busy"); inl (reply 200 "" "{}")].

(** The instance of [doWithRetry_backs_off] at the third request of that
    run: two seconds were waited right before it. *)
Lemma doWithRetry_backs_off_witness :
  let r := send patient defaultBackoff busy_twice in
  exists b',
    [EvDo (inl (reply 503 "" "busy")); EvAfter Second None;
     EvDo (inl (reply 503 "" "busy")); EvAfter (2 * Second) None]
    = b' ++ [EvAfter (2 * Second) None] /\
    log (snd r)
    = (b' ++ [EvAfter (2 * Second) None]) ++ [EvDo (inl (reply 200 "" "{}"))].
Proof.
  intros r.
  destruct (@client_waits.doWithRetry_backs_off Script
              (scripted_client defaultBackoff) patient
              (script_Do {| Model := "m"; Messages := [] |}) (start busy_twice)
              (snd r) (fst r) (surjective_pairing _))
    as [evs [Hlog H]].
  assert (Hevs: evs = log (snd r)) by (symmetry; exact Hlog).
  clear Hlog.
  assert (E: evs = [EvDo (inl (reply 503 "" "busy")); EvAfter Second None;
                    EvDo (inl (reply 503 "" "busy")); EvAfter (2 * Second) None]
                   ++ EvDo (inl (reply 200 "" "{}")) :: []).
  { rewrite Hevs. vm_compute. reflexivity. }
  destruct (H _ _ _ E) as [_ [_ Hwait]].
  assert (Hpos: (0 < requests [EvDo (inl (reply 503 "" "busy")); EvAfter Second None;
                    EvDo (inl (reply 503 "" "busy")); EvAfter (2 * Second)%Z None])%nat).
  { vm_compute. repeat constructor. }
  destruct (Hwait Hpos) as [b' [Hb' Hd]].
  specialize (Hd eq_refl).
  assert (Hd': backoffFunc (scripted_client defaultBackoff)
                 (Z.of_nat (requests
                    [EvDo (inl (reply 503 "" "busy")); EvAfter Second None;
                     EvDo (inl (reply 503 "" "busy")); EvAfter (2 * Second) None]) - 1)
               = 2 * Second).
  { rewrite Hd. reflexivity. }
  rewrite Hd' in Hb'.
  exists b'. split; [exact Hb' |].
  rewrite <- Hb', <- Hevs. exact E.
Defined.

(** A 429 that asks for seven seconds, then a 200. *)
Definition slow_down : Script :=
  [inl (reply 429 "7" "slow down"); inl (reply 200 "" "{}")].

(** The instance of [doWithRetry_honours_retry_after] at the 429 of that
    run: the seven seconds are waited before the backoff of the retry. *)
Lemma doWithRetry_honours_retry_after_witness :
  let r := send patient defaultBackoff slow_down in
  exists o rest',
    List.tl (log (snd r)) = EvAfter (7 * Second) o :: rest'.
Proof.
  intros r.
  destruct (@client_waits.doWithRetry_honours_retry_after Script
              (scripted_client defaultBackoff) patient
              (script_Do {| Model := "m"; Messages := [] |}) (start slow_down)
              (snd r) (fst r) (surjective_pairing _))
    as [evs [Hlog H]].
  assert (Hevs: evs = log (snd r)) by (symmetry; exact Hlog).
  clear Hlog.
  assert (E: evs = [] ++ EvDo (inl (reply 429 "7" "slow down"))
                       :: List.tl (log (snd r))).
  { rewrite Hevs. vm_compute. reflexivity. }
  assert (H429: StatusCode (reply 429 "7" "slow down") = StatusTooManyRequests)
    by reflexivity.
  assert (Hra: Atoi (Header_Get (reply 429 "7" "slow down") "Retry-After") = Some 7)
    by (vm_compute; reflexivity).
  assert (Hd: 0 < wrap (7 * Second)) by (vm_compute; reflexivity).
  assert (Hb: 0 < backoffFunc (scripted_client defaultBackoff) 0)
    by (vm_compute; reflexivity).
  destruct (H _ _ _ _ E H429 Hra Hd Hb) as [o [rest' E']].
  exists o, rest'. rewrite E'. reflexivity.
Defined.

(** A codec for running [ChatCompletion]: every request encodes, and a body
    decodes unless it is empty. *)
Definition encode (_ : ChatRequest) : string + error := inl "{}"%string.

Definition decode (body : string) : ChatResponse + error :=
  if String.eqb body "" then inr (errorString "EOF")
  else inl {| Choices := [] |}.

(** The instance of [ChatCompletion_outcome] at the run of two 503 and a
    200: three requests, and the decoded body of the 200 is returned. *)
Lemma ChatCompletion_outcome_witness :
  let r := @ChatCompletion Script encode decode
             (scripted_client defaultBackoff) patient "m" [] (start busy_twice) in
  fst r = Ok {| Choices := [] |} /\
  (requests (log (snd r)) <= 4)%nat /\
  exists b resp,
    log (snd r) = b ++ [EvDo (inl resp)] /\ StatusCode resp = StatusOK /\
    decode (Body resp) = inl {| Choices := [] |}.
Proof.
  intros r.
  assert (E: fst r = Ok {| Choices := [] |}) by (vm_compute; reflexivity).
  pose proof (surjective_pairing r) as P. rewrite E in P.
  destruct (@client_waits.ChatCompletion_outcome Script encode decode
              (scripted_client defaultBackoff) patient "m" [] (start busy_twice)
              (snd r) (Ok {| Choices := [] |}) P)
    as [evs [Hlog [Hreq [b [resp [Hevs [H200 Hd]]]]]]].
  assert (Hl: log (snd r) = evs) by exact Hlog.
  split; [exact E |]. split; [rewrite Hl; exact Hreq |].
  exists b, resp. rewrite Hl. auto.
Defined.

End client_runs.

(* ===================================================================== *)
(** * internal/debate/consensus: what the judge sends *)
(* ===================================================================== *)

Module judge_calls.

Import openrouter debate consensus.

Section Calls.

Variable World : Type.
Variable TrimSpace : string -> string.
Variable Unmarshal : string -> ConsensusResult -> ConsensusResult * bool.

(** The conversation of a judge call: the instructions, the transcript as
    one line per turn and, on a retry, the reminder. *)
Definition judge_messages (transcript : Transcript) (retry : bool) : list Message :=
  [ {| openrouter.Role := "system"; openrouter.Content := system_prompt |};
    {| openrouter.Role := "user";
       openrouter.Content := transcript_lines (Turns transcript) |} ]
  ++ (if retry
      then [ {| openrouter.Role := "user"; openrouter.Content := retry_prompt |} ]
      else []).

Lemma Evaluate_attempts_calls (j : Judge World) (ctx : Context World)
    (system user : Message) :
  forall (left : nat) (attempt : Z) (s s' : Sys World) (out : Res ConsensusResult)
         (evs b rest : list Event) (m : string) (msgs : list Message)
         (r : Res ChatResponse),
    0 <= attempt ->
    Evaluate_attempts TrimSpace Unmarshal j ctx system user left attempt s = (out, s') ->
    log s' = log s ++ evs ->
    evs = b ++ EvChat m msgs r :: rest ->
    m = model j /\
    msgs = [system; user]
           ++ (if attempt + Z.of_nat (chats b) >? 0
               then [ {| openrouter.Role := "user";
                         openrouter.Content := retry_prompt |} ]
               else []).
Proof.
  induction left as [|left IH];
    intros attempt s s' out evs b rest m msgs r Hat Hrun Hlog Hevs.
  { simpl in Hrun. unfold ret in Hrun. inversion Hrun; subst.
    rewrite <- (app_nil_r (log s')) in Hlog at 1.
    apply app_inv_head in Hlog. destruct b; discriminate. }
  simpl in Hrun. unfold bind at 1 in Hrun.
  destruct (ctx_err ctx s) as [r0 s0] eqn:E0.
  apply ctx_err_inv in E0. destruct E0 as [o [-> [Hlog0 _]]].
  destruct o as [err|].
  { unfold raise in Hrun. inversion Hrun; subst.
    rewrite Hlog0 in Hlog. apply app_inv_head in Hlog.
    destruct b as [|x [|y b]]; inversion Hlog. }
  unfold bind at 1 in Hrun. unfold wrapping in Hrun.
  match type of Hrun with
  | context [chat j ctx ?ms s0] => set (msgs0 := ms) in *
  end.
  destruct (chat j ctx msgs0 s0) as [r1 s1] eqn:E1.
  apply chat_inv in E1. destruct E1 as [Hlog1 _].
  assert (Hpre: log s1 = log s ++ [EvErr None; EvChat (model j) msgs0 r1]).
  { rewrite Hlog1, Hlog0, <- app_assoc. reflexivity. }
  assert (Hfirst: forall tail,
             [EvErr None; EvChat (model j) msgs0 r1] ++ tail
             = b ++ EvChat m msgs r :: rest ->
             (b = [EvErr None] /\ m = model j /\ msgs = msgs0) \/
             (exists b2, b = EvErr None :: EvChat (model j) msgs0 r1 :: b2 /\
                         tail = b2 ++ EvChat m msgs r :: rest)).
  { intros tail E. destruct b as [|x [|y b]]; simpl in E.
    - discriminate.
    - inversion E; subst. left. auto.
    - injection E as Hx Hy Ht. subst x y. right. exists b. auto. }
  assert (Hone: b = [EvErr None] /\ m = model j /\ msgs = msgs0 ->
                m = model j /\
                msgs = [system; user]
                       ++ (if attempt + Z.of_nat (chats b) >? 0
                           then [ {| openrouter.Role := "user";
                                     openrouter.Content := retry_prompt |} ]
                           else [])).
  { intros [-> [-> ->]]. split; [reflexivity |].
    change (chats [EvErr None]) with O.
    replace (attempt + Z.of_nat 0) with attempt by lia. reflexivity. }
  assert (Hstop: s' = s1 ->
                 m = model j /\
                 msgs = [system; user]
                        ++ (if attempt + Z.of_nat (chats b) >? 0
                            then [ {| openrouter.Role := "user";
                                      openrouter.Content := retry_prompt |} ]
                            else [])).
  { intros ->. rewrite Hpre in Hlog. apply app_inv_head in Hlog.
    rewrite <- (app_nil_r [EvErr None; EvChat (model j) msgs0 r1]) in Hlog.
    rewrite Hevs in Hlog.
    destruct (Hfirst [] Hlog) as [H1 | [b2 [_ H2]]]; [apply Hone; exact H1 |].
    destruct b2; discriminate. }
  destruct r1 as [resp|err|msg|];
    try (inversion Hrun; subst; apply Hstop; reflexivity).
  destruct (Choices resp) as [|c cs].
  { unfold panic in Hrun. inversion Hrun; subst. apply Hstop; reflexivity. }
  destruct (parseConsensusJSON TrimSpace Unmarshal (openrouter.Content (Message_ c)))
    as [result|].
  { unfold ret in Hrun. inversion Hrun; subst. apply Hstop; reflexivity. }
  pose proof Hrun as Hrun'.
  apply Evaluate_attempts_spec in Hrun'. destruct Hrun' as [evs2 [Hlog2 _]].
  rewrite Hlog2, Hpre, <- app_assoc in Hlog. apply app_inv_head in Hlog.
  rewrite Hevs in Hlog.
  destruct (Hfirst evs2 Hlog) as [H1 | [b2 [-> H2]]]; [apply Hone; exact H1 |].
  assert (Hat': 0 <= attempt + 1) by lia.
  destruct (IH (attempt + 1) s1 s' out evs2 b2 rest m msgs r Hat' Hrun Hlog2 H2)
    as [Hm Hmsgs].
  split; [exact Hm |]. rewrite Hmsgs.
  change (EvErr None :: EvChat (model j) msgs0 (Ok resp) :: b2)
    with ([EvErr None; EvChat (model j) msgs0 (Ok resp)] ++ b2).
  rewrite chats_app.
  change (chats [EvErr None; EvChat (model j) msgs0 (Ok resp)]) with 1%nat.
  replace (attempt + Z.of_nat (1 + chats b2)) with (attempt + 1 + Z.of_nat (chats b2))
    by lia.
  reflexivity.
Qed.

(** X14. Every model call of an evaluation goes to the model of the judge
    and carries the instructions and the transcript, one line
    [Name: content] per turn; from the second call on the reminder is the
    third and last message, so the conversation does not grow with the
    retries and never holds a reply that failed to parse. *)
Theorem Evaluate_calls (j : Judge World) (ctx : Context World)
    (transcript : Transcript) (s s' : Sys World) (out : Res ConsensusResult) :
  Evaluate TrimSpace Unmarshal j ctx transcript s = (out, s') ->
  exists evs,
    log s' = log s ++ evs /\
    forall b m msgs r rest,
      evs = b ++ EvChat m msgs r :: rest ->
      m = model j /\
      msgs = judge_messages transcript (negb (chats b =? 0)%nat) /\
      (List.length msgs <= 3)%nat.
Proof.
  intros Hrun. pose proof Hrun as Hrun'. unfold Evaluate in Hrun.
  apply Evaluate_attempts_spec in Hrun'. destruct Hrun' as [evs [Hlog _]].
  exists evs. split; [exact Hlog |].
  intros b m msgs r rest Hevs.
  assert (H0: 0 <= 0) by lia.
  destruct (@Evaluate_attempts_calls j ctx _ _ maxJudgeRetries 0 s s' out evs b rest
              m msgs r H0 Hrun Hlog Hevs) as [Hm Hmsgs].
  split; [exact Hm |].
  assert (E: msgs = judge_messages transcript (negb (chats b =? 0)%nat)).
  { rewrite Hmsgs. unfold judge_messages. f_equal.
    destruct (chats b) as [|n]; [reflexivity |].
    simpl Nat.eqb. simpl negb.
    replace (0 + Z.of_nat (S n) >? 0) with true; [reflexivity |].
    symmetry. apply Z.gtb_lt. lia. }
  split; [exact E |].
  rewrite E. unfold judge_messages.
  destruct (negb (chats b =? 0)%nat); simpl; lia.
Qed.

End Calls.

End judge_calls.

(* ===================================================================== *)
(** * The calls of the judge on concrete replies *)
(* ===================================================================== *)

Module judge_call_runs.

Import openrouter debate consensus.

(** The instance of [Evaluate_calls] at the second call of a run whose
    first reply does not parse: the reminder is sent. *)
Lemma Evaluate_calls_witness :
  let r := sim.judge_run
             (sim.world [sim.says "not json"; sim.says judge_runs.payload] None) in
  exists msgs reply,
    nth_error (log (snd r)) 3 = Some (EvChat "test-model" msgs reply) /\
    msgs = judge_calls.judge_messages sim.sampleTranscript true.
Proof.
  intros r.
  destruct (@judge_calls.Evaluate_calls sim.World golib.TrimSpace golib.Unmarshal
              sim.judge sim.ctx sim.sampleTranscript _ (snd r) (fst r)
              (surjective_pairing r))
    as [evs [Hlog H]].
  assert (Hevs: evs = log (snd r)) by (symmetry; exact Hlog).
  assert (E: exists b m msgs reply,
             evs = b ++ EvChat m msgs reply :: [] /\
             chats b = 1%nat /\ m = "test-model"%string /\
             nth_error evs 3 = Some (EvChat m msgs reply)).
  { exists (firstn 3 (log (snd r))), "test-model"%string,
           (judge_calls.judge_messages sim.sampleTranscript true),
           (sim.says judge_runs.payload).
    rewrite Hevs. repeat split; vm_compute; reflexivity. }
  destruct E as [b [m [msgs [reply [E [Hb [Hm Hn]]]]]]].
  destruct (H b m msgs reply [] E) as [_ [Hmsgs _]].
  rewrite Hb in Hmsgs. subst m.
  exists msgs, reply. rewrite <- Hevs. split; [exact Hn | exact Hmsgs].
Defined.

End judge_call_runs.
